(** * HNSW vector index of realm-core: a shallow embedding and its properties

    The development follows [realm/index_hnsw.hpp], [realm/hnsw_config.hpp]
    and the implementation file of [HNSWIndex] function by function.

    Conventions of the embedding:
    - every C++ integer ([int], [int64_t], [size_t]) is a [Z]; wrap-around is
      written out where the code converts or multiplies;
    - an [ObjKey] is its [int64_t] value;
    - [std::unordered_map<int64_t, Node>] is a [gmap Z Node]; its iteration
      order (unspecified in C++) is the order of [map_to_list];
    - a [double] is an element of the carrier of [Float64], an interface with
      the arithmetic and comparisons the code uses;
    - a [std::priority_queue] is the list of its elements; [top] is an
      element that the comparator places before no other, the first such
      one of the list (the standard leaves the choice among equal keys open);
    - a method that can throw, or whose loop is bounded by fuel in the
      embedding, returns an [Outcome];
    - calls run one after the other: the readers-writer lock, the metrics
      counters and the timing are not kept. *)

From Stdlib Require Import ZArith List Bool Lia.
From stdpp Require Import base option list gmap sorting.

Local Open Scope Z_scope.

(** ** Doubles *)

(** The operations of [double] used by the index. [d_bits]/[d_of_bits] are
    the two [std::memcpy] between a [double] and an [int64_t]. *)
Class Float64 := {
  double : Type;
  d_zero : double;
  d_one : double;
  d_add : double → double → double;
  d_sub : double → double → double;
  d_mul : double → double → double;
  d_div : double → double → double;
  d_neg : double → double;
  d_sqrt : double → double;
  d_eqb : double → double → bool;
  d_lt : double → double → bool;
  d_le : double → double → bool;
  d_bits : double → Z;
  d_of_bits : Z → double
}.

(** What the proofs about ordering use of IEEE comparisons: on values that
    are not NaN, [<=] is a total preorder and [a < b] is the negation of
    [b <= a]. *)
Class Float64Order (F : Float64) := {
  d_le_trans : ∀ a b c, d_le a b = true → d_le b c = true → d_le a c = true;
  d_le_total : ∀ a b, d_le a b = true ∨ d_le b a = true;
  d_lt_le : ∀ a b, d_lt a b = negb (d_le b a)
}.

(** What the proofs about persistence use: copying the eight bytes of a
    double into an [int64_t] and back gives the double again. *)
Class Float64Bits (F : Float64) := {
  d_of_bits_bits : ∀ a, d_of_bits (d_bits a) = a
}.

(** Integer-valued stand-in used to run the definitions on concrete inputs:
    sums, products and the negative dot product are exact. *)
Definition ZFloat : Float64 := {|
  double := Z;
  d_zero := 0;
  d_one := 1;
  d_add := Z.add;
  d_sub := Z.sub;
  d_mul := Z.mul;
  d_div := Z.div;
  d_neg := Z.opp;
  d_sqrt := Z.sqrt;
  d_eqb := Z.eqb;
  d_lt := Z.ltb;
  d_le := Z.leb;
  d_bits := λ z, z;
  d_of_bits := λ z, z
|}.

(** ** Integer conversions *)

Definition to_int64 (z : Z) : Z := (z + 2 ^ 63) `mod` 2 ^ 64 - 2 ^ 63.
Definition to_size_t (z : Z) : Z := z `mod` 2 ^ 64.
Definition to_int (z : Z) : Z := (z + 2 ^ 31) `mod` 2 ^ 32 - 2 ^ 31.

Definition vsize {A : Type} (l : list A) : Z := Z.of_nat (length l).

(** ** Configuration ([realm/hnsw_config.hpp]) *)

Inductive DistanceMetric := Euclidean | Cosine | DotProduct.

(** [ml] and [random_seed] only feed [select_layer], whose result is an
    input of [insert] here; they are not kept. *)
Record HNSWIndexConfig := mkConfig {
  metric : DistanceMetric;
  M : Z;
  M0 : Z;
  ef_construction : Z;
  ef_search : Z;
  vector_dimension : Z
}.

(** [explicit HNSWIndexConfig(DistanceMetric dist_metric)] *)
Definition HNSWIndexConfig_new (dist_metric : DistanceMetric) : HNSWIndexConfig :=
  {| metric := dist_metric;
     M := 16;
     M0 := 32;
     ef_construction := 200;
     ef_search := 50;
     vector_dimension := 0 |}.

Definition set_vector_dimension (d : Z) (c : HNSWIndexConfig) : HNSWIndexConfig :=
  {| metric := metric c; M := M c; M0 := M0 c;
     ef_construction := ef_construction c; ef_search := ef_search c;
     vector_dimension := d |}.

(** The normalisation both constructors of [HNSWIndex] apply:
    [if (M0 == 0) M0 = M * 2; if (ef_search == 0) ef_search = max(64, M * 8)]. *)
Definition normalize_config (c : HNSWIndexConfig) : HNSWIndexConfig :=
  let m0 := if M0 c =? 0 then to_size_t (M c * 2) else M0 c in
  let efs := if ef_search c =? 0 then Z.max 64 (to_size_t (M c * 8)) else ef_search c in
  {| metric := metric c; M := M c; M0 := m0;
     ef_construction := ef_construction c; ef_search := efs;
     vector_dimension := vector_dimension c |}.

(** ** Block-arena storage *)

(** Modelled from the spec: [realm::Array] and [realm::Allocator] are not
    among the sources. The spec calls them a block arena exposing
    integer-indexed arrays referenced by opaque refs: an arena is a finite
    map from non-zero refs to arrays of 64-bit integers and a next free ref. *)
Record Alloc := mkAlloc {
  a_mem : gmap Z (list Z);
  a_next : Z
}.

(** [Array a(alloc); a.create(..); a.add(x)...; a.get_ref()]: the array with
    its final content is in the arena under a fresh ref. *)
Definition alloc_array (content : list Z) (a : Alloc) : Z * Alloc :=
  (a_next a, {| a_mem := <[a_next a := content]> (a_mem a); a_next := a_next a + 8 |}).
Arguments alloc_array : simpl never.

(** [Array::destroy] *)
Definition free_array (r : Z) (a : Alloc) : Alloc :=
  {| a_mem := delete r (a_mem a); a_next := a_next a |}.

(** [init_from_ref(ref)] followed by reads of the array. *)
Definition read_array (r : Z) (a : Alloc) : list Z := default [] (a_mem a !! r).

Section Index.
Context {F : Float64}.

(** ** Distance kernels *)

(** [v2[i]] for [i < v1.size()]: the kernels assume equal lengths; where
    [v2] is shorter the embedding reads [0.0]. *)
Fixpoint euclidean_sum (sum : double) (v1 v2 : list double) : double :=
  match v1 with
  | [] => sum
  | a :: v1' =>
      let diff := d_sub a (hd d_zero v2) in
      euclidean_sum (d_add sum (d_mul diff diff)) v1' (tl v2)
  end.

Definition euclidean_distance (v1 v2 : list double) : double :=
  d_sqrt (euclidean_sum d_zero v1 v2).

Fixpoint cosine_sums (dot norm1 norm2 : double) (v1 v2 : list double)
  : double * double * double :=
  match v1 with
  | [] => (dot, norm1, norm2)
  | a :: v1' =>
      let b := hd d_zero v2 in
      cosine_sums (d_add dot (d_mul a b)) (d_add norm1 (d_mul a a))
                  (d_add norm2 (d_mul b b)) v1' (tl v2)
  end.

Definition cosine_distance (v1 v2 : list double) : double :=
  let '(dot, norm1, norm2) := cosine_sums d_zero d_zero d_zero v1 v2 in
  if d_eqb norm1 d_zero || d_eqb norm2 d_zero then d_one
  else d_sub d_one (d_div dot (d_mul (d_sqrt norm1) (d_sqrt norm2))).

Fixpoint dot_sum (dot : double) (v1 v2 : list double) : double :=
  match v1 with
  | [] => dot
  | a :: v1' => dot_sum (d_add dot (d_mul a (hd d_zero v2))) v1' (tl v2)
  end.

Definition dot_product_distance (v1 v2 : list double) : double :=
  d_neg (dot_sum d_zero v1 v2).

Definition compute_distance (c : HNSWIndexConfig) (v1 v2 : list double) : double :=
  match metric c with
  | Euclidean => euclidean_distance v1 v2
  | Cosine => cosine_distance v1 v2
  | DotProduct => dot_product_distance v1 v2
  end.

(** ** Nodes and the index *)

Record Node := mkNode {
  obj_key : Z;
  vector : list double;
  layer : Z;
  connections : list (list Z)
}.

(** Modelled from the spec: [ObjKey] ([realm/keys.hpp]) is not among the
    sources; the spec has the entry point as an optional row-key. The absent
    key is the default-constructed [ObjKey], which holds -1 and converts to
    [false]. *)
Definition null_key : Z := -1.

Record HNSWIndex := mkIndex {
  m_config : HNSWIndexConfig;
  m_alloc : Alloc;
  m_array : Z;
  m_vectors : gmap Z Node;
  m_entry_point : Z;
  m_entry_point_layer : Z
}.

Definition with_config (c : HNSWIndexConfig) (s : HNSWIndex) : HNSWIndex :=
  {| m_config := c; m_alloc := m_alloc s; m_array := m_array s;
     m_vectors := m_vectors s; m_entry_point := m_entry_point s;
     m_entry_point_layer := m_entry_point_layer s |}.

Definition with_vectors (mv : gmap Z Node) (s : HNSWIndex) : HNSWIndex :=
  {| m_config := m_config s; m_alloc := m_alloc s; m_array := m_array s;
     m_vectors := mv; m_entry_point := m_entry_point s;
     m_entry_point_layer := m_entry_point_layer s |}.

Definition with_entry (k l : Z) (s : HNSWIndex) : HNSWIndex :=
  {| m_config := m_config s; m_alloc := m_alloc s; m_array := m_array s;
     m_vectors := m_vectors s; m_entry_point := k;
     m_entry_point_layer := l |}.

Definition with_storage (a : Alloc) (root : Z) (s : HNSWIndex) : HNSWIndex :=
  {| m_config := m_config s; m_alloc := a; m_array := root;
     m_vectors := m_vectors s; m_entry_point := m_entry_point s;
     m_entry_point_layer := m_entry_point_layer s |}.

(** [count()] *)
Definition count (s : HNSWIndex) : Z := Z.of_nat (size (m_vectors s)).

(** ** Graph operations *)

(** [node.connections[layer]] behind the guard
    [layer < static_cast<int>(node.connections.size())]; the layers passed
    by the callers are never negative. *)
Definition conn_at (n : Node) (lc : Z) : option (list Z) :=
  if lc <? vsize (connections n) then connections n !! Z.to_nat lc else None.

Definition with_connections (cs : list (list Z)) (n : Node) : Node :=
  {| obj_key := obj_key n; vector := vector n; layer := layer n; connections := cs |}.

(** [while (static_cast<int>(n.connections.size()) <= layer) n.connections.push_back({})] *)
Definition grow_connections (lc : Z) (n : Node) : Node :=
  with_connections
    (connections n ++ replicate (Z.to_nat (lc + 1 - vsize (connections n))) []) n.

Definition update_layer (lc : Z) (f : list Z → list Z) (n : Node) : Node :=
  with_connections (alter f (Z.to_nat lc) (connections n)) n.

(** [if (std::find(conn.begin(), conn.end(), k) == conn.end()) conn.push_back(k)] *)
Definition add_edge (k : Z) (conn : list Z) : list Z :=
  if bool_decide (k ∈ conn) then conn else conn ++ [k].

(** [conn.erase(std::remove(conn.begin(), conn.end(), k), conn.end())] *)
Definition remove_edge (k : Z) (conn : list Z) : list Z :=
  filter (λ x, x ≠ k) conn.

(** The two references [n1] and [n2] may name the same node; each step reads
    the map again. *)
Definition connect_nodes (node1 node2 lc : Z) (mv : gmap Z Node) : gmap Z Node :=
  match mv !! node1, mv !! node2 with
  | Some _, Some _ =>
      let mv := alter (grow_connections lc) node1 mv in
      let mv := alter (grow_connections lc) node2 mv in
      let mv := alter (update_layer lc (add_edge node2)) node1 mv in
      alter (update_layer lc (add_edge node1)) node2 mv
  | _, _ => mv
  end.

Definition remove_edge_guarded (lc k : Z) (n : Node) : Node :=
  if lc <? vsize (connections n) then update_layer lc (remove_edge k) n else n.

Definition disconnect_nodes (node1 node2 lc : Z) (mv : gmap Z Node) : gmap Z Node :=
  match mv !! node1, mv !! node2 with
  | Some _, Some _ =>
      let mv := alter (remove_edge_guarded lc node2) node1 mv in
      alter (remove_edge_guarded lc node1) node2 mv
  | _, _ => mv
  end.

(** The current content of [m_vectors[k].connections[layer]]. *)
Definition live_connections (k lc : Z) (mv : gmap Z Node) : list Z :=
  default [] (n ← mv !! k; conn_at n lc).

(** [for (ObjKey x : node.connections[layer]) body(x)] where [body] erases
    from that same vector. The loop keeps the begin and end iterators it
    took at its start, so it makes as many steps as the vector had elements
    and reads the cells of the vector's storage in turn. [std::remove]
    followed by [erase] shifts the kept elements to the front and leaves the
    cells behind the new end as they were ([ObjKey] is trivially copyable),
    so after each step the storage is the live vector followed by the old
    cells behind it. *)
Fixpoint range_for_live (steps i : nat) (cells : list Z) (owner lc : Z)
    (body : Z → gmap Z Node → gmap Z Node) (mv : gmap Z Node) : gmap Z Node :=
  match steps with
  | O => mv
  | S steps' =>
      match cells !! i with
      | None => mv
      | Some x =>
          let mv' := body x mv in
          let cur := live_connections owner lc mv' in
          range_for_live steps' (S i) (cur ++ drop (length cur) cells) owner lc body mv'
      end
  end.

Definition for_each_connection (owner lc : Z)
    (body : Z → gmap Z Node → gmap Z Node) (mv : gmap Z Node) : gmap Z Node :=
  let cells := live_connections owner lc mv in
  range_for_live (length cells) 0 cells owner lc body mv.

(** ** Priority queues *)

Record SearchCandidate := mkCand {
  cand_key : Z;
  distance : double
}.

(** [operator<] and [operator>] of [SearchCandidate]. *)
Definition cand_less (a b : SearchCandidate) : bool := d_lt (distance a) (distance b).
Definition cand_greater (a b : SearchCandidate) : bool := d_lt (distance b) (distance a).

(** [top()] and [pop()] of a [std::priority_queue] with comparator [comp]:
    the top [t] has [comp t x] false for every other element [x]. *)
Fixpoint pq_extract (comp : SearchCandidate → SearchCandidate → bool)
    (q : list SearchCandidate) : option (SearchCandidate * list SearchCandidate) :=
  match q with
  | [] => None
  | x :: q' =>
      match pq_extract comp q' with
      | None => Some (x, [])
      | Some (y, r) => if comp x y then Some (y, x :: r) else Some (x, q')
      end
  end.

Definition pq_top comp (q : list SearchCandidate) : option SearchCandidate :=
  fst <$> pq_extract comp q.

Definition pq_pop comp (q : list SearchCandidate) : list SearchCandidate :=
  match pq_extract comp q with
  | Some (_, r) => r
  | None => []
  end.

Definition pq_push (x : SearchCandidate) (q : list SearchCandidate) : list SearchCandidate :=
  x :: q.

(** [while (!w.empty()) { result.push_back({w.top()...}); w.pop(); }] *)
Fixpoint drain (n : nat) (w : list SearchCandidate) : list (Z * double) :=
  match n with
  | O => []
  | S n' =>
      match pq_extract cand_less w with
      | None => []
      | Some (t, w') => (cand_key t, distance t) :: drain n' w'
      end
  end.

(** ** Layer search *)

(** The three containers of [search_layer_with_distances]. *)
Record Frontier := mkFrontier {
  candidates : list SearchCandidate;
  w_set : list SearchCandidate;
  visited : gset Z
}.

(** The loop over [node.connections[layer]]. [None]: [w.top()] was called on
    an empty queue. *)
Fixpoint visit_neighbors (cfg : HNSWIndexConfig) (mv : gmap Z Node)
    (query : list double) (ef : Z) (nbs : list Z) (fr : Frontier) : option Frontier :=
  match nbs with
  | [] => Some fr
  | neighbor_key :: nbs' =>
      if bool_decide (neighbor_key ∈ visited fr) then
        visit_neighbors cfg mv query ef nbs' fr
      else
        let vis := {[neighbor_key]} ∪ visited fr in
        match mv !! neighbor_key with
        | None => visit_neighbors cfg mv query ef nbs' (mkFrontier (candidates fr) (w_set fr) vis)
        | Some nn =>
            let neighbor_dist := compute_distance cfg query (vector nn) in
            match pq_top cand_less (w_set fr) with
            | None => None
            | Some wt =>
                if d_lt neighbor_dist (distance wt) || (vsize (w_set fr) <? ef) then
                  let c := mkCand neighbor_key neighbor_dist in
                  let w1 := pq_push c (w_set fr) in
                  let w2 := if ef <? vsize w1 then pq_pop cand_less w1 else w1 in
                  visit_neighbors cfg mv query ef nbs'
                    (mkFrontier (pq_push c (candidates fr)) w2 vis)
                else
                  visit_neighbors cfg mv query ef nbs' (mkFrontier (candidates fr) (w_set fr) vis)
            end
        end
  end.

(** [while (!candidates.empty())]. [None]: out of fuel, or [w.top()] on an
    empty queue. *)
Fixpoint search_loop (fuel : nat) (cfg : HNSWIndexConfig) (mv : gmap Z Node)
    (query : list double) (ef lc : Z) (fr : Frontier) : option (list SearchCandidate) :=
  match fuel with
  | O => None
  | S fuel' =>
      match pq_extract cand_greater (candidates fr) with
      | None => Some (w_set fr)
      | Some (current, rest) =>
          match pq_top cand_less (w_set fr) with
          | None => None
          | Some wt =>
              if d_lt (distance wt) (distance current) && (ef <=? vsize (w_set fr)) then
                Some (w_set fr)
              else
                let fr' := mkFrontier rest (w_set fr) (visited fr) in
                match mv !! cand_key current with
                | None => search_loop fuel' cfg mv query ef lc fr'
                | Some node =>
                    match conn_at node lc with
                    | None => search_loop fuel' cfg mv query ef lc fr'
                    | Some nbs =>
                        match visit_neighbors cfg mv query ef nbs fr' with
                        | None => None
                        | Some fr'' => search_loop fuel' cfg mv query ef lc fr''
                        end
                    end
                end
          end
      end
  end.

Definition search_layer_with_distances (cfg : HNSWIndexConfig) (mv : gmap Z Node)
    (query : list double) (entry_point ef lc : Z) : option (list (Z * double)) :=
  if (entry_point =? null_key) || Nat.eqb (size mv) 0 then Some []
  else
    match mv !! entry_point with
    | None => Some []
    | Some en =>
        let entry_dist := compute_distance cfg query (vector en) in
        let c := mkCand entry_point entry_dist in
        w ← search_loop (S (size mv)) cfg mv query ef lc
              (mkFrontier [c] [c] {[entry_point]});
        Some (reverse (drain (length w) w))
    end.

Definition search_layer (cfg : HNSWIndexConfig) (mv : gmap Z Node)
    (query : list double) (entry_point ef lc : Z) : option (list Z) :=
  r ← search_layer_with_distances cfg mv query entry_point ef lc; Some (r.*1).

(** ** Neighbour selection *)

Definition select_neighbors_simple (cands : list (Z * double)) (Mx : Z) : list Z :=
  take (Z.to_nat Mx) (cands.*1).

(** [std::sort] with [a.second < b.second], as a stable insertion sort (the
    order [std::sort] gives to equal distances is unspecified). *)
Fixpoint insert_by_distance (x : Z * double) (l : list (Z * double)) : list (Z * double) :=
  match l with
  | [] => [x]
  | y :: l' => if d_lt x.2 y.2 then x :: y :: l' else y :: insert_by_distance x l'
  end.

Definition sort_by_distance (l : list (Z * double)) : list (Z * double) :=
  foldr insert_by_distance [] l.

Definition extend_with (cfg : HNSWIndexConfig) (mv : gmap Z Node) (query : list double)
    (acc : list (Z * double) * gset Z) (neighbor : Z) : list (Z * double) * gset Z :=
  if bool_decide (neighbor ∈ acc.2) then acc
  else
    match mv !! neighbor with
    | Some nn => (acc.1 ++ [(neighbor, compute_distance cfg query (vector nn))],
                  {[neighbor]} ∪ acc.2)
    | None => acc
    end.

Definition extend_working_set (cfg : HNSWIndexConfig) (mv : gmap Z Node)
    (query : list double) (cands : list (Z * double)) (lc : Z) : list (Z * double) :=
  let in_working_set : gset Z := list_to_set (cands.*1) in
  (fold_left
     (λ acc c,
        match mv !! c.1 with
        | Some node =>
            match conn_at node lc with
            | Some nbs => fold_left (extend_with cfg mv query) nbs acc
            | None => acc
            end
        | None => acc
        end)
     cands (cands, in_working_set)).1.

(** The loop "select diverse neighbors". *)
Fixpoint select_diverse (cfg : HNSWIndexConfig) (mv : gmap Z Node) (Mx : Z)
    (working_set : list (Z * double)) (result : list Z) : list Z :=
  match working_set with
  | [] => result
  | candidate :: rest =>
      if Mx <=? vsize result then result
      else
        let should_add :=
          match mv !! candidate.1 with
          | Some cn =>
              negb (existsb
                      (λ selected,
                         match mv !! selected with
                         | Some sn =>
                             d_lt (compute_distance cfg (vector cn) (vector sn)) candidate.2
                         | None => false
                         end)
                      result)
          | None => true
          end in
        select_diverse cfg mv Mx rest
          (if should_add then result ++ [candidate.1] else result)
  end.

Definition select_neighbors_heuristic (cfg : HNSWIndexConfig) (mv : gmap Z Node)
    (query : list double) (cands : list (Z * double)) (Mx lc : Z)
    (extend_candidates : bool) : list Z :=
  let working_set :=
    if extend_candidates then sort_by_distance (extend_working_set cfg mv query cands lc)
    else cands in
  select_diverse cfg mv Mx working_set [].

Definition prune_connections (cfg : HNSWIndexConfig) (node_key lc : Z)
    (mv : gmap Z Node) : gmap Z Node :=
  match mv !! node_key with
  | None => mv
  | Some node =>
      match conn_at node lc with
      | None => mv
      | Some conns =>
          let max_conn := if lc =? 0 then M0 cfg else M cfg in
          if vsize conns <=? max_conn then mv
          else
            let cands :=
              omap (λ neighbor,
                      nn ← mv !! neighbor;
                      Some (neighbor, compute_distance cfg (vector node) (vector nn)))
                   conns in
            let new_neighbors :=
              select_neighbors_heuristic cfg mv (vector node) (sort_by_distance cands)
                                         max_conn lc false in
            let mv :=
              for_each_connection node_key lc
                (λ old_neighbor mv,
                   if bool_decide (old_neighbor ∈ new_neighbors) then mv
                   else disconnect_nodes node_key old_neighbor lc mv)
                mv in
            alter (update_layer lc (λ _, new_neighbors)) node_key mv
      end
  end.

(** ** Outcomes of the public methods *)

Inductive Error :=
| DimensionMismatch (expected actual : Z)
| AssertionFailed.

(** [Done a s]: the call returned [a] and left the index in state [s].
    [Raise e s]: it threw and left the index in state [s]. [Stuck]: the
    embedding has no answer (a loop ran out of fuel, or [top()] was called
    on an empty queue). *)
Inductive Outcome (A : Type) :=
| Done (a : A) (s : HNSWIndex)
| Raise (e : Error) (s : HNSWIndex)
| Stuck.
Arguments Done {A} a s.
Arguments Raise {A} e s.
Arguments Stuck {A}.

Definition Call (A : Type) : Type := HNSWIndex → Outcome A.

Definition and_then {A B : Type} (c : Call A) (k : A → Call B) : Call B :=
  λ s, match c s with
       | Done a s' => k a s'
       | Raise e s' => Raise e s'
       | Stuck => Stuck
       end.

Definition pure_step {A : Type} (o : option A) : Call A :=
  λ s, match o with Some a => Done a s | None => Stuck end.

Notation "x ⇐ c ;; k" := (and_then c (λ x, k))
  (at level 100, c at next level, right associativity).

(** ** Validation *)

Definition validate_vector_dimension (v : list double) : Call unit :=
  λ s,
    if vector_dimension (m_config s) =? 0 then
      Done tt (with_config (set_vector_dimension (vsize v) (m_config s)) s)
    else if negb (vsize v =? vector_dimension (m_config s)) then
      Raise (DimensionMismatch (vector_dimension (m_config s)) (vsize v)) s
    else Done tt s.

(** ** Saving *)

(** The layers [0 .. top]. *)
Definition layers_upto (top : Z) : list Z := seqZ 0 (top + 1).

(** [for (int layer = 0; layer <= node.layer; ++layer)]: one connection
    array per layer, empty where the node has no such layer. *)
Fixpoint save_connections (node : Node) (layers : list Z) (a : Alloc) : list Z * Alloc :=
  match layers with
  | [] => ([], a)
  | lc :: rest =>
      let '(conn_ref, a) := alloc_array (default [] (conn_at node lc)) a in
      let '(refs, a) := save_connections node rest a in
      (conn_ref :: refs, a)
  end.

Definition save_node (node : Node) (a : Alloc) : Z * Alloc :=
  let '(info_ref, a) := alloc_array [obj_key node; layer node] a in
  let '(vector_ref, a) := alloc_array (d_bits <$> vector node) a in
  let '(conn_refs, a) := save_connections node (layers_upto (layer node)) a in
  alloc_array (info_ref :: vector_ref :: conn_refs) a.

(** [for (const auto& pair : m_vectors)] *)
Fixpoint save_nodes (nodes : list (Z * Node)) (a : Alloc) : list Z * Alloc :=
  match nodes with
  | [] => ([], a)
  | p :: rest =>
      let '(node_ref, a) := save_node p.2 a in
      let '(refs, a) := save_nodes rest a in
      (node_ref :: refs, a)
  end.

Definition k_format_version : Z := 1.

Definition metadata_of (s : HNSWIndex) : list Z :=
  [ k_format_version;
    m_entry_point s;
    m_entry_point_layer s;
    to_int64 (vector_dimension (m_config s));
    to_int64 (M (m_config s));
    to_int64 (ef_construction (m_config s));
    to_int64 (ef_search (m_config s)) ].

(** The parent linkage of the root array belongs to the host and is not
    kept; the persisted root is [m_array]. *)
Definition save_to_storage (s : HNSWIndex) : HNSWIndex :=
  let '(metadata_ref, a) := alloc_array (metadata_of s) (m_alloc s) in
  let '(node_refs, a) := save_nodes (map_to_list (m_vectors s)) a in
  let '(new_root, a) := alloc_array (metadata_ref :: node_refs) a in
  with_storage (free_array (m_array s) a) new_root s.

(** ** Insert *)

(** [for (int lc = from; lc > to; --lc)] with a one-element layer search. *)
Fixpoint greedy_descend (n : nat) (lc : Z) (cfg : HNSWIndexConfig) (mv : gmap Z Node)
    (query : list double) (curr_nearest : Z) : option Z :=
  match n with
  | O => Some curr_nearest
  | S n' =>
      results ← search_layer cfg mv query curr_nearest 1 lc;
      greedy_descend n' (lc - 1) cfg mv query
        (match results with r :: _ => r | [] => curr_nearest end)
  end.

(** [for (int lc = node_layer; lc >= 0; --lc)] of [insert]. *)
Fixpoint link_layers (n : nat) (lc : Z) (cfg : HNSWIndexConfig) (key : Z)
    (vec : list double) (curr_nearest : Z) (mv : gmap Z Node) : option (gmap Z Node) :=
  match n with
  | O => Some mv
  | S n' =>
      cands ← search_layer_with_distances cfg mv vec curr_nearest (ef_construction cfg) lc;
      let Mx := if lc =? 0 then M0 cfg else M cfg in
      let neighbors :=
        if lc =? 0 then select_neighbors_simple cands Mx
        else select_neighbors_heuristic cfg mv vec cands Mx lc true in
      let mv := fold_left (λ mv neighbor, connect_nodes key neighbor lc mv) neighbors mv in
      let mv := fold_left (λ mv neighbor, prune_connections cfg neighbor lc mv) neighbors mv in
      link_layers n' (lc - 1) cfg key vec
        (match cands with c :: _ => c.1 | [] => curr_nearest end) mv
  end.

Definition is_empty (s : HNSWIndex) : bool := Nat.eqb (size (m_vectors s)) 0.

(** [insert(key, value)]: [vec] is what [get_vector_for_key(key)] reads from
    the row, [node_layer] what [select_layer()] draws (between 0 and 32). *)
Definition insert (key : Z) (vec : list double) (node_layer : Z) : Call unit :=
  λ s,
    if vsize vec =? 0 then Done tt s
    else
      (_ ⇐ validate_vector_dimension vec ;;
       λ s,
         let new_node := mkNode key vec node_layer (replicate (Z.to_nat (node_layer + 1)) []) in
         if is_empty s then
           Done tt (save_to_storage
                      (with_entry key node_layer
                         (with_vectors (<[key := new_node]> (m_vectors s)) s)))
         else
           (curr_nearest ⇐ pure_step
              (greedy_descend (Z.to_nat (m_entry_point_layer s - node_layer))
                 (m_entry_point_layer s) (m_config s) (m_vectors s) vec (m_entry_point s)) ;;
            mv ⇐ pure_step
              (link_layers (Z.to_nat (node_layer + 1)) node_layer (m_config s) key vec
                 curr_nearest (<[key := new_node]> (m_vectors s))) ;;
            λ s,
              let s := with_vectors mv s in
              let s := if m_entry_point_layer s <? node_layer
                       then with_entry key node_layer s else s in
              Done tt (save_to_storage s)) s) s.

(** ** Erase, set, clear *)

(** The scan for a new entry point: the first node, in iteration order,
    of the greatest layer above -1. *)
Definition rescan_entry_point (mv : gmap Z Node) : Z * Z :=
  fold_left
    (λ (acc : Z * Z) (p : Z * Node),
       if acc.2 <? layer p.2 then (obj_key p.2, layer p.2) else acc)
    (map_to_list mv) (null_key, -1).

(** [for (int layer = 0; layer <= node.layer; ++layer)] of [erase]; [node]
    is a reference into the map, its connections are read as they are when
    the layer is reached. *)
Definition erase_layer (key : Z) (mv : gmap Z Node) (lc : Z) : gmap Z Node :=
  match mv !! key with
  | Some node =>
      if lc <? vsize (connections node) then
        for_each_connection key lc (λ neighbor mv, disconnect_nodes key neighbor lc mv) mv
      else mv
  | None => mv
  end.

Definition erase (key : Z) : Call unit :=
  λ s,
    match m_vectors s !! key with
    | None => Done tt s
    | Some node =>
        let mv := fold_left (erase_layer key) (layers_upto (layer node)) (m_vectors s) in
        let s := with_vectors (delete key mv) s in
        let s :=
          if key =? m_entry_point s then
            let '(k, l) := rescan_entry_point (m_vectors s) in with_entry k l s
          else s in
        Done tt (save_to_storage s)
    end.

(** [set(key, value)]: [erase(key); insert(key, value);] *)
Definition set (key : Z) (vec : list double) (node_layer : Z) : Call unit :=
  _ ⇐ erase key ;; insert key vec node_layer.

Definition clear : Call unit :=
  λ s, Done tt (save_to_storage (with_entry null_key (-1) (with_vectors ∅ s))).

(** ** Queries *)

(** The candidate-set size and result size [search_knn] works with, after
    its [ef_search == 0] test and the two clamps. *)
Definition effective_ef (cfg : HNSWIndexConfig) (k ef_search_arg n : Z) : Z :=
  Z.min (if ef_search_arg =? 0 then Z.max (ef_search cfg) k else ef_search_arg) n.

Definition effective_k (k n : Z) : Z := Z.min k n.

Definition search_knn (query_vector : list double) (k ef_search_arg : Z)
  : Call (list (Z * double)) :=
  λ s,
    if is_empty s || (m_entry_point s =? null_key) then Done [] s
    else if k =? 0 then Done [] s
    else
      (_ ⇐ validate_vector_dimension query_vector ;;
       λ s,
         let ef := effective_ef (m_config s) k ef_search_arg (count s) in
         let k' := effective_k k (count s) in
         (curr_nearest ⇐ pure_step
            (greedy_descend (Z.to_nat (m_entry_point_layer s)) (m_entry_point_layer s)
               (m_config s) (m_vectors s) query_vector (m_entry_point s)) ;;
          results ⇐ pure_step
            (search_layer_with_distances (m_config s) (m_vectors s) query_vector
               curr_nearest ef 0) ;;
          λ s, Done (take (Z.to_nat k') results) s) s) s.

(** The filter loop of [search_radius], which stops at the first result
    beyond the threshold. *)
Fixpoint within_radius (max_distance : double) (results : list (Z * double))
  : list (Z * double) :=
  match results with
  | [] => []
  | p :: rest =>
      if d_le p.2 max_distance then p :: within_radius max_distance rest else []
  end.

Definition search_radius (query_vector : list double) (max_distance : double)
  : Call (list (Z * double)) :=
  λ s,
    if is_empty s || (m_entry_point s =? null_key) then Done [] s
    else if d_lt max_distance d_zero then Done [] s
    else
      (_ ⇐ validate_vector_dimension query_vector ;;
       λ s,
         let ef_large :=
           Z.min (to_size_t (ef_search (m_config s) * 2))
                 (Z.max (ef_search (m_config s)) (count s)) in
         (results ⇐ search_knn query_vector (count s) ef_large ;;
          λ s, Done (within_radius max_distance results) s) s) s.

(** ** Loading *)

(** [array.get(i)] / [array.get_as_ref(i)] for an index below the size. *)
Definition slot (arr : list Z) (i : Z) : Z := default 0 (arr !! Z.to_nat i).

(** One round of the loop "Load connections for each layer". *)
Definition load_connection (a : Alloc) (node_array : list Z) (lc : Z) : list Z :=
  if 2 + lc <? vsize node_array then
    let conn_ref := slot node_array (2 + lc) in
    if conn_ref =? 0 then [] else read_array conn_ref a
  else [].

(** The body of the loop "Load nodes". A [Node] that gets no info array
    keeps the key of a default [ObjKey]; its [layer] is then read
    uninitialised in C++ and is 0 here. *)
Definition load_node (a : Alloc) (mv : gmap Z Node) (node_ref : Z) : gmap Z Node :=
  if node_ref =? 0 then mv
  else
    let node_array := read_array node_ref a in
    if vsize node_array <? 2 then mv
    else
      let node_info_ref := slot node_array 0 in
      let node_info := if node_info_ref =? 0 then [] else read_array node_info_ref a in
      let '(key, top) :=
        if 2 <=? vsize node_info then (slot node_info 0, to_int (slot node_info 1))
        else (null_key, 0) in
      let vector_ref := slot node_array 1 in
      let vec := if vector_ref =? 0 then [] else d_of_bits <$> read_array vector_ref a in
      let conns := load_connection a node_array <$> layers_upto top in
      <[key := mkNode key vec top conns]> mv.

(** [load_from_storage()]; [REALM_ASSERT(version == k_format_version)] ends
    the program when it fails. *)
Definition load_from_storage : Call unit :=
  λ s,
    let root := read_array (m_array s) (m_alloc s) in
    if vsize root =? 0 then Done tt s
    else
      let metadata_ref := slot root 0 in
      let metadata := if metadata_ref =? 0 then [] else read_array metadata_ref (m_alloc s) in
      let nodes := fold_left (load_node (m_alloc s)) (drop 1 root) (m_vectors s) in
      if 7 <=? vsize metadata then
        if negb (to_size_t (slot metadata 0) =? k_format_version) then Raise AssertionFailed s
        else
          let cfg :=
            {| metric := metric (m_config s);
               M := to_size_t (slot metadata 4);
               M0 := M0 (m_config s);
               ef_construction := to_size_t (slot metadata 5);
               ef_search := to_size_t (slot metadata 6);
               vector_dimension := to_size_t (slot metadata 3) |} in
          Done tt (with_vectors nodes
                     (with_entry (slot metadata 1) (to_int (slot metadata 2))
                        (with_config cfg s)))
      else Done tt (with_vectors nodes s).

(** ** Constructors *)

(** [HNSWIndex(target_column, alloc, config)] *)
Definition HNSWIndex_create (alloc : Alloc) (config : HNSWIndexConfig) : HNSWIndex :=
  let '(root, a) := alloc_array [] alloc in
  {| m_config := normalize_config config;
     m_alloc := a;
     m_array := root;
     m_vectors := ∅;
     m_entry_point := null_key;
     m_entry_point_layer := -1 |}.

(** [HNSWIndex(ref, parent, ndx_in_parent, target_column, alloc, config)] *)
Definition HNSWIndex_open (ref : Z) (alloc : Alloc) (config : HNSWIndexConfig)
  : Outcome unit :=
  (_ ⇐ load_from_storage ;;
   λ s, Done tt (with_config (normalize_config (m_config s)) s))
    {| m_config := config;
       m_alloc := alloc;
       m_array := ref;
       m_vectors := ∅;
       m_entry_point := null_key;
       m_entry_point_layer := -1 |}.

End Index.

Arguments Done {F A} a s.
Arguments Raise {F A} e s.
Arguments Stuck {F A}.

Notation "x ⇐ c ;; k" := (and_then c (λ x, k))
  (at level 100, c at next level, right associativity).

(** ** Invariants of the data model *)

Section Invariants.
Context {F : Float64}.

(** The adjacency of a node at a layer: empty where the node has no such
    layer. *)
Definition adjacency (n : Node) (lc : Z) : list Z := default [] (conn_at n lc).

(** Graph symmetry: for every node [n] and layer [lc <= n.layer], [b] is in
    the adjacency of [n] at [lc] iff [b] is a node whose adjacency at [lc]
    holds [n]. *)
Definition symmetric (mv : gmap Z Node) : Prop :=
  ∀ k n lc b,
    mv !! k = Some n → 0 ≤ lc ≤ layer n →
    (b ∈ adjacency n lc ↔ ∃ nb, mv !! b = Some nb ∧ k ∈ adjacency nb lc).

(** The same, as a check that runs. *)
Definition symmetricb (mv : gmap Z Node) : bool :=
  forallb
    (λ p : Z * Node,
       forallb
         (λ lc,
            forallb
              (λ b, match mv !! b with
                    | Some nb => bool_decide (p.1 ∈ adjacency nb lc)
                    | None => false
                    end)
              (adjacency p.2 lc)
            && forallb
                 (λ q : Z * Node,
                    implb (bool_decide (p.1 ∈ adjacency q.2 lc))
                          (bool_decide (q.1 ∈ adjacency p.2 lc)))
                 (map_to_list mv))
         (layers_upto (layer p.2)))
    (map_to_list mv).

(** Erase closure: no node's adjacency holds [k], at any layer. *)
Definition unreferenced (k : Z) (mv : gmap Z Node) : Prop :=
  ∀ k' n, mv !! k' = Some n → Forall (λ conn, k ∉ conn) (connections n).

(** What the persistence round trip relies on: every node is stored under
    its own key, has its layers [0 .. layer], and the numbers fit their C++
    types; refs handed out by the arena are positive and the current root
    is not a free one. *)
Definition node_well_formed (k : Z) (n : Node) : Prop :=
  obj_key n = k ∧ 0 ≤ layer n < 2 ^ 31 ∧ layer n < vsize (connections n).

#[global] Instance node_well_formed_dec k n : Decision (node_well_formed k n).
Proof. unfold node_well_formed. apply _. Defined.

Record well_formed (s : HNSWIndex) : Prop := {
  wf_nodes : map_Forall node_well_formed (m_vectors s);
  wf_entry_layer : - 2 ^ 31 ≤ m_entry_point_layer s < 2 ^ 31;
  wf_dimension : 0 ≤ vector_dimension (m_config s) < 2 ^ 64;
  wf_next : 0 < a_next (m_alloc s);
  wf_root : m_array s < a_next (m_alloc s)
}.

(** What is left to do in a layer search: the open candidates and the nodes
    not seen yet. *)
Definition work_left (mv : gmap Z Node) (fr : Frontier) : nat :=
  (length (candidates fr) + size (dom mv ∖ visited fr))%nat.

(** What a saved node looks like when it is loaded again: its layers
    [0 .. layer], each with the adjacency the node had there. *)
Definition persisted_node (n : Node) : Node :=
  mkNode (obj_key n) (vector n) (layer n) (adjacency n <$> layers_upto (layer n)).

(** [a'] is [a] after some allocations. *)
Definition extends (a a' : Alloc) : Prop :=
  a_next a ≤ a_next a' ∧ ∀ r, r < a_next a → a_mem a' !! r = a_mem a !! r.

(** [af] still holds what [a] holds at the refs from [lo] on. *)
Definition keeps (a af : Alloc) (lo : Z) : Prop :=
  ∀ r, lo ≤ r < a_next a → a_mem af !! r = a_mem a !! r.

(** Distances of a result list never decrease. *)
Definition ascending (l : list (Z * double)) : Prop :=
  Sorted (λ a b, d_le a.2 b.2 = true) l.

End Invariants.

(** ** Runs on concrete inputs *)

Module Runs.

#[local] Existing Instance ZFloat.

Definition arena0 : Alloc := {| a_mem := ∅; a_next := 8 |}.

Definition idx0 : HNSWIndex := HNSWIndex_create arena0 (HNSWIndexConfig_new DotProduct).

Definition state_of {A} (o : Outcome A) : HNSWIndex :=
  match o with
  | Done _ s => s
  | Raise _ s => s
  | Stuck => idx0
  end.

(** One row, key 1, vector (1, 0), drawn layer 0. *)
Definition one_row : HNSWIndex := state_of (insert 1 [1; 0] 0 idx0).

(** A second row, key 2, vector (2, 1), drawn layer 2. *)
Definition two_rows : HNSWIndex := state_of (insert 2 [2; 1] 2 one_row).

(** Row 1 erased again. *)
Definition after_erase : HNSWIndex := state_of (erase 1 two_rows).

(** The row of [one_row] erased: an empty graph of dimension 2. *)
Definition emptied : HNSWIndex := state_of (erase 1 one_row).

(** Four rows on layer 0: row 1 is linked to the three others. *)
Definition four_rows : HNSWIndex :=
  state_of (insert 4 [0; 4] 0
    (state_of (insert 3 [3; 0] 0
      (state_of (insert 2 [2; 1] 0 one_row))))).

(** An index with [M = 1] and [M0 = 2], holding three rows on layer 0 that
    are all linked, and the same after a fourth row [(3, 2)]. *)
Definition narrow_three : HNSWIndex :=
  state_of (insert 3 [2; 1] 0
    (state_of (insert 2 [0; 3] 0
      (state_of (insert 1 [1; 0] 0
        (HNSWIndex_create arena0 (mkConfig DotProduct 1 2 200 50 0))))))).

Definition narrow_four : HNSWIndex := state_of (insert 4 [3; 2] 0 narrow_three).

Definition graph_of (s : HNSWIndex) : list (Z * (Z * list (list Z))) :=
  (λ p : Z * Node, (p.1, (layer p.2, connections p.2))) <$> map_to_list (m_vectors s).

End Runs.

(** ** Further operations of [HNSWIndex] *)

Section MoreOperations.
Context {F : Float64}.

(** [find_first(value)]: [query] is what [extract_vector(value)] gives, the
    vector of the linked row for a typed link and the empty vector for any
    other value. *)
Definition find_first (query : list double) : Call Z :=
  results ⇐ search_knn query 1 0 ;;
  λ s, Done (match results with [] => null_key | p :: _ => p.1 end) s.

(** [find_all(result, value, case_insensitive)]: the keys left in [result]. *)
Definition find_all (query : list double) : Call (list Z) :=
  results ⇐ search_knn query 10 0 ;; λ s, Done (results.*1) s.

(** The layers both loops of [verify] visit:
    [layer <= node.layer && layer < static_cast<int>(node.connections.size())]. *)
Definition verify_layers (node : Node) : list Z :=
  seqZ 0 (Z.min (layer node + 1) (vsize (connections node))).

(** The assertion on one neighbour: checked only if the neighbour is a node
    that has the layer. *)
Definition verify_neighbor (mv : gmap Z Node) (node : Node) (lc neighbor : Z) : bool :=
  match mv !! neighbor with
  | Some neighbor_node =>
      if lc <? vsize (connections neighbor_node)
      then bool_decide (obj_key node ∈ adjacency neighbor_node lc)
      else true
  | None => true
  end.

Definition verify_node (cfg : HNSWIndexConfig) (mv : gmap Z Node) (node : Node) : bool :=
  forallb (λ lc, forallb (verify_neighbor mv node lc) (adjacency node lc))
          (verify_layers node)
  && forallb (λ lc, vsize (adjacency node lc)
                    <=? to_size_t ((if lc =? 0 then M0 cfg else M cfg) + 2))
             (verify_layers node).

(** [verify()]: [true] when no [REALM_ASSERT_EX] fails. *)
Definition verify (s : HNSWIndex) : bool :=
  forallb (λ p : Z * Node, verify_node (m_config s) (m_vectors s) p.2)
          (map_to_list (m_vectors s)).

(** What [verify] establishes. *)
Definition verified (s : HNSWIndex) : Prop :=
  ∀ k node lc,
    m_vectors s !! k = Some node →
    0 ≤ lc ≤ layer node → lc < vsize (connections node) →
    (∀ b nb, b ∈ adjacency node lc → m_vectors s !! b = Some nb →
             lc < vsize (connections nb) → obj_key node ∈ adjacency nb lc)
    ∧ vsize (adjacency node lc)
      ≤ to_size_t ((if lc =? 0 then M0 (m_config s) else M (m_config s)) + 2).

(** The state a call leaves, whether it returned or threw. *)
Definition final_state {A : Type} (o : Outcome A) : option HNSWIndex :=
  match o with
  | Done _ s => Some s
  | Raise _ s => Some s
  | Stuck => None
  end.

(** What identifies a node apart from its links. *)
Definition node_data (n : Node) : Z * list double * Z := (obj_key n, vector n, layer n).

(** Two node tables hold the same nodes, links apart. *)
Definition same_data (mv mv' : gmap Z Node) : Prop :=
  ∀ k, node_data <$> mv' !! k = node_data <$> mv !! k.

(** The same, and every node has as many layers of links as before. *)
Definition same_shape (mv mv' : gmap Z Node) : Prop :=
  ∀ k, (λ n, (node_data n, length (connections n))) <$> mv' !! k
       = (λ n, (node_data n, length (connections n))) <$> mv !! k.

(** The entry point names a node of the greatest top layer, and no key
    when there is no node. *)
Definition entry_point_maximal (s : HNSWIndex) : Prop :=
  if is_empty s then m_entry_point s = null_key ∧ m_entry_point_layer s = -1
  else ∃ n, m_vectors s !! m_entry_point s = Some n
            ∧ layer n = m_entry_point_layer s
            ∧ ∀ k' n', m_vectors s !! k' = Some n' → layer n' ≤ m_entry_point_layer s.

(** Every node is stored under its own key and has a top layer from 0 up. *)
Definition keys_and_layers (mv : gmap Z Node) : Prop :=
  map_Forall (λ k n, obj_key n = k ∧ 0 ≤ layer n) mv.

(** A result pair names a node and carries the distance to its vector. *)
Definition result_of_node (cfg : HNSWIndexConfig) (mv : gmap Z Node)
    (query : list double) (p : Z * double) : Prop :=
  ∃ n, mv !! p.1 = Some n ∧ p.2 = compute_distance cfg query (vector n).

(** A candidate of a layer search names a node and carries the distance
    from the query to its vector. *)
Definition candidate_of_node (cfg : HNSWIndexConfig) (mv : gmap Z Node)
    (query : list double) (c : SearchCandidate) : Prop :=
  result_of_node cfg mv query (cand_key c, distance c).

(** What the two loops of a layer search keep: both queues hold candidates
    of nodes, the keys of [w] are distinct and have all been visited. *)
Definition frontier_sound (cfg : HNSWIndexConfig) (mv : gmap Z Node)
    (query : list double) (fr : Frontier) : Prop :=
  Forall (candidate_of_node cfg mv query) (candidates fr)
  ∧ Forall (candidate_of_node cfg mv query) (w_set fr)
  ∧ NoDup (cand_key <$> w_set fr)
  ∧ ∀ c, c ∈ w_set fr → cand_key c ∈ visited fr.

(** Some element of a queue is within the distance [d0]. *)
Definition reaches (d0 : double) (w : list SearchCandidate) : Prop :=
  Exists (λ x, d_le (distance x) d0 = true) w.

(** Every indexed vector has the dimension of the index, which is not 0. *)
Definition uniform_dimension (s : HNSWIndex) : Prop :=
  ∀ k n, m_vectors s !! k = Some n →
         vector_dimension (m_config s) ≠ 0
         ∧ vsize (vector n) = vector_dimension (m_config s).

(** The candidate-set size [search_radius] asks [search_knn] for. *)
Definition ef_large (s : HNSWIndex) : Z :=
  Z.min (to_size_t (ef_search (m_config s) * 2))
        (Z.max (ef_search (m_config s)) (count s)).

(** [max_conn] of [prune_connections] and [M] of the linking loop of
    [insert]: [M0] on layer 0, [M] above. *)
Definition max_connections (cfg : HNSWIndexConfig) (lc : Z) : Z :=
  if lc =? 0 then M0 cfg else M cfg.

(** No node has more than [max_connections] links on a layer, its top
    layer or another. *)
Definition degree_bounded (cfg : HNSWIndexConfig) (mv : gmap Z Node) : Prop :=
  ∀ k lc, 0 ≤ lc → vsize (live_connections k lc mv) ≤ max_connections cfg lc.

(** [mv'] has the links of [mv] on every layer but [lc], and no more links
    than [mv] on [lc]. *)
Definition shrinks_at (lc : Z) (mv mv' : gmap Z Node) : Prop :=
  ∀ k lc', 0 ≤ lc' →
    (lc' ≠ lc → live_connections k lc' mv' = live_connections k lc' mv)
    ∧ vsize (live_connections k lc' mv') ≤ vsize (live_connections k lc' mv).

(** [mv'] has no more links than [mv], on any layer. *)
Definition shrinks (mv mv' : gmap Z Node) : Prop :=
  ∀ k lc', 0 ≤ lc' →
    vsize (live_connections k lc' mv') ≤ vsize (live_connections k lc' mv).

(** Two node tables hold the same nodes, links apart, and no node has fewer
    layers of links in the second. *)
Definition same_or_more_layers (mv mv' : gmap Z Node) : Prop :=
  ∀ k, match mv !! k, mv' !! k with
       | Some n, Some n' =>
           node_data n' = node_data n
           ∧ (length (connections n) ≤ length (connections n'))%nat
       | None, None => True
       | _, _ => False
       end.

(** On the nodes other than [key], [mv'] has the links of [mv], or those
    without [key]. *)
Definition only_unlinks (key : Z) (mv mv' : gmap Z Node) : Prop :=
  ∀ k lc, k ≠ key → 0 ≤ lc →
    live_connections k lc mv' = live_connections k lc mv
    ∨ live_connections k lc mv' = remove_edge key (live_connections k lc mv).

(** [b] is a node that [a] links to on layer [lc]. *)
Definition links_to (mv : gmap Z Node) (lc a b : Z) : Prop :=
  b ∈ live_connections a lc mv ∧ is_Some (mv !! b).

(** What a layer search keeps when its candidate set can hold every node:
    the visited nodes are all in [w], and each node of [w] is the one being
    expanded, or still a candidate, or has all its neighbours visited. *)
Definition frontier_complete (mv : gmap Z Node) (lc : Z) (cur : option Z)
    (fr : Frontier) : Prop :=
  (∀ k, k ∈ visited fr → is_Some (mv !! k) → k ∈ cand_key <$> w_set fr)
  ∧ (∀ k, k ∈ cand_key <$> w_set fr →
          cur = Some k
          ∨ k ∈ cand_key <$> candidates fr
          ∨ ∀ b, links_to mv lc k b → b ∈ visited fr).

End MoreOperations.

(** * Properties *)

Section BasicFacts.
Context {F : Float64}.

Lemma save_to_storage_config s : m_config (save_to_storage s) = m_config s.
Proof.
  unfold save_to_storage.
  destruct (alloc_array _ _) as [r1 a1], (save_nodes _ _) as [rs a2].
  destruct (alloc_array _ a2) as [r3 a3]. reflexivity.
Qed.

Lemma save_to_storage_vectors s : m_vectors (save_to_storage s) = m_vectors s.
Proof.
  unfold save_to_storage.
  destruct (alloc_array _ _) as [r1 a1], (save_nodes _ _) as [rs a2].
  destruct (alloc_array _ a2) as [r3 a3]. reflexivity.
Qed.

Lemma save_to_storage_entry s :
  m_entry_point (save_to_storage s) = m_entry_point s ∧
  m_entry_point_layer (save_to_storage s) = m_entry_point_layer s.
Proof.
  unfold save_to_storage.
  destruct (alloc_array _ _) as [r1 a1], (save_nodes _ _) as [rs a2].
  destruct (alloc_array _ a2) as [r3 a3]. split; reflexivity.
Qed.

(** [erase] always returns; it keeps the configuration and leaves no node
    under the erased key. *)
Lemma erase_returns key s :
  ∃ s', erase key s = Done tt s' ∧ m_config s' = m_config s ∧ m_vectors s' !! key = None.
Proof.
  unfold erase. destruct (m_vectors s !! key) as [node|] eqn:Hk.
  - eexists. split; [reflexivity|].
    rewrite save_to_storage_config, save_to_storage_vectors.
    set (s1 := with_vectors _ s).
    assert (Hs1 : m_config s1 = m_config s ∧ m_vectors s1 !! key = None).
    { split; [reflexivity|]. subst s1. simpl. apply lookup_delete_eq. }
    destruct (key =? m_entry_point s1); [|exact Hs1].
    destruct (rescan_entry_point _) as [k l]. exact Hs1.
  - exists s. auto.
Qed.

(** A vector of the wrong length is rejected before anything else happens. *)
Lemma validate_mismatch (v : list double) s :
  vector_dimension (m_config s) ≠ 0 →
  vsize v ≠ vector_dimension (m_config s) →
  validate_vector_dimension v s
  = Raise (DimensionMismatch (vector_dimension (m_config s)) (vsize v)) s.
Proof.
  intros HD Hv. unfold validate_vector_dimension.
  destruct (Z.eqb_spec (vector_dimension (m_config s)) 0); [done|].
  destruct (Z.eqb_spec (vsize v) (vector_dimension (m_config s))); done.
Qed.

Lemma validate_match (v : list double) s :
  vector_dimension (m_config s) ≠ 0 →
  vsize v = vector_dimension (m_config s) →
  validate_vector_dimension v s = Done tt s.
Proof.
  intros HD Hv. unfold validate_vector_dimension.
  destruct (Z.eqb_spec (vector_dimension (m_config s)) 0); [done|].
  destruct (Z.eqb_spec (vsize v) (vector_dimension (m_config s))); done.
Qed.

Lemma insert_mismatch key (vec : list double) node_layer s :
  vector_dimension (m_config s) ≠ 0 →
  vsize vec ≠ 0 →
  vsize vec ≠ vector_dimension (m_config s) →
  insert key vec node_layer s
  = Raise (DimensionMismatch (vector_dimension (m_config s)) (vsize vec)) s.
Proof.
  intros HD H0 Hv. unfold insert.
  destruct (Z.eqb_spec (vsize vec) 0); [done|].
  unfold and_then at 1. by rewrite validate_mismatch.
Qed.

End BasicFacts.

Section ErrorHandling.
Context {F : Float64}.

(** C3, as the code has it: on an index whose dimension [D] is fixed, a
    non-empty vector of a length other than [D] makes [insert] throw
    DimensionMismatch and leave the index exactly as it was; [set] throws
    the same error, but after its [erase]: the index is then in the state
    [erase] leaves, without a node for the key. *)
Theorem mismatch_insert_unchanged_set_erased
    (s : HNSWIndex) (key : Z) (vec : list double) (node_layer : Z) :
  vector_dimension (m_config s) ≠ 0 →
  vsize vec ≠ 0 →
  vsize vec ≠ vector_dimension (m_config s) →
  insert key vec node_layer s
  = Raise (DimensionMismatch (vector_dimension (m_config s)) (vsize vec)) s
  ∧ ∃ s', erase key s = Done tt s'
          ∧ m_vectors s' !! key = None
          ∧ set key vec node_layer s
            = Raise (DimensionMismatch (vector_dimension (m_config s)) (vsize vec)) s'.
Proof.
  intros HD H0 Hv. split; [by apply insert_mismatch|].
  destruct (erase_returns key s) as (s' & He & Hc & Hk).
  exists s'. repeat split; [done..|].
  unfold set, and_then. rewrite He, <- Hc.
  apply insert_mismatch; rewrite ?Hc; done.
Qed.

(** C4, as the code has it: [search_knn] returns the empty list for an empty
    graph and for [k = 0] without looking at the query; otherwise, with the
    dimension [D] fixed, a query of another length throws
    DimensionMismatch. *)
Theorem search_knn_shortcuts_then_validation
    (s : HNSWIndex) (q : list double) (k ef : Z) :
  vector_dimension (m_config s) ≠ 0 →
  vsize q ≠ vector_dimension (m_config s) →
  search_knn q k ef s
  = if is_empty s || (m_entry_point s =? null_key) || (k =? 0) then Done [] s
    else Raise (DimensionMismatch (vector_dimension (m_config s)) (vsize q)) s.
Proof.
  intros HD Hq. unfold search_knn.
  destruct (is_empty s || (m_entry_point s =? null_key)); [done|]. simpl.
  destruct (k =? 0); [done|].
  unfold and_then at 1. by rewrite validate_mismatch.
Qed.

(** C10: a negative threshold makes [search_radius] return the empty list,
    whatever the graph, the metric and the query. *)
Theorem search_radius_negative_threshold
    (s : HNSWIndex) (q : list double) (r : double) :
  d_lt r d_zero = true →
  search_radius q r s = Done [] s.
Proof.
  intros Hr. unfold search_radius.
  destruct (is_empty s || (m_entry_point s =? null_key)); [done|].
  by rewrite Hr.
Qed.

End ErrorHandling.

Section Defaults.
Context {F : Float64}.

(** C9, as the code has it: the configuration constructor sets [ef_search]
    to 50, the index constructor keeps a non-zero value, and a query without
    an override works with [max(50, k)] clamped to the node count; the rule
    [max(64, 8 * M)] is applied only to a configuration whose [ef_search]
    is 0. *)
Theorem default_ef_search (alloc : Alloc) (m : DistanceMetric) :
  let cfg := m_config (HNSWIndex_create alloc (HNSWIndexConfig_new m)) in
  M cfg = 16 ∧ ef_search cfg = 50
  ∧ (∀ k n, effective_ef cfg k 0 n = Z.min (Z.max 50 k) n)
  ∧ (∀ m' M' M0' efc D,
       ef_search (m_config (HNSWIndex_create alloc (mkConfig m' M' M0' efc 0 D)))
       = Z.max 64 (to_size_t (M' * 8))).
Proof. unfold HNSWIndex_create. simpl. repeat split. Qed.

End Defaults.

Section PriorityQueue.
Context {F : Float64}.

Lemma pq_extract_none comp q : pq_extract comp q = None ↔ q = [].
Proof.
  destruct q as [|x q]; simpl; [done|].
  destruct (pq_extract comp q) as [[y r]|]; [destruct (comp x y)|]; done.
Qed.

Lemma pq_extract_perm comp q t r : pq_extract comp q = Some (t, r) → q ≡ₚ t :: r.
Proof.
  revert t r. induction q as [|x q IH]; intros t r; simpl; [done|].
  destruct (pq_extract comp q) as [[y r0]|] eqn:Hq.
  - destruct (comp x y); intros [= <- <-]; [|done].
    rewrite (IH _ _ eq_refl). apply Permutation_swap.
  - apply pq_extract_none in Hq as ->. by intros [= <- <-].
Qed.

Lemma pq_extract_length comp q t r :
  pq_extract comp q = Some (t, r) → length q = S (length r).
Proof. intros H. by rewrite (pq_extract_perm _ _ _ _ H). Qed.

Lemma pq_top_some comp q : q ≠ [] → ∃ t, pq_top comp q = Some t.
Proof.
  intros Hq. unfold pq_top. destruct (pq_extract comp q) as [[t r]|] eqn:He.
  - by exists t.
  - by apply pq_extract_none in He.
Qed.

Lemma pq_pop_push_length comp x q : length (pq_pop comp (pq_push x q)) = length q.
Proof.
  unfold pq_pop, pq_push. destruct (pq_extract comp (x :: q)) as [[t r]|] eqn:He.
  - apply pq_extract_length in He. simpl in He. lia.
  - by apply pq_extract_none in He.
Qed.

Lemma drain_length w : length (drain (length w) w) = length w.
Proof.
  remember (length w) as n eqn:Hn. revert w Hn.
  induction n as [|n IH]; intros w Hn; simpl; [done|].
  destruct (pq_extract cand_less w) as [[t r]|] eqn:He.
  - simpl. f_equal. apply IH. apply pq_extract_length in He. lia.
  - apply pq_extract_none in He as ->. done.
Qed.

Context {L : Float64Order F}.

(** The top of the max-heap is no nearer than any other element. *)
Lemma pq_extract_less_max q t r :
  pq_extract cand_less q = Some (t, r) →
  Forall (λ x, d_le (distance x) (distance t) = true) r.
Proof.
  revert t r. induction q as [|x q IH]; intros t r; simpl; [done|].
  destruct (pq_extract cand_less q) as [[y r0]|] eqn:Hq.
  - specialize (IH _ _ eq_refl).
    destruct (cand_less x y) eqn:Hxy; intros [= <- <-]; unfold cand_less in Hxy;
      rewrite d_lt_le in Hxy.
    + constructor; [|done].
      destruct (d_le_total (distance x) (distance y)) as [H|H]; [done|].
      by rewrite H in Hxy.
    + apply negb_false_iff in Hxy.
      rewrite (pq_extract_perm _ _ _ _ Hq). constructor; [done|].
      eapply Forall_impl; [exact IH|]. simpl. intros z Hz. by eapply d_le_trans.
  - apply pq_extract_none in Hq as ->. by intros [= <- <-].
Qed.

Lemma drain_elem n w p :
  p ∈ drain n w → ∃ c, c ∈ w ∧ p = (cand_key c, distance c).
Proof.
  revert w. induction n as [|n IH]; intros w; simpl; [by intros ?%elem_of_nil|].
  destruct (pq_extract cand_less w) as [[t r]|] eqn:He; [|by intros ?%elem_of_nil].
  pose proof (pq_extract_perm _ _ _ _ He) as Hp.
  intros [->|Hin]%elem_of_cons.
  - exists t. split; [|done]. rewrite Hp. left.
  - destruct (IH _ Hin) as (c & Hc & ->). exists c. split; [|done].
    rewrite Hp. by right.
Qed.

(** Draining the max-heap gives the distances from the farthest down. *)
Lemma drain_descending n w :
  Sorted (λ a b : Z * double, d_le b.2 a.2 = true) (drain n w).
Proof.
  revert w. induction n as [|n IH]; intros w; simpl; [constructor|].
  destruct (pq_extract cand_less w) as [[t r]|] eqn:He; [|constructor].
  constructor; [apply IH|].
  destruct (drain n r) as [|p l] eqn:Hd; constructor.
  assert (Hp : p ∈ drain n r) by (rewrite Hd; left).
  apply drain_elem in Hp as (c & Hc & ->). simpl.
  pose proof (pq_extract_less_max _ _ _ He) as Hmax.
  rewrite Forall_forall in Hmax. by apply Hmax.
Qed.

Lemma ascending_take n (l : list (Z * double)) : ascending l → ascending (take n l).
Proof.
  unfold ascending. intros H. revert n.
  induction H as [|x l Hs IH Hhd]; intros [|n]; simpl; try constructor; [apply IH|].
  destruct Hhd; destruct n; simpl; by constructor.
Qed.

Lemma reverse_drain_ascending n w : ascending (reverse (drain n w)).
Proof. apply (Sorted_reverse _ _ (drain_descending n w)). Qed.

End PriorityQueue.

Section SearchTermination.
Context {F : Float64}.

Lemma unseen_node_visited (mv : gmap Z Node) (vis : gset Z) k :
  k ∉ vis → is_Some (mv !! k) →
  S (size (dom mv ∖ ({[k]} ∪ vis))) = size (dom mv ∖ vis).
Proof.
  intros Hk Hin. apply elem_of_dom in Hin.
  assert (Heq : dom mv ∖ vis = {[k]} ∪ dom mv ∖ ({[k]} ∪ vis)).
  { apply set_eq. intros x. rewrite elem_of_union, !elem_of_difference,
      elem_of_union, elem_of_singleton.
    split.
    - intros [Hx Hv]. destruct (decide (x = k)) as [->|Hne]; [by left|].
      right. split; [done|]. by intros [?|?].
    - intros [->|[Hx Hv]]; [done|]. split; [done|]. intros ?. apply Hv. by right. }
  rewrite Heq.
  rewrite (size_union (C := gset Z) {[k]} (dom mv ∖ ({[k]} ∪ vis))).
  - by rewrite size_singleton.
  - intros x Hx1 Hx2. apply elem_of_difference in Hx2 as [_ Hx2].
    apply Hx2, elem_of_union. by left.
Qed.

Lemma unseen_key_visited (mv : gmap Z Node) (vis : gset Z) k :
  mv !! k = None → dom mv ∖ ({[k]} ∪ vis) = dom mv ∖ vis.
Proof.
  intros Hk. apply not_elem_of_dom in Hk.
  apply set_eq. intros x. rewrite !elem_of_difference, elem_of_union, elem_of_singleton.
  split; intros [Hx Hn]; (split; [done|]).
  - intros ?. apply Hn. by right.
  - intros [->|?]; [done|by apply Hn].
Qed.

(** The neighbour loop returns, keeps [w] non-empty and within its bound,
    and does not add work. *)
Lemma visit_neighbors_total cfg mv query ef nbs fr :
  w_set fr ≠ [] →
  ∃ fr', visit_neighbors cfg mv query ef nbs fr = Some fr'
         ∧ w_set fr' ≠ []
         ∧ (work_left mv fr' ≤ work_left mv fr)%nat
         ∧ vsize (w_set fr') ≤ Z.max (vsize (w_set fr)) ef.
Proof.
  revert fr. induction nbs as [|nb nbs IH]; intros fr Hw; simpl.
  { exists fr. repeat split; [done|lia|lia]. }
  case_bool_decide as Hvis; [by apply IH|].
  destruct (mv !! nb) as [nn|] eqn:Hnb.
  - destruct (pq_top_some cand_less _ Hw) as [wt ->].
    pose proof (unseen_node_visited mv (visited fr) nb Hvis (mk_is_Some _ _ Hnb)) as Hsz.
    destruct (d_lt _ _ || _) eqn:Hpush.
    + set (c := mkCand nb _).
      set (w2 := if ef <? vsize (pq_push c (w_set fr)) then _ else _).
      assert (Hw2 : w2 ≠ [] ∧ vsize w2 ≤ Z.max (vsize (w_set fr)) ef).
      { subst w2.
        destruct (Z.ltb_spec ef (vsize (pq_push c (w_set fr)))) as [Hlt|Hge];
          unfold vsize in *.
        - rewrite pq_pop_push_length. split; [|lia].
          intros Hnil. apply (f_equal length) in Hnil.
          rewrite pq_pop_push_length in Hnil. by destruct (w_set fr).
        - split; [done|]. unfold pq_push in *. lia. }
      destruct Hw2 as [Hne Hle].
      destruct (IH (mkFrontier (pq_push c (candidates fr)) w2 ({[nb]} ∪ visited fr)) Hne)
        as (fr' & -> & Hne' & Hwork & Hsize).
      exists fr'. repeat split; [done| |simpl in Hsize; lia].
      unfold work_left in *. simpl in Hwork. lia.
    + destruct (IH (mkFrontier (candidates fr) (w_set fr) ({[nb]} ∪ visited fr)) Hw)
        as (fr' & -> & Hne' & Hwork & Hsize).
      exists fr'. repeat split; [done| |done].
      unfold work_left in *. simpl in Hwork. lia.
  - destruct (IH (mkFrontier (candidates fr) (w_set fr) ({[nb]} ∪ visited fr)) Hw)
      as (fr' & -> & Hne' & Hwork & Hsize).
    exists fr'. repeat split; [done| |done].
    unfold work_left in *. simpl in Hwork.
    rewrite (unseen_key_visited _ _ _ Hnb) in Hwork. done.
Qed.

(** With fuel above the work left the loop returns a non-empty [w] of at
    most [max(1, ef)] elements. *)
Lemma search_loop_total fuel cfg mv query ef lc fr :
  w_set fr ≠ [] →
  vsize (w_set fr) ≤ Z.max 1 ef →
  (work_left mv fr < fuel)%nat →
  ∃ w, search_loop fuel cfg mv query ef lc fr = Some w
       ∧ w ≠ [] ∧ vsize w ≤ Z.max 1 ef.
Proof.
  revert fr. induction fuel as [|fuel IH]; intros fr Hw Hsz Hfuel; [lia|]. simpl.
  destruct (pq_extract cand_greater (candidates fr)) as [[current rest]|] eqn:Hc.
  2: { by exists (w_set fr). }
  destruct (pq_top_some cand_less _ Hw) as [wt ->].
  destruct (d_lt _ _ && _); [by exists (w_set fr)|].
  apply pq_extract_length in Hc.
  assert (Hrest : (work_left mv (mkFrontier rest (w_set fr) (visited fr)) < fuel)%nat).
  { unfold work_left in *. simpl. lia. }
  destruct (mv !! cand_key current) as [node|]; [|by apply IH].
  destruct (conn_at node lc) as [nbs|]; [|by apply IH].
  destruct (visit_neighbors_total cfg mv query ef nbs
              (mkFrontier rest (w_set fr) (visited fr)) Hw)
    as (fr' & -> & Hne & Hwork & Hsize).
  apply IH; [done| simpl in Hsize; lia | lia].
Qed.

(** [search_layer_with_distances] returns, with at most [max(1, ef)]
    results. *)
Lemma search_layer_with_distances_total cfg mv query entry_point ef lc :
  ∃ r, search_layer_with_distances cfg mv query entry_point ef lc = Some r
       ∧ vsize r ≤ Z.max 1 ef.
Proof.
  unfold search_layer_with_distances.
  destruct ((entry_point =? null_key) || _); [exists []; split; [done|unfold vsize; simpl; lia]|].
  destruct (mv !! entry_point) as [en|] eqn:Hen;
    [|exists []; split; [done|unfold vsize; simpl; lia]].
  set (c := mkCand entry_point _).
  destruct (search_loop_total (S (size mv)) cfg mv query ef lc
              (mkFrontier [c] [c] {[entry_point]})) as (w & -> & Hne & Hsz).
  - done.
  - unfold vsize. simpl. lia.
  - unfold work_left. simpl.
    pose proof (unseen_node_visited mv ∅ entry_point) as Hs.
    rewrite (right_id_L ∅ (∪)) in Hs.
    rewrite <- (size_dom (D := gset Z) mv).
    rewrite difference_empty_L in Hs.
    rewrite <- Hs; [lia|apply not_elem_of_empty|by eexists].
  - simpl. eexists. split; [done|].
    unfold vsize in *. by rewrite length_reverse, drain_length.
Qed.

Lemma search_layer_with_distances_ascending `{!Float64Order F}
    cfg mv query entry_point ef lc r :
  search_layer_with_distances cfg mv query entry_point ef lc = Some r → ascending r.
Proof.
  unfold search_layer_with_distances.
  destruct ((entry_point =? null_key) || _); [intros [= <-]; constructor|].
  destruct (mv !! entry_point) as [en|]; [|intros [= <-]; constructor].
  destruct (search_loop _ _ _ _ _ _ _) as [w|]; simpl; [|done].
  intros [= <-]. apply reverse_drain_ascending.
Qed.

Lemma greedy_descend_total n lc cfg mv query curr :
  ∃ k, greedy_descend n lc cfg mv query curr = Some k.
Proof.
  revert lc curr. induction n as [|n IH]; intros lc curr; simpl; [by eexists|].
  unfold search_layer.
  destruct (search_layer_with_distances_total cfg mv query curr 1 lc) as (r & -> & _).
  simpl. apply IH.
Qed.

End SearchTermination.

Section Queries.
Context {F : Float64}.

Lemma validate_cases (v : list double) s :
  (∃ e, validate_vector_dimension v s = Raise e s)
  ∨ (∃ s1, validate_vector_dimension v s = Done tt s1
           ∧ m_vectors s1 = m_vectors s
           ∧ m_entry_point s1 = m_entry_point s
           ∧ m_entry_point_layer s1 = m_entry_point_layer s
           ∧ ef_search (m_config s1) = ef_search (m_config s)).
Proof.
  unfold validate_vector_dimension.
  destruct (vector_dimension (m_config s) =? 0); [right; by eexists|].
  destruct (negb _); [left; by eexists|right; by eexists].
Qed.

Lemma search_knn_unfold (q : list double) k ef s :
  search_knn q k ef s
  = if is_empty s || (m_entry_point s =? null_key) then Done [] s
    else if k =? 0 then Done [] s
    else match validate_vector_dimension q s with
         | Done _ s1 =>
             match greedy_descend (Z.to_nat (m_entry_point_layer s1)) (m_entry_point_layer s1)
                     (m_config s1) (m_vectors s1) q (m_entry_point s1) with
             | Some curr =>
                 match search_layer_with_distances (m_config s1) (m_vectors s1) q curr
                         (effective_ef (m_config s1) k ef (count s1)) 0 with
                 | Some r => Done (take (Z.to_nat (effective_k k (count s1))) r) s1
                 | None => Stuck
                 end
             | None => Stuck
             end
         | Raise e s1 => Raise e s1
         | Stuck => Stuck
         end.
Proof.
  unfold search_knn, and_then, pure_step.
  destruct (is_empty s || _); [done|]. destruct (k =? 0); [done|].
  destruct (validate_vector_dimension q s) as [[] s1| |]; [|done..].
  destruct (greedy_descend _ _ _ _ _ _); [|done].
  by destruct (search_layer_with_distances _ _ _ _ _ _).
Qed.

(** The three ways [search_knn] ends: a shortcut, an exception of the
    validation, or the first [k] results of a layer-0 search. *)
Lemma search_knn_cases (q : list double) k ef s :
  search_knn q k ef s = Done [] s
  ∨ (∃ e, search_knn q k ef s = Raise e s)
  ∨ (∃ s1 curr r,
        m_vectors s1 = m_vectors s
        ∧ search_layer_with_distances (m_config s1) (m_vectors s1) q curr
            (effective_ef (m_config s1) k ef (count s1)) 0 = Some r
        ∧ search_knn q k ef s = Done (take (Z.to_nat (effective_k k (count s1))) r) s1).
Proof.
  rewrite search_knn_unfold.
  destruct (is_empty s || (m_entry_point s =? null_key)); [by left|].
  destruct (k =? 0); [by left|].
  destruct (validate_cases q s) as [[e ->]|(s1 & -> & Hv & _)]; [right; left; by eexists|].
  right; right.
  destruct (greedy_descend_total (Z.to_nat (m_entry_point_layer s1)) (m_entry_point_layer s1)
              (m_config s1) (m_vectors s1) q (m_entry_point s1)) as [curr ->].
  destruct (search_layer_with_distances_total (m_config s1) (m_vectors s1) q curr
              (effective_ef (m_config s1) k ef (count s1)) 0) as (r & Hr & _).
  rewrite Hr. by exists s1, curr, r.
Qed.

Lemma search_radius_unfold (q : list double) (r : double) s :
  search_radius q r s
  = if is_empty s || (m_entry_point s =? null_key) then Done [] s
    else if d_lt r d_zero then Done [] s
    else match validate_vector_dimension q s with
         | Done _ s1 =>
             match search_knn q (count s1)
                     (Z.min (to_size_t (ef_search (m_config s1) * 2))
                            (Z.max (ef_search (m_config s1)) (count s1))) s1 with
             | Done results s2 => Done (within_radius r results) s2
             | Raise e s2 => Raise e s2
             | Stuck => Stuck
             end
         | Raise e s1 => Raise e s1
         | Stuck => Stuck
         end.
Proof.
  unfold search_radius, and_then.
  destruct (is_empty s || _); [done|]. destruct (d_lt r d_zero); [done|].
  by destruct (validate_vector_dimension q s) as [[] s1| |].
Qed.

Lemma within_radius_bound (r : double) (l : list (Z * double)) :
  Forall (λ p, d_le p.2 r = true) (within_radius r l).
Proof.
  induction l as [|p l IH]; simpl; [constructor|].
  destruct (d_le p.2 r) eqn:Hp; by constructor.
Qed.


(** C7: [search_radius] returns (or throws), and every pair of a returned
    list has a distance [<=] the threshold. *)
Theorem search_radius_within_threshold
    (s : HNSWIndex) (q : list double) (r : double) :
  search_radius q r s ≠ Stuck
  ∧ ∀ l s', search_radius q r s = Done l s' → Forall (λ p, d_le p.2 r = true) l.
Proof.
  rewrite search_radius_unfold.
  destruct (is_empty s || (m_entry_point s =? null_key)).
  { split; [done|]. intros l s' [= <- <-]. constructor. }
  destruct (d_lt r d_zero).
  { split; [done|]. intros l s' [= <- <-]. constructor. }
  destruct (validate_cases q s) as [[e ->]|(s1 & -> & _)]; [split; [done|intros l s' [=]]|].
  set (ef_large := Z.min _ _).
  destruct (search_knn_cases q (count s1) ef_large s1)
    as [->|[[e ->]|(s2 & curr & res & _ & _ & ->)]].
  - split; [done|]. intros l s' [= <- <-]. constructor.
  - split; [done|]. intros l s' [=].
  - split; [done|]. intros l s' [= <- <-]. apply within_radius_bound.
Qed.

(** C5, as the code has it: on a non-empty graph, for [k > 0] and a query of
    the index's dimension, [search_knn] returns the first [min(k, count())]
    results of a layer-0 search whose candidate-set size is the supplied
    [ef_search], or [max(config ef_search, k)] when none (0) is supplied,
    clamped to [count()]. A supplied [ef_search] is not raised to [k]: the
    search then yields at most [ef_search] results. *)
Theorem search_knn_candidate_set_size
    (s : HNSWIndex) (q : list double) (k ef : Z) :
  is_empty s = false →
  m_entry_point s ≠ null_key →
  k ≠ 0 →
  vector_dimension (m_config s) ≠ 0 →
  vsize q = vector_dimension (m_config s) →
  ∃ curr results,
    greedy_descend (Z.to_nat (m_entry_point_layer s)) (m_entry_point_layer s)
      (m_config s) (m_vectors s) q (m_entry_point s) = Some curr
    ∧ search_layer_with_distances (m_config s) (m_vectors s) q curr
        (Z.min (if ef =? 0 then Z.max (ef_search (m_config s)) k else ef) (count s)) 0
      = Some results
    ∧ search_knn q k ef s = Done (take (Z.to_nat (Z.min k (count s))) results) s
    ∧ (0 < ef → vsize results ≤ ef).
Proof.
  intros He Hep Hk HD Hq. rewrite search_knn_unfold, He. simpl.
  destruct (Z.eqb_spec (m_entry_point s) null_key); [done|].
  destruct (Z.eqb_spec k 0); [done|].
  rewrite validate_match by done.
  destruct (greedy_descend_total (Z.to_nat (m_entry_point_layer s)) (m_entry_point_layer s)
              (m_config s) (m_vectors s) q (m_entry_point s)) as [curr Hcurr].
  rewrite Hcurr.
  destruct (search_layer_with_distances_total (m_config s) (m_vectors s) q curr
              (effective_ef (m_config s) k ef (count s)) 0) as (r & Hr & Hsz).
  rewrite Hr. exists curr, r. split; [done|]. split; [exact Hr|]. split; [done|].
  intros Hef. unfold effective_ef in Hsz.
  assert (1 ≤ count s).
  { unfold count, is_empty in *. apply Nat.eqb_neq in He. lia. }
  destruct (Z.eqb_spec ef 0); lia.
Qed.

End Queries.

Section Persistence.
Context {F : Float64}.

Lemma extends_refl a : extends a a.
Proof. split; [lia|done]. Qed.

Lemma extends_trans a b c : extends a b → extends b c → extends a c.
Proof.
  intros [Hab Hab'] [Hbc Hbc']. split; [lia|].
  intros r Hr. rewrite Hbc' by lia. by apply Hab'.
Qed.

Lemma alloc_array_spec c a r a' :
  alloc_array c a = (r, a') →
  r = a_next a ∧ a_next a' = a_next a + 8 ∧ a_mem a' !! r = Some c ∧ extends a a'.
Proof.
  unfold alloc_array. intros [= <- <-]. simpl.
  split; [done|]. split; [done|]. split; [apply lookup_insert_eq|].
  split; simpl; [lia|]. intros r Hr. apply lookup_insert_ne. lia.
Qed.

Lemma extends_lookup a a' r c :
  extends a a' → r < a_next a → a_mem a !! r = Some c → a_mem a' !! r = Some c.
Proof. intros [_ H] Hr Hc. by rewrite H. Qed.

Lemma keeps_read a af lo r c :
  keeps a af lo → lo ≤ r < a_next a → a_mem a !! r = Some c → read_array r af = c.
Proof. intros Hk Hr Hc. unfold read_array. by rewrite Hk, Hc. Qed.

Lemma keeps_extends a a' af lo : extends a a' → keeps a' af lo → keeps a af lo.
Proof.
  intros [Hle He] Hk r Hr. rewrite Hk by lia. apply He. lia.
Qed.

Lemma keeps_weaken a af lo lo' : lo ≤ lo' → keeps a af lo → keeps a af lo'.
Proof. intros Hle Hk r Hr. apply Hk. lia. Qed.

Lemma to_int_small z : - 2 ^ 31 ≤ z < 2 ^ 31 → to_int z = z.
Proof. intros Hz. unfold to_int. rewrite Z.mod_small; lia. Qed.

Lemma to_size_t_to_int64 z : 0 ≤ z < 2 ^ 64 → to_size_t (to_int64 z) = z.
Proof.
  intros Hz. unfold to_size_t, to_int64.
  rewrite Zminus_mod_idemp_l.
  replace (z + 2 ^ 63 - 2 ^ 63) with z by lia. apply Z.mod_small. lia.
Qed.

Lemma save_connections_spec node lcs a refs a' :
  save_connections node lcs a = (refs, a') →
  0 < a_next a →
  extends a a'
  ∧ Forall2 (λ lc r, r ≠ 0 ∧ a_next a ≤ r < a_next a'
                     ∧ a_mem a' !! r = Some (adjacency node lc)) lcs refs.
Proof.
  revert a refs a'. induction lcs as [|lc lcs IH]; intros a refs a'; cbn [save_connections].
  { intros [= <- <-] _. split; [apply extends_refl|constructor]. }
  destruct (alloc_array _ a) as [r a1] eqn:Ha.
  destruct (save_connections node lcs a1) as [rs a2] eqn:Hs.
  intros [= <- <-] Hpos.
  apply alloc_array_spec in Ha as (-> & Hn & Hr & He).
  destruct (IH _ _ _ Hs) as [He2 Hall]; [lia|].
  split; [by eapply extends_trans|].
  constructor.
  - pose proof He2 as [Hle _]. repeat split; [lia..|].
    eapply extends_lookup; [exact He2|lia|done].
  - eapply Forall2_impl; [exact Hall|]. simpl. intros x y (? & ? & ?).
    destruct He as [? _]. repeat split; [done|lia|lia|done].
Qed.

Lemma conn_at_persisted n lc :
  0 ≤ lc ≤ layer n → layer n < vsize (connections n) →
  conn_at (persisted_node n) lc = conn_at n lc.
Proof.
  intros Hlc Hlen.
  assert (Hn : conn_at n lc = Some (adjacency n lc)).
  { unfold adjacency, conn_at, vsize in *.
    destruct (Z.ltb_spec lc (Z.of_nat (length (connections n)))) as [_|?]; [|lia].
    destruct (connections n !! Z.to_nat lc) eqn:Hl; [done|].
    apply lookup_ge_None in Hl. lia. }
  rewrite Hn. unfold conn_at, persisted_node, layers_upto, vsize. simpl.
  rewrite length_fmap, length_seqZ.
  destruct (Z.ltb_spec lc (Z.of_nat (Z.to_nat (layer n + 1)))) as [_|?]; [|lia].
  rewrite list_lookup_fmap, lookup_seqZ_lt by lia. simpl.
  by replace (0 + Z.of_nat (Z.to_nat lc)) with lc by lia.
Qed.

Context {B : Float64Bits F}.

Lemma vector_bits_round_trip (v : list double) : d_of_bits <$> (d_bits <$> v) = v.
Proof.
  induction v as [|x v IH]; [done|]. by rewrite !fmap_cons, d_of_bits_bits, IH.
Qed.

(** A node array written by [save_node] is read back by [load_node] as the
    persisted node, in every arena that still holds the arrays written. *)
Lemma save_node_spec node a r a' :
  save_node node a = (r, a') →
  0 < a_next a →
  extends a a' ∧ r ≠ 0 ∧ a_next a ≤ r < a_next a'
  ∧ ∀ af, keeps a' af (a_next a) → 0 ≤ layer node < 2 ^ 31 →
          ∀ m, load_node af m r = <[obj_key node := persisted_node node]> m.
Proof.
  unfold save_node. intros Hsave Hpos.
  destruct (alloc_array _ a) as [info_ref a1] eqn:H1.
  destruct (alloc_array _ a1) as [vector_ref a2] eqn:H2.
  destruct (save_connections _ _ a2) as [conn_refs a3] eqn:H3.
  apply alloc_array_spec in H1 as (-> & Hn1 & Hr1 & He1).
  apply alloc_array_spec in H2 as (-> & Hn2 & Hr2 & He2).
  apply save_connections_spec in H3 as [He3 Hconn]; [|lia].
  apply alloc_array_spec in Hsave as (-> & Hn4 & Hr4 & He4).
  pose proof He3 as [Hle3 _].
  assert (He24 : extends a2 a') by (by eapply extends_trans).
  assert (He14 : extends a1 a') by (by eapply extends_trans).
  split; [by eapply extends_trans|]. split; [lia|]. split; [lia|].
  intros af Hk Hlayer m.
  assert (Hnode : read_array (a_next a3) af = a_next a :: a_next a1 :: conn_refs).
  { eapply keeps_read; [exact Hk|lia|done]. }
  assert (Hinfo : read_array (a_next a) af = [obj_key node; layer node]).
  { eapply keeps_read; [exact Hk|lia|]. eapply extends_lookup; [exact He14|lia|done]. }
  assert (Hvec : read_array (a_next a1) af = d_bits <$> vector node).
  { eapply keeps_read; [exact Hk|lia|]. eapply extends_lookup; [exact He24|lia|done]. }
  assert (Hlen : length conn_refs = Z.to_nat (layer node + 1)).
  { apply Forall2_length in Hconn. unfold layers_upto in Hconn.
    by rewrite length_seqZ in Hconn. }
  unfold load_node. cbv zeta. rewrite Hnode.
  change (slot (a_next a :: a_next a1 :: conn_refs) 0) with (a_next a).
  change (slot (a_next a :: a_next a1 :: conn_refs) 1) with (a_next a1).
  rewrite Hinfo, Hvec.
  destruct (Z.eqb_spec (a_next a3) 0); [lia|].
  destruct (Z.ltb_spec (vsize (a_next a :: a_next a1 :: conn_refs)) 2) as [Hlt|_].
  { unfold vsize in Hlt. simpl in Hlt. lia. }
  destruct (Z.eqb_spec (a_next a) 0); [lia|].
  destruct (Z.eqb_spec (a_next a1) 0); [lia|].
  change (2 <=? vsize [obj_key node; layer node]) with true. cbv iota.
  change (slot [obj_key node; layer node] 0) with (obj_key node).
  change (slot [obj_key node; layer node] 1) with (layer node).
  rewrite to_int_small by lia.
  rewrite vector_bits_round_trip.
  f_equal. unfold persisted_node. f_equal.
  apply list_fmap_ext. intros i lc Hi.
  unfold layers_upto in Hi. apply lookup_seqZ in Hi as [-> Hi].
  destruct (Forall2_lookup_l _ _ _ i (0 + Z.of_nat i) Hconn) as (cr & Hcr & Hne & Hrange & Hmem).
  { unfold layers_upto. apply lookup_seqZ. lia. }
  unfold load_connection, vsize. simpl.
  destruct (Z.ltb_spec (2 + (0 + Z.of_nat i)) (Z.of_nat (S (S (length conn_refs))))) as [_|?];
    [|lia].
  unfold slot. replace (Z.to_nat (2 + (0 + Z.of_nat i))) with (S (S i)) by lia.
  simpl. rewrite Hcr. simpl.
  destruct (Z.eqb_spec cr 0); [done|].
  eapply keeps_read; [exact Hk|lia|].
  eapply extends_lookup; [exact He4|lia|done].
Qed.

Lemma save_nodes_spec nodes a refs a' :
  save_nodes nodes a = (refs, a') →
  0 < a_next a →
  extends a a'
  ∧ Forall2 (λ (p : Z * Node) r,
               ∀ af, keeps a' af (a_next a) → 0 ≤ layer p.2 < 2 ^ 31 →
                     ∀ m, load_node af m r = <[obj_key p.2 := persisted_node p.2]> m)
            nodes refs.
Proof.
  revert a refs a'. induction nodes as [|p nodes IH]; intros a refs a'; cbn [save_nodes].
  { intros [= <- <-] _. split; [apply extends_refl|constructor]. }
  destruct (save_node p.2 a) as [r a1] eqn:Hn.
  destruct (save_nodes nodes a1) as [rs a2] eqn:Hs.
  intros [= <- <-] Hpos.
  apply save_node_spec in Hn as (He1 & Hr & Hrange & Hload); [|done].
  pose proof He1 as [Hle1 _].
  destruct (IH _ _ _ Hs) as [He2 Hall]; [lia|].
  split; [by eapply extends_trans|].
  constructor.
  - intros af Hk Hl m. apply Hload; [|done]. by eapply keeps_extends.
  - eapply Forall2_impl; [exact Hall|]. simpl. intros x y H af Hk.
    apply H. eapply keeps_weaken; [|exact Hk]. lia.
Qed.

Lemma load_nodes_fold af (nodes : list (Z * Node)) refs m0 :
  Forall2 (λ (p : Z * Node) r,
             0 ≤ layer p.2 < 2 ^ 31 →
             ∀ m, load_node af m r = <[obj_key p.2 := persisted_node p.2]> m) nodes refs →
  Forall (λ p : Z * Node, 0 ≤ layer p.2 < 2 ^ 31) nodes →
  fold_left (load_node af) refs m0
  = fold_left (λ m (p : Z * Node), <[obj_key p.2 := persisted_node p.2]> m) nodes m0.
Proof.
  intros H. revert m0. induction H as [|p r nodes refs Hp _ IH]; intros m0 Hall; [done|].
  apply Forall_cons in Hall as [Hl Hall]. simpl. rewrite Hp by done. by apply IH.
Qed.

Lemma fold_insert_persisted (l : list (Z * Node)) (m0 : gmap Z Node) :
  NoDup (l.*1) →
  Forall (λ p : Z * Node, obj_key p.2 = p.1) l →
  fold_left (λ m (p : Z * Node), <[obj_key p.2 := persisted_node p.2]> m) l m0
  = (persisted_node <$> list_to_map l) ∪ m0.
Proof.
  revert m0. induction l as [|[k n] l IH]; intros m0 Hnd Hkeys.
  { simpl. by rewrite fmap_empty, (left_id_L ∅ (∪)). }
  rewrite fmap_cons in Hnd. apply NoDup_cons in Hnd as [Hk Hnd].
  apply Forall_cons in Hkeys as [Hkn Hkeys]. simpl in *.
  rewrite IH by done. rewrite Hkn.
  rewrite fmap_insert, <- insert_union_l. symmetry. apply insert_union_r.
  rewrite lookup_fmap. by rewrite (not_elem_of_list_to_map_1 _ _ Hk).
Qed.


End Persistence.

(** * The claims on concrete inputs *)

Section Symmetry.
Context {F : Float64}.

Lemma symmetricb_sound (mv : gmap Z Node) : symmetricb mv = true → symmetric mv.
Proof.
  unfold symmetricb. rewrite forallb_forall. intros H k n lc b Hk Hlc.
  specialize (H (k, n)).
  rewrite <- list_elem_of_In, elem_of_map_to_list in H. specialize (H Hk).
  rewrite forallb_forall in H. specialize (H lc).
  rewrite <- list_elem_of_In in H. unfold layers_upto in H.
  rewrite elem_of_seqZ in H. simpl in H.
  destruct (andb_prop _ _ (H ltac:(lia))) as [H1 H2].
  rewrite forallb_forall in H1, H2. split.
  - intros Hb. apply list_elem_of_In in Hb. specialize (H1 b Hb).
    destruct (mv !! b) as [nb|]; [|done].
    exists nb. split; [done|]. by apply bool_decide_eq_true in H1.
  - intros (nb & Hnb & Hin).
    specialize (H2 (b, nb)).
    rewrite <- list_elem_of_In, elem_of_map_to_list in H2. specialize (H2 Hnb).
    simpl in H2. rewrite bool_decide_eq_true_2 in H2 by done.
    by apply bool_decide_eq_true in H2.
Qed.

End Symmetry.

Module Checks.
Import Runs.

#[local] Existing Instance ZFloat.

Lemma ZFloat_order : Float64Order ZFloat.
Proof.
  constructor; simpl.
  - intros a b c H1%Z.leb_le H2%Z.leb_le. apply Z.leb_le. lia.
  - intros a b. destruct (Z.leb_spec a b); [by left|right]. apply Z.leb_le. lia.
  - intros a b. destruct (Z.ltb_spec a b), (Z.leb_spec b a); simpl; (done || lia).
Qed.

Lemma ZFloat_bits : Float64Bits ZFloat.
Proof. by constructor. Qed.

(** The three runs return, and give the states named in [Runs]. *)
Lemma runs_return :
  insert 1 [1; 0] 0 idx0 = Done tt one_row
  ∧ insert 2 [2; 1] 2 one_row = Done tt two_rows
  ∧ erase 1 two_rows = Done tt after_erase
  ∧ erase 1 one_row = Done tt emptied.
Proof.
  split; [vm_compute; reflexivity|]. split; [vm_compute; reflexivity|].
  split; vm_compute; reflexivity.
Qed.

(** C1: after [insert(1)] on layer 0, [insert(2)] on layer 2 and [erase(1)],
    the remaining node 2 still has key 1 in its adjacency at layers 1 and 2:
    [insert] linked the two nodes on every layer of node 2, and [erase]
    unlinks only the layers [0 .. node.layer] of the erased node. *)
Theorem erase_leaves_reference_above_top_layer :
  insert 2 [2; 1] 2 one_row = Done tt two_rows
  ∧ erase 1 two_rows = Done tt after_erase
  ∧ m_vectors after_erase !! 1 = None
  ∧ connections <$> m_vectors after_erase !! 2 = Some [[]; [1]; [1]]
  ∧ ¬ unreferenced 1 (m_vectors after_erase).
Proof.
  assert (H2 : connections <$> m_vectors after_erase !! 2 = Some [[]; [1]; [1]])
    by (vm_compute; reflexivity).
  split; [vm_compute; reflexivity|]. split; [vm_compute; reflexivity|].
  split; [vm_compute; reflexivity|]. split; [exact H2|].
  intros Hun. destruct (m_vectors after_erase !! 2) as [n|] eqn:Hn; [|done].
  injection H2 as H2. specialize (Hun 2 n Hn). rewrite H2 in Hun.
  apply Forall_cons in Hun as [_ Hun]. apply Forall_cons in Hun as [Hun _].
  apply Hun. left.
Qed.

(** C2: the graph reached by the two inserts is symmetric; after [erase(1)]
    it is not: node 2 names key 1 at layers 1 and 2, and there is no node 1
    any more. *)
Theorem erase_breaks_symmetry :
  symmetric (m_vectors two_rows)
  ∧ erase 1 two_rows = Done tt after_erase
  ∧ ¬ symmetric (m_vectors after_erase).
Proof.
  split; [apply symmetricb_sound; vm_compute; reflexivity|].
  split; [vm_compute; reflexivity|].
  intros Hsym.
  destruct (m_vectors after_erase !! 2) as [n|] eqn:Hn; [|by vm_compute in Hn].
  assert (Hl : layer n = 2 ∧ adjacency n 1 = [1]).
  { vm_compute in Hn. injection Hn as <-. by vm_compute. }
  destruct Hl as [Hl Hadj].
  destruct (Hsym 2 n 1 1 Hn ltac:(lia)) as [Hfwd _].
  destruct Hfwd as (nb & Hnb & _); [rewrite Hadj; left|].
  by vm_compute in Hnb.
Qed.

(** The loops of [erase] and [prune_connections] run over the vector that
    [disconnect_nodes] shrinks. With three neighbours on a layer, [erase]
    unlinks the first and the third and passes over the second. *)
Lemma erase_skips_a_neighbour :
  connections <$> m_vectors four_rows !! 1 = Some [[2; 3; 4]]
  ∧ (connections <$> m_vectors (state_of (erase 1 four_rows)) !! 2 = Some [[3; 4]]
     ∧ connections <$> m_vectors (state_of (erase 1 four_rows)) !! 3 = Some [[2; 1; 4]]
     ∧ connections <$> m_vectors (state_of (erase 1 four_rows)) !! 4 = Some [[2; 3]]).
Proof.
  split; [vm_compute; reflexivity|]. split; [vm_compute; reflexivity|].
  split; vm_compute; reflexivity.
Qed.

(** In the same way an [insert] that prunes can leave a one-sided edge
    between two nodes that both exist: with [M0 = 2], inserting row 4 prunes
    node 3 down to neighbour 4; node 2 is unlinked from it and node 1 is
    passed over, so node 1 keeps node 3 while node 3 no longer names
    node 1. *)
Lemma prune_skips_a_dropped_neighbour :
  symmetric (m_vectors narrow_three)
  ∧ insert 4 [3; 2] 0 narrow_three = Done tt narrow_four
  ∧ graph_of narrow_four
    = [(3, (0, [[4]])); (4, (0, [[3; 2]])); (2, (0, [[1; 4]])); (1, (0, [[2; 3]]))]
  ∧ symmetricb (m_vectors narrow_four) = false.
Proof.
  split; [apply symmetricb_sound; vm_compute; reflexivity|].
  split; [vm_compute; reflexivity|]. split; vm_compute; reflexivity.
Qed.

(** The claim C3 fails for [set], and for an empty vector: the index holds
    row 1 with a vector of dimension 2; [set] with a vector of length 3
    throws DimensionMismatch and leaves an index without row 1; [insert]
    with an empty vector (length 0, not 2) returns without an error. *)
Lemma set_mismatch_loses_node :
  vector_dimension (m_config one_row) = 2
  ∧ is_Some (m_vectors one_row !! 1)
  ∧ (∃ s', set 1 [1; 2; 3] 0 one_row = Raise (DimensionMismatch 2 3) s'
           ∧ m_vectors s' !! 1 = None)
  ∧ insert 5 [] 0 one_row = Done tt one_row.
Proof.
  split; [vm_compute; reflexivity|].
  split; [vm_compute; by eexists|].
  split; [|vm_compute; reflexivity].
  eexists. split; vm_compute; reflexivity.
Qed.

Lemma mismatch_insert_unchanged_set_erased_witness :
  insert 1 [1; 2; 3] 0 one_row = Raise (DimensionMismatch 2 3) one_row
  ∧ ∃ s', erase 1 one_row = Done tt s'
          ∧ m_vectors s' !! 1 = None
          ∧ set 1 [1; 2; 3] 0 one_row = Raise (DimensionMismatch 2 3) s'.
Proof.
  apply (mismatch_insert_unchanged_set_erased one_row 1 [1; 2; 3] 0);
    vm_compute; discriminate.
Defined.

(** The claim C4 fails on an empty graph: the index has dimension 2 and no
    node; a query of length 1 gets the empty list, not DimensionMismatch. *)
Lemma search_knn_empty_graph_skips_validation :
  vector_dimension (m_config emptied) = 2
  ∧ count emptied = 0
  ∧ search_knn [5] 3 0 emptied = Done [] emptied.
Proof.
  split; [vm_compute; reflexivity|]. split; vm_compute; reflexivity.
Qed.

Lemma search_knn_shortcuts_then_validation_witness :
  search_knn [5] 3 0 two_rows = Raise (DimensionMismatch 2 1) two_rows.
Proof.
  apply (search_knn_shortcuts_then_validation two_rows [5] 3 0);
    vm_compute; discriminate.
Defined.

(** The claim C5 fails for a supplied [ef_search] below [k]: with four
    nodes, [k = 3] and [ef_search = 1] the candidate set has size 1, not
    [min(max(1, 3), 4) = 3], and one result comes back. *)
Lemma supplied_ef_search_below_k :
  count four_rows = 4
  ∧ effective_ef (m_config four_rows) 3 1 (count four_rows) = 1
  ∧ Z.min (Z.max 1 3) (count four_rows) = 3
  ∧ search_knn [1; 1] 3 1 four_rows = Done [(4, -4)] four_rows.
Proof.
  split; [vm_compute; reflexivity|]. split; [vm_compute; reflexivity|].
  split; vm_compute; reflexivity.
Qed.

Lemma search_knn_candidate_set_size_witness :
  ∃ curr results,
    greedy_descend (Z.to_nat (m_entry_point_layer four_rows)) (m_entry_point_layer four_rows)
      (m_config four_rows) (m_vectors four_rows) [1; 1] (m_entry_point four_rows) = Some curr
    ∧ search_layer_with_distances (m_config four_rows) (m_vectors four_rows) [1; 1] curr
        (Z.min (if 1 =? 0 then Z.max (ef_search (m_config four_rows)) 3 else 1)
               (count four_rows)) 0
      = Some results
    ∧ search_knn [1; 1] 3 1 four_rows
      = Done (take (Z.to_nat (Z.min 3 (count four_rows))) results) four_rows
    ∧ (0 < 1 → vsize results ≤ 1).
Proof.
  apply (search_knn_candidate_set_size four_rows [1; 1] 3 1);
    vm_compute; (reflexivity || discriminate).
Defined.


Lemma search_radius_within_threshold_witness :
  search_radius [1; 1] (-3) four_rows ≠ Stuck
  ∧ ∀ l s', search_radius [1; 1] (-3) four_rows = Done l s' →
            Forall (λ p, d_le p.2 (-3) = true) l.
Proof. exact (search_radius_within_threshold four_rows [1; 1] (-3)). Defined.

Lemma two_rows_well_formed : well_formed two_rows.
Proof.
  constructor.
  - apply (bool_decide_unpack _). vm_compute. exact I.
  - by vm_compute.
  - by vm_compute.
  - by vm_compute.
  - by vm_compute.
Qed.


(** The claim C9 fails: with the default configuration the index works with
    [ef_search = 50], while [max(64, 8 * M)] is 128. *)
Lemma created_index_works_with_50 :
  M (m_config idx0) = 16
  ∧ ef_search (m_config idx0) = 50
  ∧ Z.max 64 (8 * M (m_config idx0)) = 128
  ∧ effective_ef (m_config idx0) 10 0 1000 = 50.
Proof. by vm_compute. Qed.

Lemma default_ef_search_witness :
  let cfg := m_config (HNSWIndex_create arena0 (HNSWIndexConfig_new Euclidean)) in
  M cfg = 16 ∧ ef_search cfg = 50
  ∧ (∀ k n, effective_ef cfg k 0 n = Z.min (Z.max 50 k) n)
  ∧ (∀ m' M' M0' efc D,
       ef_search (m_config (HNSWIndex_create arena0 (mkConfig m' M' M0' efc 0 D)))
       = Z.max 64 (to_size_t (M' * 8))).
Proof. exact (default_ef_search arena0 Euclidean). Defined.

(** Under the negative dot product the four rows are at distances -4, -3,
    -3 and -1 from the query (1, 1): three of them are within -2. *)
Lemma negative_distances_exist :
  search_knn [1; 1] 4 0 four_rows = Done [(4, -4); (2, -3); (3, -3); (1, -1)] four_rows.
Proof. vm_compute; reflexivity. Qed.

Lemma search_radius_negative_threshold_witness :
  search_radius [1; 1] (-2) four_rows = Done [] four_rows.
Proof.
  apply (search_radius_negative_threshold four_rows [1; 1] (-2)). reflexivity.
Defined.

End Checks.

(** * Further properties *)

Section GraphOperations.
Context {F : Float64}.

Lemma same_data_refl (mv : gmap Z Node) : same_data mv mv.
Proof. by intros k. Qed.

Lemma same_data_trans (m1 m2 m3 : gmap Z Node) :
  same_data m1 m2 → same_data m2 m3 → same_data m1 m3.
Proof. intros H1 H2 k. by rewrite H2, H1. Qed.

Lemma same_shape_refl (mv : gmap Z Node) : same_shape mv mv.
Proof. by intros k. Qed.

Lemma same_shape_trans (m1 m2 m3 : gmap Z Node) :
  same_shape m1 m2 → same_shape m2 m3 → same_shape m1 m3.
Proof. intros H1 H2 k. by rewrite H2, H1. Qed.

Lemma same_shape_data (m1 m2 : gmap Z Node) : same_shape m1 m2 → same_data m1 m2.
Proof.
  intros H k. specialize (H k).
  destruct (m2 !! k), (m1 !! k); simpl in *; congruence.
Qed.

Lemma same_data_dom (m1 m2 : gmap Z Node) : same_data m1 m2 → dom m2 = dom m1.
Proof.
  intros H. apply set_eq. intros k. rewrite !elem_of_dom. specialize (H k).
  destruct (m2 !! k), (m1 !! k); simpl in *; try done; split; intros [? ?]; done.
Qed.

Lemma same_data_size (m1 m2 : gmap Z Node) : same_data m1 m2 → size m2 = size m1.
Proof.
  intros H. rewrite <- (size_dom (D := gset Z) m2), <- (size_dom (D := gset Z) m1).
  by rewrite (same_data_dom _ _ H).
Qed.

Lemma alter_same_data (f : Node → Node) k (mv : gmap Z Node) :
  (∀ n, node_data (f n) = node_data n) → same_data mv (alter f k mv).
Proof.
  intros Hf k'. rewrite lookup_alter. case_decide as Hk; [subst k'|done].
  destruct (mv !! k); simpl; [by rewrite Hf|done].
Qed.

Lemma alter_same_shape (f : Node → Node) k (mv : gmap Z Node) :
  (∀ n, node_data (f n) = node_data n ∧ length (connections (f n)) = length (connections n)) →
  same_shape mv (alter f k mv).
Proof.
  intros Hf k'. rewrite lookup_alter. case_decide as Hk; [subst k'|done].
  destruct (mv !! k) as [n|]; simpl; [|done]. by destruct (Hf n) as [-> ->].
Qed.

Lemma remove_edge_guarded_shape lc k n :
  node_data (remove_edge_guarded lc k n) = node_data n
  ∧ length (connections (remove_edge_guarded lc k n)) = length (connections n).
Proof.
  unfold remove_edge_guarded. destruct (lc <? _); [|done].
  split; [done|]. simpl. apply length_alter.
Qed.

Lemma disconnect_nodes_shape node1 node2 lc (mv : gmap Z Node) :
  same_shape mv (disconnect_nodes node1 node2 lc mv).
Proof.
  unfold disconnect_nodes. destruct (mv !! node1); [|apply same_shape_refl].
  destruct (mv !! node2); [|apply same_shape_refl].
  eapply same_shape_trans; apply alter_same_shape; intros x; apply remove_edge_guarded_shape.
Qed.

Lemma connect_nodes_data node1 node2 lc (mv : gmap Z Node) :
  same_data mv (connect_nodes node1 node2 lc mv).
Proof.
  unfold connect_nodes. destruct (mv !! node1); [|apply same_data_refl].
  destruct (mv !! node2); [|apply same_data_refl].
  do 3 (eapply same_data_trans; [|by apply alter_same_data]).
  by apply alter_same_data.
Qed.

Lemma range_for_live_shape steps i cells owner lc body (mv : gmap Z Node) :
  (∀ x m, same_shape m (body x m)) →
  same_shape mv (range_for_live steps i cells owner lc body mv).
Proof.
  intros Hbody. revert i cells mv.
  induction steps as [|steps IH]; intros i cells mv; simpl; [apply same_shape_refl|].
  destruct (cells !! i); [|apply same_shape_refl].
  eapply same_shape_trans; [apply Hbody|apply IH].
Qed.

Lemma for_each_connection_shape owner lc body (mv : gmap Z Node) :
  (∀ x m, same_shape m (body x m)) →
  same_shape mv (for_each_connection owner lc body mv).
Proof. intros H. by apply range_for_live_shape. Qed.

(** The layer a node shows after one of its layers was rewritten. *)
Lemma adjacency_update_layer lc f n :
  0 ≤ lc < vsize (connections n) →
  adjacency (update_layer lc f n) lc = f (adjacency n lc).
Proof.
  intros Hlc. unfold adjacency, conn_at, update_layer, vsize in *. simpl.
  rewrite length_alter.
  destruct (Z.ltb_spec lc (Z.of_nat (length (connections n)))) as [_|?]; [|lia].
  rewrite list_lookup_alter_eq.
  destruct (connections n !! Z.to_nat lc) eqn:Hl; [done|].
  apply lookup_ge_None in Hl. lia.
Qed.

Lemma grow_connections_size lc n : lc < vsize (connections (grow_connections lc n)).
Proof.
  unfold grow_connections, vsize. simpl. rewrite length_app, length_replicate. lia.
Qed.

Lemma update_layer_size lc f n :
  vsize (connections (update_layer lc f n)) = vsize (connections n).
Proof. unfold update_layer, vsize. simpl. by rewrite length_alter. Qed.

Lemma elem_of_add_edge k x conn : x ∈ add_edge k conn ↔ x = k ∨ x ∈ conn.
Proof.
  unfold add_edge. case_bool_decide as Hk.
  - split; [by right|]. by intros [->|?].
  - rewrite elem_of_app, list_elem_of_singleton. tauto.
Qed.

Lemma NoDup_add_edge k conn : NoDup conn → NoDup (add_edge k conn).
Proof.
  intros Hnd. unfold add_edge. case_bool_decide as Hk; [done|].
  apply NoDup_app. split; [done|]. split; [|apply NoDup_singleton].
  intros x Hx ->%list_elem_of_singleton. done.
Qed.

Lemma lookup_alter_cond (f : Node → Node) i j (m : gmap Z Node) :
  alter f i m !! j = (if decide (i = j) then f else id) <$> m !! j.
Proof.
  rewrite lookup_alter. case_decide; subst; [done|]. by destruct (m !! j).
Qed.

Lemma grow_connections_adjacency lc n :
  adjacency (grow_connections lc n) lc = adjacency n lc.
Proof.
  unfold adjacency, conn_at, grow_connections, vsize. simpl.
  rewrite length_app, length_replicate.
  destruct (Z.ltb_spec lc (Z.of_nat (length (connections n)))) as [Hlt|Hge].
  - destruct (Z.ltb_spec lc (Z.of_nat (length (connections n)
              + Z.to_nat (lc + 1 - Z.of_nat (length (connections n)))))) as [_|?]; [|lia].
    destruct (decide (0 ≤ lc)) as [H0|H0].
    + rewrite lookup_app_l by lia. done.
    + replace (Z.to_nat lc) with 0%nat by lia.
      replace (Z.to_nat (lc + 1 - Z.of_nat (length (connections n)))) with 0%nat by lia.
      simpl. by rewrite app_nil_r.
  - destruct (Z.ltb_spec lc (Z.of_nat (length (connections n)
              + Z.to_nat (lc + 1 - Z.of_nat (length (connections n)))))) as [_|?]; [|done].
    rewrite lookup_app_r by lia.
    destruct (replicate _ _ !! _) as [y|] eqn:Hy; [|done].
    by apply lookup_replicate in Hy as [-> _].
Qed.

(** A node after the growth loop and the [push_back] of [k]. *)
Lemma linked_node lc k n :
  0 ≤ lc →
  lc < vsize (connections (update_layer lc (add_edge k) (grow_connections lc n)))
  ∧ ∀ x, x ∈ adjacency (update_layer lc (add_edge k) (grow_connections lc n)) lc
         ↔ x = k ∨ x ∈ adjacency n lc.
Proof.
  intros Hlc. pose proof (grow_connections_size lc n) as Hsz.
  rewrite update_layer_size. split; [done|]. intros x.
  rewrite adjacency_update_layer by lia.
  by rewrite elem_of_add_edge, grow_connections_adjacency.
Qed.

Lemma linked_node_NoDup lc k n :
  0 ≤ lc → NoDup (adjacency n lc) →
  NoDup (adjacency (update_layer lc (add_edge k) (grow_connections lc n)) lc).
Proof.
  intros Hlc Hnd. pose proof (grow_connections_size lc n).
  rewrite adjacency_update_layer by lia.
  apply NoDup_add_edge. by rewrite grow_connections_adjacency.
Qed.

(** X1: [connect_nodes] on two nodes of the index leaves each in the other's
    adjacency at the layer, adds no key twice, and touches neither the
    vectors nor the top layers; if one of the two keys is not a node, nothing
    changes. *)
Theorem connect_nodes_links_both (node1 node2 lc : Z) (mv : gmap Z Node) :
  0 ≤ lc →
  (mv !! node1 = None ∨ mv !! node2 = None → connect_nodes node1 node2 lc mv = mv)
  ∧ (∀ a b, mv !! node1 = Some a → mv !! node2 = Some b →
     ∃ n1 n2,
       connect_nodes node1 node2 lc mv !! node1 = Some n1
       ∧ connect_nodes node1 node2 lc mv !! node2 = Some n2
       ∧ node2 ∈ adjacency n1 lc
       ∧ node1 ∈ adjacency n2 lc
       ∧ same_data mv (connect_nodes node1 node2 lc mv)
       ∧ (NoDup (adjacency a lc) → NoDup (adjacency n1 lc))
       ∧ (NoDup (adjacency b lc) → NoDup (adjacency n2 lc))).
Proof.
  intros Hlc. split.
  { unfold connect_nodes. intros [-> | H2]; [done|]. rewrite H2. by destruct (mv !! node1). }
  intros a b Ha Hb.
  pose proof (connect_nodes_data node1 node2 lc mv) as Hdata.
  unfold connect_nodes in *. rewrite Ha, Hb in *.
  rewrite !lookup_alter_cond, Ha, Hb. simpl.
  destruct (decide (node2 = node1)) as [->|Hne].
  - repeat (case_decide; [|congruence]). assert (a = b) as <- by congruence.
    pose (g := update_layer lc (add_edge node1) (grow_connections lc a)).
    assert (Hg : lc < vsize (connections g)
                 ∧ ∀ x, x ∈ adjacency g lc ↔ x = node1 ∨ x ∈ adjacency a lc)
      by (by apply linked_node).
    destruct Hg as [Hgs Hg].
    set (g2 := update_layer lc (add_edge node1)
                 (update_layer lc (add_edge node1)
                    (grow_connections lc (grow_connections lc a)))).
    assert (Hg2 : ∀ x, x ∈ adjacency g2 lc ↔ x = node1 ∨ x ∈ adjacency a lc).
    { intros x. subst g2. pose proof (grow_connections_size lc (grow_connections lc a)).
      rewrite adjacency_update_layer by (rewrite update_layer_size; lia).
      rewrite adjacency_update_layer by lia.
      rewrite !elem_of_add_edge, !grow_connections_adjacency. tauto. }
    assert (Hnd2 : NoDup (adjacency a lc) → NoDup (adjacency g2 lc)).
    { intros Hnd. subst g2. pose proof (grow_connections_size lc (grow_connections lc a)).
      rewrite adjacency_update_layer by (rewrite update_layer_size; lia).
      rewrite adjacency_update_layer by lia.
      apply NoDup_add_edge, NoDup_add_edge. by rewrite !grow_connections_adjacency. }
    exists g2, g2. repeat (split; [done || (apply Hg2; by left)|]). done.
  - repeat case_decide; try congruence. simpl.
    eexists _, _. split; [done|]. split; [done|].
    split; [apply linked_node; [done|by left]|].
    split; [apply linked_node; [done|by left]|].
    split; [done|]. split; intros Hnd; by apply linked_node_NoDup.
Qed.

Lemma elem_of_remove_edge k x conn : x ∈ remove_edge k conn ↔ x ≠ k ∧ x ∈ conn.
Proof. unfold remove_edge. by rewrite list_elem_of_filter. Qed.

Lemma adjacency_remove_edge_guarded lc k n x :
  0 ≤ lc →
  x ∈ adjacency (remove_edge_guarded lc k n) lc ↔ x ≠ k ∧ x ∈ adjacency n lc.
Proof.
  intros Hlc. unfold remove_edge_guarded.
  destruct (Z.ltb_spec lc (vsize (connections n))) as [Hlt|Hge].
  - rewrite adjacency_update_layer by lia. apply elem_of_remove_edge.
  - unfold adjacency, conn_at.
    destruct (Z.ltb_spec lc (vsize (connections n))) as [?|_]; [lia|]. simpl.
    split; [by intros ?%elem_of_nil|by intros [_ ?%elem_of_nil]].
Qed.


End GraphOperations.

Section NeighbourSelection.
Context {F : Float64}.

(** The selection loop only appends, and only keys of the working set. *)
Lemma select_diverse_extends cfg mv Mx ws result :
  ∃ r, select_diverse cfg mv Mx ws result = result ++ r ∧ ∀ x, x ∈ r → x ∈ ws.*1.
Proof.
  revert result. induction ws as [|c ws IH]; intros result; simpl.
  { exists []. by rewrite app_nil_r. }
  destruct (Mx <=? vsize result).
  { exists []. split; [by rewrite app_nil_r|]. by intros x ?%elem_of_nil. }
  match goal with |- context [if ?b then result ++ [c.1] else result] => destruct b end.
  - destruct (IH (result ++ [c.1])) as (r & -> & Hr). exists (c.1 :: r).
    split; [by rewrite <- app_assoc|].
    intros x [->|Hx]%elem_of_cons; [left|right; by apply Hr].
  - destruct (IH result) as (r & -> & Hr). exists r. split; [done|].
    intros x Hx. right. by apply Hr.
Qed.

Lemma select_diverse_bound cfg mv Mx ws result :
  vsize result ≤ Mx → vsize (select_diverse cfg mv Mx ws result) ≤ Mx.
Proof.
  revert result. induction ws as [|c ws IH]; intros result Hle; simpl; [done|].
  destruct (Z.leb_spec Mx (vsize result)) as [?|Hlt]; [done|].
  match goal with |- context [if ?b then result ++ [c.1] else result] => destruct b end;
    apply IH; [|done].
  unfold vsize in *. rewrite length_app. simpl. lia.
Qed.

Lemma insert_by_distance_perm (x : Z * double) l : insert_by_distance x l ≡ₚ x :: l.
Proof.
  induction l as [|y l IH]; simpl; [done|].
  destruct (d_lt x.2 y.2); [done|]. rewrite IH. apply Permutation_swap.
Qed.

Lemma sort_by_distance_perm (l : list (Z * double)) : sort_by_distance l ≡ₚ l.
Proof.
  induction l as [|x l IH]; simpl; [done|].
  unfold sort_by_distance in *. simpl. by rewrite insert_by_distance_perm, IH.
Qed.

(** The keys [extend_candidates] adds are nodes of the index. *)
Lemma extend_working_set_keys cfg mv query cands lc x :
  x ∈ (extend_working_set cfg mv query cands lc).*1 → x ∈ cands.*1 ∨ is_Some (mv !! x).
Proof.
  unfold extend_working_set.
  generalize (list_to_set (C := gset Z) (cands.*1)). intros ws0.
  assert (Hgen : ∀ (l : list (Z * double)) (acc : list (Z * double) * gset Z),
            (∀ y, y ∈ acc.1.*1 → y ∈ cands.*1 ∨ is_Some (mv !! y)) →
            ∀ y, y ∈ (fold_left
                        (λ acc c,
                           match mv !! c.1 with
                           | Some node =>
                               match conn_at node lc with
                               | Some nbs => fold_left (extend_with cfg mv query) nbs acc
                               | None => acc
                               end
                           | None => acc
                           end) l acc).1.*1 → y ∈ cands.*1 ∨ is_Some (mv !! y)).
  { assert (Hinner : ∀ nbs (acc : list (Z * double) * gset Z),
              (∀ y, y ∈ acc.1.*1 → y ∈ cands.*1 ∨ is_Some (mv !! y)) →
              ∀ y, y ∈ (fold_left (extend_with cfg mv query) nbs acc).1.*1 →
                   y ∈ cands.*1 ∨ is_Some (mv !! y)).
    { induction nbs as [|nb nbs IH]; intros acc Hacc; simpl; [done|].
      apply IH. unfold extend_with. case_bool_decide; [done|].
      destruct (mv !! nb) as [nn|] eqn:Hnb; [|done]. simpl.
      intros y. rewrite fmap_app, elem_of_app. intros [Hy|Hy]; [by apply Hacc|].
      apply list_elem_of_singleton in Hy as ->. right. simpl. rewrite Hnb. by eexists. }
    induction l as [|c l IH]; intros acc Hacc; simpl; [done|].
    apply IH. destruct (mv !! c.1) as [node|]; [|done].
    destruct (conn_at node lc) as [nbs|]; [|done]. by apply Hinner. }
  apply Hgen. simpl. intros y Hy. by left.
Qed.

(** X3: the heuristic selection returns at most [M] keys. Without
    [extend_candidates] they are keys of the candidates, and the first
    candidate is always among them (when [M >= 1]); with it they are
    candidates or nodes of the index. *)
Theorem select_neighbors_heuristic_bounded
    (cfg : HNSWIndexConfig) (mv : gmap Z Node) (query : list double)
    (cands : list (Z * double)) (Mx lc : Z) (extend_candidates : bool) :
  0 ≤ Mx →
  vsize (select_neighbors_heuristic cfg mv query cands Mx lc extend_candidates) ≤ Mx
  ∧ (∀ x, x ∈ select_neighbors_heuristic cfg mv query cands Mx lc extend_candidates →
          x ∈ cands.*1 ∨ (extend_candidates = true ∧ is_Some (mv !! x)))
  ∧ (∀ c rest, 1 ≤ Mx → cands = c :: rest →
               ∃ r, select_neighbors_heuristic cfg mv query cands Mx lc false = c.1 :: r).
Proof.
  intros HM. unfold select_neighbors_heuristic. split; [|split].
  - apply select_diverse_bound. unfold vsize. simpl. lia.
  - intros x Hx.
    destruct (select_diverse_extends cfg mv Mx
                (if extend_candidates
                 then sort_by_distance (extend_working_set cfg mv query cands lc)
                 else cands) []) as (r & Hr & Hin).
    rewrite Hr in Hx. simpl in Hx. apply Hin in Hx.
    destruct extend_candidates; [|by left].
    rewrite sort_by_distance_perm in Hx.
    apply extend_working_set_keys in Hx as [?|?]; [by left|by right].
  - intros c rest H1 ->. simpl.
    destruct (Z.leb_spec Mx (vsize (@nil Z))) as [Hle|_].
    { unfold vsize in Hle. simpl in Hle. lia. }
    replace (match mv !! c.1 with Some _ => true | None => true end) with true
      by (by destruct (mv !! c.1)).
    destruct (select_diverse_extends cfg mv Mx rest [c.1]) as (r & -> & _). by exists r.
Qed.


End NeighbourSelection.

Section SearchResults.
Context {F : Float64}.

Lemma drain_perm w : drain (length w) w ≡ₚ (λ c, (cand_key c, distance c)) <$> w.
Proof.
  remember (length w) as n eqn:Hn. revert w Hn.
  induction n as [|n IH]; intros w Hn; simpl.
  { by destruct w. }
  destruct (pq_extract cand_less w) as [[t r]|] eqn:He.
  - pose proof (pq_extract_perm _ _ _ _ He) as Hp.
    pose proof (pq_extract_length _ _ _ _ He) as Hl.
    rewrite Hp. simpl. f_equiv. apply IH. lia.
  - apply pq_extract_none in He. by subst.
Qed.

Lemma pq_pop_perm comp q : q ≠ [] → ∃ t, q ≡ₚ t :: pq_pop comp q.
Proof.
  intros Hq. unfold pq_pop. destruct (pq_extract comp q) as [[t r]|] eqn:He.
  - exists t. by eapply pq_extract_perm.
  - by apply pq_extract_none in He.
Qed.

Lemma frontier_sound_visited cfg mv query cs w vis k :
  frontier_sound cfg mv query (mkFrontier cs w vis) →
  frontier_sound cfg mv query (mkFrontier cs w ({[k]} ∪ vis)).
Proof.
  intros (Hc & Hw & Hnd & Hvis). split; [done|]. split; [done|]. split; [done|].
  simpl in *. intros c Hin. apply elem_of_union. right. by apply Hvis.
Qed.

Lemma visit_neighbors_sound cfg mv query ef nbs fr fr' :
  frontier_sound cfg mv query fr →
  visit_neighbors cfg mv query ef nbs fr = Some fr' →
  frontier_sound cfg mv query fr'.
Proof.
  revert fr. induction nbs as [|nb nbs IH]; intros fr Hfr; simpl.
  { by intros [= <-]. }
  case_bool_decide as Hnb; [by apply IH|].
  destruct fr as [cs w vis]. simpl in *.
  destruct (mv !! nb) as [nn|] eqn:Hnn; [|by apply IH, frontier_sound_visited].
  destruct (pq_top cand_less w) as [wt|]; [|done].
  destruct (d_lt _ _ || _); [|by apply IH, frontier_sound_visited].
  apply IH. destruct Hfr as (Hc & Hw & Hnd & Hvis). simpl in *.
  set (c := mkCand nb _).
  assert (Hcn : candidate_of_node cfg mv query c) by (by exists nn).
  assert (Hfresh : nb ∉ cand_key <$> w).
  { intros (x & -> & Hx)%list_elem_of_fmap. by apply Hnb, Hvis. }
  assert (Hall : Forall (candidate_of_node cfg mv query) (c :: w)) by (by constructor).
  assert (Hnd' : NoDup (cand_key <$> c :: w)) by (simpl; by constructor).
  assert (Hvis' : ∀ x, x ∈ c :: w → cand_key x ∈ ({[nb]} ∪ vis : gset Z)).
  { intros x [->|Hx]%elem_of_cons; apply elem_of_union;
      [left; by apply elem_of_singleton|right; by apply Hvis]. }
  split; [by constructor|]. simpl. unfold pq_push.
  destruct (ef <? vsize (c :: w)); [|done].
  destruct (pq_pop_perm cand_less (c :: w)) as [t Ht]; [done|].
  rewrite Ht in Hall, Hnd'. simpl in Hnd'.
  apply Forall_cons in Hall as [_ Hall]. apply NoDup_cons in Hnd' as [_ Hnd'].
  split; [done|]. split; [done|].
  intros x Hx. apply Hvis'. rewrite Ht. by right.
Qed.

Lemma search_loop_sound fuel cfg mv query ef lc fr w :
  frontier_sound cfg mv query fr →
  search_loop fuel cfg mv query ef lc fr = Some w →
  Forall (candidate_of_node cfg mv query) w ∧ NoDup (cand_key <$> w).
Proof.
  revert fr. induction fuel as [|fuel IH]; intros fr Hfr; simpl; [done|].
  destruct (pq_extract cand_greater (candidates fr)) as [[current rest]|] eqn:Hc.
  2: { intros [= <-]. by destruct Hfr as (_ & ? & ? & _). }
  destruct (pq_top cand_less (w_set fr)) as [wt|]; [|done].
  destruct (d_lt _ _ && _).
  { intros [= <-]. by destruct Hfr as (_ & ? & ? & _). }
  assert (Hrest : frontier_sound cfg mv query (mkFrontier rest (w_set fr) (visited fr))).
  { destruct Hfr as (Hcs & ? & ? & ?). split; [|done].
    apply pq_extract_perm in Hc. rewrite Hc in Hcs. by apply Forall_cons in Hcs as [_ ?]. }
  destruct (mv !! cand_key current) as [node|]; [|by apply IH].
  destruct (conn_at node lc) as [nbs|]; [|by apply IH].
  destruct (visit_neighbors _ _ _ _ _ _) as [fr''|] eqn:Hv; [|done].
  apply IH. by eapply visit_neighbors_sound.
Qed.

(** The results of a layer search are pairs of distinct nodes with their
    distances to the query. *)
Lemma search_layer_with_distances_sound cfg mv query entry ef lc r :
  search_layer_with_distances cfg mv query entry ef lc = Some r →
  Forall (result_of_node cfg mv query) r ∧ NoDup r.*1.
Proof.
  unfold search_layer_with_distances.
  destruct (_ || _); [intros [= <-]; split; constructor|].
  destruct (mv !! entry) as [en|] eqn:Hen; [|intros [= <-]; split; constructor].
  destruct (search_loop _ _ _ _ _ _ _) as [w|] eqn:Hw; simpl; [|done].
  intros [= <-].
  apply search_loop_sound in Hw as [Hf Hnd].
  2: { assert (Hc : candidate_of_node cfg mv query
                      (mkCand entry (compute_distance cfg query (vector en))))
         by (by exists en).
       split; [by repeat constructor|]. split; [by repeat constructor|]. simpl.
       split; [apply NoDup_singleton|].
       intros c ->%list_elem_of_singleton. simpl. by apply elem_of_singleton. }
  pose proof (drain_perm w) as Hp.
  split.
  - apply Forall_forall. intros p Hin. rewrite elem_of_reverse, Hp in Hin.
    apply list_elem_of_fmap in Hin as (c & -> & Hc).
    rewrite Forall_forall in Hf. by apply Hf.
  - rewrite fmap_reverse, reverse_Permutation, Hp, <- list_fmap_compose.
    exact Hnd.
Qed.

(** From an entry point that is a node, a layer search returns at least one
    result. *)
Lemma search_layer_with_distances_nonempty cfg mv query entry ef lc :
  entry ≠ null_key → is_Some (mv !! entry) →
  ∃ p rest, search_layer_with_distances cfg mv query entry ef lc = Some (p :: rest).
Proof.
  intros Hne [en Hen].
  destruct (search_layer_with_distances_total cfg mv query entry ef lc) as (r & Hr & _).
  rewrite Hr. destruct r as [|p rest]; [|by eauto].
  exfalso. revert Hr. unfold search_layer_with_distances.
  destruct (Z.eqb_spec entry null_key) as [|_]; [done|].
  destruct (Nat.eqb_spec (size mv) 0) as [H0|_].
  { apply map_size_empty_iff in H0. subst. by rewrite lookup_empty in Hen. }
  cbn [orb]. rewrite Hen.
  set (c := mkCand entry _).
  destruct (search_loop_total (S (size mv)) cfg mv query ef lc
              (mkFrontier [c] [c] {[entry]})) as (w & -> & Hw & _).
  - done.
  - unfold vsize. simpl. lia.
  - unfold work_left. simpl.
    pose proof (unseen_node_visited mv ∅ entry) as Hs.
    rewrite (right_id_L ∅ (∪)) in Hs.
    rewrite <- (size_dom (D := gset Z) mv).
    rewrite difference_empty_L in Hs.
    rewrite <- Hs; [lia|apply not_elem_of_empty|by eexists].
  - simpl. intros [= Hnil]. apply (f_equal length) in Hnil.
    rewrite length_reverse, drain_length in Hnil. by destruct w.
Qed.

Lemma greedy_descend_node n lc cfg mv query curr :
  mv !! null_key = None → is_Some (mv !! curr) →
  ∃ k, greedy_descend n lc cfg mv query curr = Some k ∧ is_Some (mv !! k).
Proof.
  intros Hnull. revert lc curr. induction n as [|n IH]; intros lc curr Hcurr; simpl.
  { by exists curr. }
  unfold search_layer.
  destruct (search_layer_with_distances_total cfg mv query curr 1 lc) as (r & Hr & _).
  rewrite Hr. simpl. apply IH.
  destruct r as [|p rest]; [done|]. simpl.
  apply search_layer_with_distances_sound in Hr as [Hr _].
  apply Forall_cons in Hr as [(pn & Hpn & _) _]. by exists pn.
Qed.

Lemma validate_done (v : list double) s s1 :
  validate_vector_dimension v s = Done tt s1 →
  (vector_dimension (m_config s) ≠ 0 ∧ vsize v = vector_dimension (m_config s) ∧ s1 = s)
  ∨ (vector_dimension (m_config s) = 0
     ∧ s1 = with_config (set_vector_dimension (vsize v) (m_config s)) s).
Proof.
  unfold validate_vector_dimension.
  destruct (Z.eqb_spec (vector_dimension (m_config s)) 0) as [H0|H0].
  { intros [= <-]. by right. }
  destruct (Z.eqb_spec (vsize v) (vector_dimension (m_config s))); [|done].
  intros [= <-]. by left.
Qed.

Lemma validate_done_distance (v : list double) s s1 :
  validate_vector_dimension v s = Done tt s1 →
  m_vectors s1 = m_vectors s
  ∧ m_entry_point s1 = m_entry_point s
  ∧ m_entry_point_layer s1 = m_entry_point_layer s
  ∧ ∀ a b, compute_distance (m_config s1) a b = compute_distance (m_config s) a b.
Proof. intros [(_ & _ & ->)|(_ & ->)]%validate_done; done. Qed.

(** How [search_knn] ends when it does not take a shortcut and the query
    is accepted. *)
Lemma search_knn_outcome (q : list double) k ef s :
  search_knn q k ef s = Done [] s
  ∨ (∃ e, search_knn q k ef s = Raise e s)
  ∨ (∃ s1 curr r,
        validate_vector_dimension q s = Done tt s1
        ∧ is_empty s = false ∧ m_entry_point s ≠ null_key ∧ k ≠ 0
        ∧ greedy_descend (Z.to_nat (m_entry_point_layer s1)) (m_entry_point_layer s1)
            (m_config s1) (m_vectors s1) q (m_entry_point s1) = Some curr
        ∧ search_layer_with_distances (m_config s1) (m_vectors s1) q curr
            (effective_ef (m_config s1) k ef (count s1)) 0 = Some r
        ∧ search_knn q k ef s = Done (take (Z.to_nat (effective_k k (count s1))) r) s1).
Proof.
  rewrite search_knn_unfold.
  destruct (is_empty s) eqn:He; [by left|]. simpl.
  destruct (Z.eqb_spec (m_entry_point s) null_key) as [|Hep]; [by left|].
  destruct (Z.eqb_spec k 0) as [|Hk]; [by left|].
  destruct (validate_cases q s) as [[e ->]|(s1 & Hv & _)]; [right; left; by eexists|].
  right; right. rewrite Hv.
  destruct (greedy_descend_total (Z.to_nat (m_entry_point_layer s1)) (m_entry_point_layer s1)
              (m_config s1) (m_vectors s1) q (m_entry_point s1)) as [curr Hcurr].
  destruct (search_layer_with_distances_total (m_config s1) (m_vectors s1) q curr
              (effective_ef (m_config s1) k ef (count s1)) 0) as (r & Hr & _).
  rewrite Hcurr, Hr. by exists s1, curr, r.
Qed.

Lemma result_of_node_config cfg cfg' mv (q : list double) p :
  (∀ a b, compute_distance cfg' a b = compute_distance cfg a b) →
  result_of_node cfg' mv q p → result_of_node cfg mv q p.
Proof. intros Hd (n & Hn & Hp). exists n. split; [done|]. by rewrite Hp, Hd. Qed.

Lemma search_knn_sound (q : list double) k ef s l s' :
  search_knn q k ef s = Done l s' →
  Forall (result_of_node (m_config s) (m_vectors s) q) l ∧ NoDup l.*1
  ∧ vsize l ≤ Z.min (Z.max k 0) (count s).
Proof.
  assert (0 ≤ count s) by (unfold count; lia).
  destruct (search_knn_outcome q k ef s)
    as [->|[[e ->]|(s1 & curr & r & Hv & _ & _ & _ & _ & Hr & ->)]].
  - intros [= <- <-]. split; [constructor|]. split; [constructor|].
    unfold vsize. simpl. lia.
  - done.
  - intros [= <- <-].
    apply validate_done_distance in Hv as (Hmv & _ & _ & Hd).
    apply search_layer_with_distances_sound in Hr as [Hf Hnd].
    rewrite Hmv in Hf.
    split; [|split].
    + apply Forall_take. eapply Forall_impl; [exact Hf|].
      intros p. by apply result_of_node_config.
    + rewrite fmap_take. eapply sublist_NoDup; [done|apply sublist_take].
    + unfold vsize, effective_k, count. rewrite length_take, Hmv. unfold count in *. lia.
Qed.

(** X5: [search_layer] returns, and gives at most [max(1, ef)] distinct
    keys, each the key of a node of the index; it gives none when the entry
    point is no key or no node, and at least one otherwise. *)
Theorem search_layer_distinct_nodes
    (cfg : HNSWIndexConfig) (mv : gmap Z Node) (query : list double) (entry ef lc : Z) :
  ∃ keys, search_layer cfg mv query entry ef lc = Some keys
          ∧ NoDup keys
          ∧ (∀ k, k ∈ keys → is_Some (mv !! k))
          ∧ vsize keys ≤ Z.max 1 ef
          ∧ (keys = [] ↔ entry = null_key ∨ mv !! entry = None).
Proof.
  unfold search_layer.
  destruct (search_layer_with_distances_total cfg mv query entry ef lc) as (r & Hr & Hsz).
  rewrite Hr. simpl. exists (r.*1). split; [done|].
  destruct (search_layer_with_distances_sound _ _ _ _ _ _ _ Hr) as [Hf Hnd].
  split; [done|]. split; [|split].
  - intros k (p & -> & Hp)%list_elem_of_fmap.
    rewrite Forall_forall in Hf. destruct (Hf p Hp) as (n & Hn & _). by exists n.
  - unfold vsize in *. by rewrite length_fmap.
  - split.
    + intros Hnil. destruct (decide (entry = null_key)) as [|Hne]; [by left|right].
      destruct (mv !! entry) as [en|] eqn:Hen; [|done].
      destruct (search_layer_with_distances_nonempty cfg mv query entry ef lc Hne)
        as (p & rest & Hp); [by eexists|].
      rewrite Hp in Hr. injection Hr as <-. done.
    + revert Hr. unfold search_layer_with_distances.
      intros Hr [->|Hen].
      * simpl in Hr. by injection Hr as <-.
      * rewrite Hen in Hr. destruct (_ || _); by injection Hr as <-.
Qed.

(** X6: the pairs [search_knn] returns name distinct nodes of the index,
    each with the distance from the query to the vector of its node, and
    they are at most [min(k, count())]. *)
Theorem search_knn_results_are_nodes
    (s : HNSWIndex) (q : list double) (k ef : Z) (l : list (Z * double)) (s' : HNSWIndex) :
  0 ≤ k →
  search_knn q k ef s = Done l s' →
  (∀ p, p ∈ l → ∃ n, m_vectors s !! p.1 = Some n
                     ∧ p.2 = compute_distance (m_config s) q (vector n))
  ∧ NoDup l.*1
  ∧ vsize l ≤ Z.min k (count s).
Proof.
  intros Hk Hs. apply search_knn_sound in Hs as (Hf & Hnd & Hsz).
  split; [|split; [done|lia]].
  intros p Hp. rewrite Forall_forall in Hf. by apply Hf.
Qed.

End SearchResults.

Section SearchQuality.
Context {F : Float64} {L : Float64Order F}.

Lemma d_le_refl (a : double) : d_le a a = true.
Proof. by destruct (d_le_total a a). Qed.

Lemma pq_pop_reaches d0 c w :
  w ≠ [] → reaches d0 (c :: w) → reaches d0 (pq_pop cand_less (c :: w)).
Proof.
  intros Hw Hex. unfold pq_pop, reaches in *.
  destruct (pq_extract cand_less (c :: w)) as [[t r]|] eqn:He.
  2: { by apply pq_extract_none in He. }
  pose proof (pq_extract_less_max _ _ _ He) as Hmax.
  pose proof (pq_extract_perm _ _ _ _ He) as Hp.
  pose proof (pq_extract_length _ _ _ _ He) as Hl.
  rewrite Hp in Hex. apply Exists_cons in Hex as [Ht|Hr]; [|done].
  destruct r as [|x r]; [by destruct w|].
  apply Exists_cons_hd. apply Forall_cons in Hmax as [Hx _]. by eapply d_le_trans.
Qed.

Lemma visit_neighbors_reaches d0 cfg mv query ef nbs fr fr' :
  reaches d0 (w_set fr) →
  visit_neighbors cfg mv query ef nbs fr = Some fr' →
  reaches d0 (w_set fr').
Proof.
  revert fr. induction nbs as [|nb nbs IH]; intros fr Hfr; simpl.
  { by intros [= <-]. }
  case_bool_decide as Hnb; [by apply IH|].
  destruct (mv !! nb) as [nn|] eqn:Hnn; [|by apply IH].
  destruct (pq_top cand_less (w_set fr)) as [wt|] eqn:Htop; [|done].
  destruct (d_lt _ _ || _); [|by apply IH].
  apply IH. simpl. unfold pq_push.
  destruct (ef <? vsize (_ :: w_set fr)); [|by apply Exists_cons_tl].
  apply pq_pop_reaches; [|by apply Exists_cons_tl].
  intros Hnil. by rewrite Hnil in Htop.
Qed.

Lemma search_loop_reaches d0 fuel cfg mv query ef lc fr w :
  reaches d0 (w_set fr) →
  search_loop fuel cfg mv query ef lc fr = Some w →
  reaches d0 w.
Proof.
  revert fr. induction fuel as [|fuel IH]; intros fr Hfr; simpl; [done|].
  destruct (pq_extract cand_greater (candidates fr)) as [[current rest]|] eqn:Hc.
  2: { by intros [= <-]. }
  destruct (pq_top cand_less (w_set fr)) as [wt|]; [|done].
  destruct (d_lt _ _ && _); [by intros [= <-]|].
  destruct (mv !! cand_key current) as [node|]; [|by apply IH].
  destruct (conn_at node lc) as [nbs|]; [|by apply IH].
  destruct (visit_neighbors _ _ _ _ _ _) as [fr''|] eqn:Hv; [|done].
  apply IH. eapply visit_neighbors_reaches; [|exact Hv]. done.
Qed.

Lemma ascending_head (p : Z * double) l x :
  ascending (p :: l) → x ∈ p :: l → d_le p.2 x.2 = true.
Proof.
  revert p. induction l as [|q l IH]; intros p Hasc Hx.
  { apply list_elem_of_singleton in Hx as ->. apply d_le_refl. }
  apply elem_of_cons in Hx as [->|Hx]; [apply d_le_refl|].
  apply Sorted_inv in Hasc as [Hasc Hhd]. apply HdRel_inv in Hhd.
  eapply d_le_trans; [exact Hhd|]. by apply IH.
Qed.

(** The first result of a layer search is at least as close to the query
    as the entry point. *)
Lemma search_layer_with_distances_closer cfg mv query entry ef lc en :
  entry ≠ null_key → mv !! entry = Some en →
  ∃ p rest, search_layer_with_distances cfg mv query entry ef lc = Some (p :: rest)
            ∧ d_le p.2 (compute_distance cfg query (vector en)) = true.
Proof.
  intros Hne Hen.
  destruct (search_layer_with_distances_nonempty cfg mv query entry ef lc Hne)
    as (p & rest & Hr); [by eexists|].
  exists p, rest. split; [done|].
  pose proof (search_layer_with_distances_ascending _ _ _ _ _ _ _ Hr) as Hasc.
  revert Hr. unfold search_layer_with_distances.
  destruct (Z.eqb_spec entry null_key) as [|_]; [done|].
  destruct (Nat.eqb (size mv) 0); [done|]. cbn [orb]. rewrite Hen.
  destruct (search_loop _ _ _ _ _ _ _) as [w|] eqn:Hw; [|done]. simpl. intros [= Hr].
  apply search_loop_reaches with (d0 := compute_distance cfg query (vector en)) in Hw.
  2: { simpl. apply Exists_cons_hd. simpl. apply d_le_refl. }
  apply Exists_exists in Hw as (c & Hc & Hle).
  assert (Hin : (cand_key c, distance c) ∈ p :: rest).
  { rewrite <- Hr, elem_of_reverse, drain_perm. apply list_elem_of_fmap. by exists c. }
  eapply d_le_trans; [|exact Hle]. apply (ascending_head p rest _ Hasc Hin).
Qed.

Lemma greedy_descend_closer n lc cfg mv query curr cn :
  mv !! null_key = None → mv !! curr = Some cn →
  ∃ k kn, greedy_descend n lc cfg mv query curr = Some k ∧ mv !! k = Some kn
          ∧ d_le (compute_distance cfg query (vector kn))
                 (compute_distance cfg query (vector cn)) = true.
Proof.
  intros Hnull. revert lc curr cn. induction n as [|n IH]; intros lc curr cn Hcurr; simpl.
  { exists curr, cn. split; [done|]. split; [done|]. apply d_le_refl. }
  assert (Hne : curr ≠ null_key) by (intros ->; by rewrite Hnull in Hcurr).
  unfold search_layer.
  destruct (search_layer_with_distances_closer cfg mv query curr 1 lc cn Hne Hcurr)
    as (p & rest & Hr & Hle).
  rewrite Hr. simpl.
  apply search_layer_with_distances_sound in Hr as [Hf _].
  apply Forall_cons in Hf as [(pn & Hpn & Hpd) _].
  destruct (IH (lc - 1) p.1 pn Hpn) as (k & kn & Hk & Hkn & Hle').
  exists k, kn. split; [done|]. split; [done|].
  eapply d_le_trans; [exact Hle'|]. by rewrite <- Hpd.
Qed.

Lemma validate_accepts (v : list double) s :
  vector_dimension (m_config s) = 0 ∨ vsize v = vector_dimension (m_config s) →
  ∃ s1, validate_vector_dimension v s = Done tt s1.
Proof.
  intros HD. unfold validate_vector_dimension.
  destruct (Z.eqb_spec (vector_dimension (m_config s)) 0); [by eexists|].
  destruct HD as [|HD]; [done|].
  destruct (Z.eqb_spec (vsize v) (vector_dimension (m_config s))); [|done]. by eexists.
Qed.

Lemma search_knn_ascending (q : list double) k ef s l s' :
  search_knn q k ef s = Done l s' → ascending l.
Proof.
  destruct (search_knn_cases q k ef s) as [->|[[e ->]|(s1 & curr & r & _ & Hr & ->)]].
  - intros [= <- <-]. constructor.
  - done.
  - intros [= <- <-]. apply ascending_take.
    by eapply search_layer_with_distances_ascending.
Qed.

Lemma filter_none {A} (P : A → Prop) `{!∀ x, Decision (P x)} (l : list A) :
  Forall (λ x, ¬ P x) l → filter P l = [].
Proof.
  induction 1 as [|x l Hx _ IH]; [done|]. by rewrite filter_cons_False.
Qed.

(** On an ascending list, stopping at the first pair beyond the threshold
    loses no pair within it. *)
Lemma within_radius_filter (r : double) (l : list (Z * double)) :
  ascending l → within_radius r l = filter (λ p, d_le p.2 r = true) l.
Proof.
  induction l as [|p l IH]; intros Hasc; simpl; [done|].
  destruct (d_le p.2 r) eqn:Hp.
  - rewrite filter_cons_True by done. f_equal. apply IH.
    by apply Sorted_inv in Hasc as [? _].
  - rewrite filter_cons_False by (by rewrite Hp).
    symmetry. apply filter_none, Forall_forall. intros x Hx Hle.
    assert (d_le p.2 x.2 = true) by (apply (ascending_head p l x Hasc); by right).
    rewrite (d_le_trans p.2 x.2 r) in Hp; done.
Qed.

Lemma validate_again (v : list double) s s1 :
  validate_vector_dimension v s = Done tt s1 →
  validate_vector_dimension v s1 = Done tt s1.
Proof.
  intros [(HD & Hv & ->)|(H0 & ->)]%validate_done; [by apply validate_match|].
  unfold validate_vector_dimension. simpl.
  destruct (Z.eqb_spec (vsize v) 0); [done|].
  by rewrite Z.eqb_refl.
Qed.

Lemma search_knn_after_validate (q : list double) k ef s s1 :
  is_empty s = false → m_entry_point s ≠ null_key → k ≠ 0 →
  validate_vector_dimension q s = Done tt s1 →
  search_knn q k ef s1 = search_knn q k ef s.
Proof.
  intros He Hep Hk Hv.
  rewrite !search_knn_unfold, (validate_again _ _ _ Hv), Hv.
  destruct (validate_done _ _ _ Hv) as [(_ & _ & ->)|(H0 & ->)]; [done|].
  change (is_empty (with_config _ s)) with (is_empty s).
  change (m_entry_point (with_config _ s)) with (m_entry_point s).
  rewrite He. cbn [orb].
  destruct (Z.eqb_spec (m_entry_point s) null_key); [done|].
  by destruct (Z.eqb_spec k 0).
Qed.

(** X7: on an index whose entry point is a node, a query of the index's
    dimension with [k >= 1] gets at least one result, and the first result
    is at least as close to the query as the entry point is. *)
Theorem search_knn_at_least_as_close
    (s : HNSWIndex) (q : list double) (k ef : Z) (en : Node) :
  m_vectors s !! null_key = None →
  m_vectors s !! m_entry_point s = Some en →
  1 ≤ k →
  vector_dimension (m_config s) = 0 ∨ vsize q = vector_dimension (m_config s) →
  ∃ p l s', search_knn q k ef s = Done (p :: l) s'
            ∧ d_le p.2 (compute_distance (m_config s) q (vector en)) = true.
Proof.
  intros Hnull Hen Hk HD.
  assert (Hep : m_entry_point s ≠ null_key) by (intros Heq; by rewrite Heq, Hnull in Hen).
  assert (Hsz : size (m_vectors s) ≠ 0%nat).
  { intros H0%map_size_empty_iff. by rewrite H0, lookup_empty in Hen. }
  rewrite search_knn_unfold. unfold is_empty.
  destruct (Nat.eqb_spec (size (m_vectors s)) 0); [done|]. cbn [orb].
  destruct (Z.eqb_spec (m_entry_point s) null_key); [done|].
  destruct (Z.eqb_spec k 0); [lia|].
  destruct (validate_accepts q s HD) as [s1 Hv]. rewrite Hv.
  apply validate_done_distance in Hv as (Hmv & Hep1 & Hl1 & Hd).
  destruct (greedy_descend_closer (Z.to_nat (m_entry_point_layer s1))
              (m_entry_point_layer s1) (m_config s1) (m_vectors s1) q
              (m_entry_point s1) en) as (c & cn & Hc & Hcn & Hle1);
    [by rewrite Hmv|by rewrite Hmv, Hep1|].
  rewrite Hc.
  assert (Hcne : c ≠ null_key) by (intros ->; by rewrite Hmv, Hnull in Hcn).
  destruct (search_layer_with_distances_closer (m_config s1) (m_vectors s1) q c
              (effective_ef (m_config s1) k ef (count s1)) 0 cn Hcne Hcn)
    as (p & rest & Hr & Hle2).
  rewrite Hr.
  destruct (Z.to_nat (effective_k k (count s1))) as [|m] eqn:Hm.
  { unfold effective_k, count in Hm. rewrite Hmv in Hm. lia. }
  simpl. exists p, (take m rest), s1. split; [done|].
  rewrite <- Hd. by eapply d_le_trans.
Qed.


End SearchQuality.

Section SearchEffects.
Context {F : Float64}.

Lemma search_knn_final (q : list double) k ef s s' :
  final_state (search_knn q k ef s) = Some s' →
  s' = s
  ∨ (vector_dimension (m_config s) = 0 ∧ is_empty s = false
     ∧ s' = with_config (set_vector_dimension (vsize q) (m_config s)) s).
Proof.
  destruct (search_knn_outcome q k ef s)
    as [->|[[e ->]|(s1 & curr & r & Hv & He & _ & _ & _ & _ & ->)]]; simpl.
  - intros [= <-]. by left.
  - intros [= <-]. by left.
  - intros [= <-]. apply validate_done in Hv as [(_ & _ & ->)|(H0 & ->)]; [by left|by right].
Qed.

Lemma search_radius_final (q : list double) r s s' :
  final_state (search_radius q r s) = Some s' →
  s' = s
  ∨ (vector_dimension (m_config s) = 0 ∧ is_empty s = false
     ∧ s' = with_config (set_vector_dimension (vsize q) (m_config s)) s).
Proof.
  rewrite search_radius_unfold.
  destruct (is_empty s) eqn:He; [intros [= <-]; by left|]. cbn [orb].
  destruct (m_entry_point s =? null_key); [intros [= <-]; by left|].
  destruct (d_lt r d_zero); [intros [= <-]; by left|].
  destruct (validate_vector_dimension q s) as [[] s1|e s1|] eqn:Hv; [| |done].
  2: { unfold validate_vector_dimension in Hv.
       destruct (vector_dimension (m_config s) =? 0); [done|].
       destruct (negb _); [|done]. injection Hv as _ <-. intros [= <-]. by left. }
  set (efl := Z.min _ _).
  intros Hfin.
  assert (Hfin' : final_state (search_knn q (count s1) efl s1) = Some s').
  { by destruct (search_knn q (count s1) efl s1). }
  apply search_knn_final in Hfin' as [->|(H0 & _ & ->)].
  - apply validate_done in Hv as [(_ & _ & ->)|(H0 & ->)]; [by left|by right].
  - apply validate_done in Hv as [(HD & _ & ->)|(H0' & ->)]; [done|].
    right. split; [done|]. split; reflexivity.
Qed.

(** X9: a search never changes the graph, the entry point or the storage.
    It leaves the index exactly as it was, except that on a populated index
    whose dimension is still 0 the validation sets the dimension to the
    length of the query; that cannot happen when every indexed vector has
    the index's dimension. *)
Theorem searches_read_only
    (s : HNSWIndex) (q : list double) (k ef : Z) (r : double) (s' : HNSWIndex) :
  final_state (search_knn q k ef s) = Some s'
  ∨ final_state (search_radius q r s) = Some s'
  ∨ final_state (find_first q s) = Some s'
  ∨ final_state (find_all q s) = Some s' →
  (s' = s
   ∨ (vector_dimension (m_config s) = 0 ∧ is_empty s = false
      ∧ s' = with_config (set_vector_dimension (vsize q) (m_config s)) s))
  ∧ (uniform_dimension s → s' = s).
Proof.
  intros Hfin.
  assert (Hs' : s' = s
    ∨ (vector_dimension (m_config s) = 0 ∧ is_empty s = false
       ∧ s' = with_config (set_vector_dimension (vsize q) (m_config s)) s)).
  { destruct Hfin as [H|[H|[H|H]]].
    - by eapply search_knn_final.
    - by eapply search_radius_final.
    - apply (search_knn_final q 1 0). revert H. unfold find_first, and_then.
      by destruct (search_knn q 1 0 s).
    - apply (search_knn_final q 10 0). revert H. unfold find_all, and_then.
      by destruct (search_knn q 10 0 s). }
  split; [done|]. intros Hun.
  destruct Hs' as [|(H0 & He & _)]; [done|]. exfalso.
  unfold is_empty in He. apply Nat.eqb_neq in He.
  apply map_size_non_empty_iff, map_choose in He as (i & n & Hn).
  by destruct (Hun i n Hn).
Qed.

(** X10: [find_all] returns at most [min(10, count())] distinct keys, each
    the key of a node of the index. *)
Theorem find_all_distinct_nodes
    (s : HNSWIndex) (q : list double) (l : list Z) (s' : HNSWIndex) :
  find_all q s = Done l s' →
  NoDup l ∧ (∀ k, k ∈ l → is_Some (m_vectors s !! k)) ∧ vsize l ≤ Z.min 10 (count s).
Proof.
  unfold find_all, and_then.
  destruct (search_knn q 10 0 s) as [res s1|e s1|] eqn:Hs; [|done..].
  intros [= <- <-]. apply search_knn_sound in Hs as (Hf & Hnd & Hsz).
  split; [done|]. split.
  - intros k (p & -> & Hp)%list_elem_of_fmap.
    rewrite Forall_forall in Hf. destruct (Hf p Hp) as (n & Hn & _). by exists n.
  - unfold vsize in *. rewrite length_fmap. lia.
Qed.

(** X11: [find_first] gives the null key on an empty index, and otherwise
    the null key or the key of a node; for a value that is no link to a row
    (the query is then the empty vector) it throws DimensionMismatch on a
    populated index. *)
Theorem find_first_node_or_null (s : HNSWIndex) (q : list double) :
  (is_empty s = true → find_first q s = Done null_key s)
  ∧ (∀ k s', find_first q s = Done k s' → k = null_key ∨ is_Some (m_vectors s !! k))
  ∧ (is_empty s = false → m_entry_point s ≠ null_key →
     vector_dimension (m_config s) ≠ 0 →
     find_first [] s = Raise (DimensionMismatch (vector_dimension (m_config s)) 0) s).
Proof.
  split; [|split].
  - intros He. unfold find_first, and_then. by rewrite search_knn_unfold, He.
  - intros k s'. unfold find_first, and_then.
    destruct (search_knn q 1 0 s) as [res s1|e s1|] eqn:Hs; [|done..].
    intros [= <- <-]. destruct res as [|p res]; [by left|right].
    apply search_knn_sound in Hs as (Hf & _).
    apply Forall_cons in Hf as [(n & Hn & _) _]. by exists n.
  - intros He Hep HD. unfold find_first, and_then.
    rewrite search_knn_unfold, He. cbn [orb].
    destruct (Z.eqb_spec (m_entry_point s) null_key); [done|].
    rewrite validate_mismatch; [done|done|]. unfold vsize. simpl. lia.
Qed.

End SearchEffects.

Section InsertErase.
Context {F : Float64}.

Lemma prune_connections_shape cfg node_key lc (mv : gmap Z Node) :
  same_shape mv (prune_connections cfg node_key lc mv).
Proof.
  unfold prune_connections.
  destruct (mv !! node_key) as [node|] eqn:Hnode; [|apply same_shape_refl].
  destruct (conn_at node lc) as [conns|]; [|apply same_shape_refl].
  destruct (_ <=? _); [apply same_shape_refl|].
  eapply same_shape_trans;
    [|apply alter_same_shape; intros x; split; [done|]; simpl; apply length_alter].
  apply for_each_connection_shape. intros x m.
  case_bool_decide; [apply same_shape_refl|]. apply disconnect_nodes_shape.
Qed.

Lemma fold_left_same_data {A} (f : gmap Z Node → A → gmap Z Node) l mv :
  (∀ m x, same_data m (f m x)) → same_data mv (fold_left f l mv).
Proof.
  intros Hf. revert mv. induction l as [|x l IH]; intros mv; simpl.
  - apply same_data_refl.
  - eapply same_data_trans; [apply Hf|apply IH].
Qed.

Lemma fold_left_same_shape {A} (f : gmap Z Node → A → gmap Z Node) l mv :
  (∀ m x, same_shape m (f m x)) → same_shape mv (fold_left f l mv).
Proof.
  intros Hf. revert mv. induction l as [|x l IH]; intros mv; simpl.
  - apply same_shape_refl.
  - eapply same_shape_trans; [apply Hf|apply IH].
Qed.

(** The linking loop of [insert] returns and changes links only. *)
Lemma link_layers_data n lc cfg key vec curr mv :
  ∃ mv', link_layers n lc cfg key vec curr mv = Some mv' ∧ same_data mv mv'.
Proof.
  revert lc curr mv. induction n as [|n IH]; intros lc curr mv; simpl.
  { exists mv. split; [done|apply same_data_refl]. }
  destruct (search_layer_with_distances_total cfg mv vec curr (ef_construction cfg) lc)
    as (cands & -> & _). simpl.
  set (neighbors := if lc =? 0 then _ else _).
  set (mv1 := fold_left (λ mv neighbor, connect_nodes key neighbor lc mv) neighbors mv).
  set (mv2 := fold_left (λ mv neighbor, prune_connections cfg neighbor lc mv) neighbors mv1).
  destruct (IH (lc - 1) (match cands with c :: _ => c.1 | [] => curr end) mv2)
    as (mv' & Hmv' & Hd).
  exists mv'. split; [done|].
  eapply same_data_trans; [|exact Hd].
  eapply same_data_trans.
  - apply (fold_left_same_data (λ mv neighbor, connect_nodes key neighbor lc mv)).
    intros m x. apply connect_nodes_data.
  - apply (fold_left_same_data (λ mv neighbor, prune_connections cfg neighbor lc mv)).
    intros m x. apply same_shape_data, prune_connections_shape.
Qed.

Lemma set_vector_dimension_same c : set_vector_dimension (vector_dimension c) c = c.
Proof. by destruct c. Qed.

(** What a successful [insert] leaves. *)
Lemma insert_outcome key (vec : list double) node_layer s :
  vsize vec ≠ 0 →
  vector_dimension (m_config s) = 0 ∨ vsize vec = vector_dimension (m_config s) →
  ∃ s', insert key vec node_layer s = Done tt s'
        ∧ same_data (<[key := mkNode key vec node_layer
                                 (replicate (Z.to_nat (node_layer + 1)) [])]> (m_vectors s))
                    (m_vectors s')
        ∧ m_config s' = set_vector_dimension (vsize vec) (m_config s)
        ∧ m_entry_point s'
          = (if is_empty s || (m_entry_point_layer s <? node_layer)
             then key else m_entry_point s)
        ∧ m_entry_point_layer s'
          = (if is_empty s || (m_entry_point_layer s <? node_layer)
             then node_layer else m_entry_point_layer s).
Proof.
  intros Hv HD. unfold insert. destruct (Z.eqb_spec (vsize vec) 0); [done|].
  unfold and_then at 1.
  destruct (validate_accepts vec s HD) as [s1 Hs1]. rewrite Hs1.
  assert (Hcfg : m_config s1 = set_vector_dimension (vsize vec) (m_config s)).
  { destruct (validate_done _ _ _ Hs1) as [(_ & -> & ->)|(_ & ->)]; [|done].
    by rewrite set_vector_dimension_same. }
  apply validate_done_distance in Hs1 as (Hmv & Hep & Hl & _).
  assert (He1 : is_empty s1 = is_empty s) by (unfold is_empty; by rewrite Hmv).
  rewrite He1. destruct (is_empty s) eqn:He.
  - eexists. split; [reflexivity|].
    rewrite save_to_storage_vectors, save_to_storage_config.
    destruct (save_to_storage_entry
                (with_entry key node_layer
                   (with_vectors (<[key := mkNode key vec node_layer
                        (replicate (Z.to_nat (node_layer + 1)) [])]> (m_vectors s1)) s1)))
      as [-> ->].
    simpl. rewrite Hmv. split; [apply same_data_refl|done].
  - unfold and_then, pure_step.
    destruct (greedy_descend_total (Z.to_nat (m_entry_point_layer s1 - node_layer))
                (m_entry_point_layer s1) (m_config s1) (m_vectors s1) vec (m_entry_point s1))
      as [curr ->].
    destruct (link_layers_data (Z.to_nat (node_layer + 1)) node_layer (m_config s1) key vec
                curr (<[key := mkNode key vec node_layer
                          (replicate (Z.to_nat (node_layer + 1)) [])]> (m_vectors s1)))
      as (mv' & -> & Hd).
    eexists. split; [reflexivity|].
    rewrite save_to_storage_vectors, save_to_storage_config.
    match goal with |- context [save_to_storage ?t] =>
      destruct (save_to_storage_entry t) as [-> ->] end.
    simpl. rewrite Hl, <- Hmv.
    destruct (m_entry_point_layer s <? node_layer); simpl; by rewrite ?Hep, ?Hl.
Qed.


Lemma erase_layer_shape key (mv : gmap Z Node) lc : same_shape mv (erase_layer key mv lc).
Proof.
  unfold erase_layer. destruct (mv !! key) as [node|]; [|apply same_shape_refl].
  destruct (lc <? vsize (connections node)); [|apply same_shape_refl].
  apply for_each_connection_shape. intros x m. apply disconnect_nodes_shape.
Qed.

(** What [erase] of an indexed key leaves. *)
Lemma erase_outcome key s node :
  m_vectors s !! key = Some node →
  ∃ s' mv', erase key s = Done tt s'
            ∧ same_shape (m_vectors s) mv'
            ∧ m_vectors s' = delete key mv'
            ∧ m_config s' = m_config s
            ∧ (m_entry_point s', m_entry_point_layer s')
              = (if key =? m_entry_point s then rescan_entry_point (delete key mv')
                 else (m_entry_point s, m_entry_point_layer s)).
Proof.
  intros Hk. unfold erase. rewrite Hk.
  set (mv' := fold_left (erase_layer key) (layers_upto (layer node)) (m_vectors s)).
  eexists _, mv'. split; [reflexivity|].
  split.
  { apply (fold_left_same_shape (erase_layer key)). intros m x. apply erase_layer_shape. }
  rewrite save_to_storage_vectors, save_to_storage_config.
  match goal with |- context [save_to_storage ?t] =>
    destruct (save_to_storage_entry t) as [-> ->] end.
  simpl. destruct (key =? m_entry_point s); [|done].
  by destruct (rescan_entry_point (delete key mv')) as [k l].
Qed.

Lemma erase_absent key s : m_vectors s !! key = None → erase key s = Done tt s.
Proof. intros Hk. unfold erase. by rewrite Hk. Qed.

(** X13: [erase] returns; it removes the node of the key and no other, keeps
    key, vector, layer and the number of link layers of every other node,
    keeps the configuration, keeps the entry point unless that was the
    erased key, and does nothing for a key that is not indexed: a second
    [erase] of the same key changes nothing. *)
Theorem erase_removes_node (s : HNSWIndex) (key : Z) :
  ∃ s', erase key s = Done tt s'
        ∧ m_vectors s' !! key = None
        ∧ (∀ k, k ≠ key →
             (λ n, (node_data n, length (connections n))) <$> m_vectors s' !! k
             = (λ n, (node_data n, length (connections n))) <$> m_vectors s !! k)
        ∧ dom (m_vectors s') = dom (m_vectors s) ∖ {[key]}
        ∧ m_config s' = m_config s
        ∧ (m_vectors s !! key = None → s' = s)
        ∧ (is_Some (m_vectors s !! key) → count s' = count s - 1)
        ∧ (key ≠ m_entry_point s →
           m_entry_point s' = m_entry_point s
           ∧ m_entry_point_layer s' = m_entry_point_layer s)
        ∧ erase key s' = Done tt s'.
Proof.
  destruct (m_vectors s !! key) as [node|] eqn:Hk.
  - destruct (erase_outcome key s node Hk) as (s' & mv' & Hs' & Hsh & Hmv & Hcfg & Hep).
    exists s'. split; [done|].
    assert (Hnone : m_vectors s' !! key = None) by (rewrite Hmv; apply lookup_delete_eq).
    split; [done|]. split; [|split; [|split; [|split; [|split; [|split]]]]].
    + intros k Hne. by rewrite Hmv, lookup_delete_ne, (Hsh k).
    + rewrite Hmv, dom_delete_L.
      by rewrite (same_data_dom _ _ (same_shape_data _ _ Hsh)).
    + done.
    + done.
    + intros _. unfold count. rewrite Hmv.
      assert (Hin : is_Some (mv' !! key)).
      { specialize (Hsh key). rewrite Hk in Hsh. by destruct (mv' !! key). }
      destruct Hin as [n' Hn'].
      pose proof (map_size_delete_Some key mv' (mk_is_Some _ _ Hn')) as Hsz.
      rewrite <- (same_data_size _ _ (same_shape_data _ _ Hsh)).
      assert (size mv' ≠ 0%nat).
      { intros H0%map_size_empty_iff. by rewrite H0, lookup_empty in Hn'. }
      lia.
    + intros Hne. destruct (Z.eqb_spec key (m_entry_point s)); [done|].
      by injection Hep as -> ->.
    + by apply erase_absent.
  - exists s. rewrite erase_absent by done.
    split; [done|]. split; [done|]. split; [done|]. split.
    { apply not_elem_of_dom in Hk. apply set_eq. intros x.
      rewrite elem_of_difference, elem_of_singleton. split; [|by intros [? _]].
      intros Hx. split; [done|]. by intros ->. }
    split; [done|]. split; [done|]. split; [by intros [? ?]|]. done.
Qed.

(** The three ways [insert] ends: nothing to index, a rejected vector, or
    a stored node. *)
Lemma insert_final key (vec : list double) node_layer s s' :
  final_state (insert key vec node_layer s) = Some s' →
  s' = s
  ∨ (vsize vec ≠ 0
     ∧ (vector_dimension (m_config s) = 0 ∨ vsize vec = vector_dimension (m_config s))
     ∧ insert key vec node_layer s = Done tt s').
Proof.
  destruct (Z.eqb_spec (vsize vec) 0) as [H0|H0].
  { unfold insert. rewrite (proj2 (Z.eqb_eq _ _) H0). intros [= <-]. by left. }
  assert (Hok : vector_dimension (m_config s) = 0
                ∨ vsize vec = vector_dimension (m_config s) →
                final_state (insert key vec node_layer s) = Some s' →
                s' = s
                ∨ (vsize vec ≠ 0
                   ∧ (vector_dimension (m_config s) = 0
                      ∨ vsize vec = vector_dimension (m_config s))
                   ∧ insert key vec node_layer s = Done tt s')).
  { intros HD Hf. right.
    destruct (insert_outcome key vec node_layer s H0 HD) as (s'' & Hs'' & _).
    rewrite Hs'' in Hf. injection Hf as <-. auto. }
  destruct (Z.eqb_spec (vector_dimension (m_config s)) 0) as [HD|HD]; [by apply Hok; left|].
  destruct (Z.eqb_spec (vsize vec) (vector_dimension (m_config s))) as [Heq|Hne];
    [by apply Hok; right|].
  rewrite insert_mismatch by done. intros [= <-]. by left.
Qed.

Lemma set_final key (vec : list double) node_layer s s' :
  final_state (set key vec node_layer s) = Some s' →
  ∃ s1, erase key s = Done tt s1 ∧ final_state (insert key vec node_layer s1) = Some s'.
Proof.
  unfold set, and_then.
  destruct (erase_returns key s) as (s1 & -> & _). intros Hf. by exists s1.
Qed.

Lemma clear_outcome s :
  ∃ s', clear s = Done tt s' ∧ m_vectors s' = ∅ ∧ m_config s' = m_config s
        ∧ m_entry_point s' = null_key ∧ m_entry_point_layer s' = -1.
Proof.
  unfold clear. eexists. split; [reflexivity|].
  rewrite save_to_storage_vectors, save_to_storage_config.
  match goal with |- context [save_to_storage ?t] =>
    destruct (save_to_storage_entry t) as [-> ->] end.
  done.
Qed.

Lemma same_data_lookup (m1 m2 : gmap Z Node) k n :
  same_data m1 m2 → m2 !! k = Some n →
  ∃ n0, m1 !! k = Some n0 ∧ node_data n0 = node_data n.
Proof.
  intros Hd Hn. specialize (Hd k). rewrite Hn in Hd.
  destruct (m1 !! k) as [n0|]; [|done]. exists n0. split; [done|].
  simpl in Hd. congruence.
Qed.

Lemma same_data_lookup_rev (m1 m2 : gmap Z Node) k n0 :
  same_data m1 m2 → m1 !! k = Some n0 →
  ∃ n, m2 !! k = Some n ∧ node_data n = node_data n0.
Proof.
  intros Hd Hn. specialize (Hd k). rewrite Hn in Hd.
  destruct (m2 !! k) as [n|]; [|done]. exists n. split; [done|].
  simpl in Hd. congruence.
Qed.

Lemma insert_keeps_dimension key (vec : list double) node_layer s s' :
  uniform_dimension s →
  final_state (insert key vec node_layer s) = Some s' →
  uniform_dimension s'
  ∧ (vector_dimension (m_config s) ≠ 0 → m_config s' = m_config s).
Proof.
  intros Hun [->|(Hv & HD & Hs')]%insert_final; [done|].
  destruct (insert_outcome key vec node_layer s Hv HD) as (s'' & Hs'' & Hd & Hcfg & _).
  rewrite Hs' in Hs''. injection Hs'' as <-.
  split.
  - intros k n Hn. rewrite Hcfg. simpl. split; [done|].
    destruct (same_data_lookup _ _ _ _ Hd Hn) as (n0 & Hn0 & Hnd).
    destruct (decide (k = key)) as [->|Hne].
    + rewrite lookup_insert_eq in Hn0. injection Hn0 as <-.
      unfold node_data in Hnd. simpl in Hnd. congruence.
    + rewrite lookup_insert_ne in Hn0 by done.
      destruct (Hun k n0 Hn0) as [HD0 Hsz]. destruct HD as [|HD]; [done|].
      unfold node_data in Hnd. congruence.
  - intros HD0. destruct HD as [|HD]; [done|].
    by rewrite Hcfg, HD, set_vector_dimension_same.
Qed.

Lemma erase_keeps_dimension key s s' :
  uniform_dimension s → erase key s = Done tt s' →
  uniform_dimension s' ∧ m_config s' = m_config s.
Proof.
  intros Hun Hs'. destruct (m_vectors s !! key) as [node|] eqn:Hk.
  - destruct (erase_outcome key s node Hk) as (s'' & mv' & Hs'' & Hsh & Hmv & Hcfg & _).
    rewrite Hs' in Hs''. injection Hs'' as <-. split; [|done].
    intros k n Hn. rewrite Hcfg. rewrite Hmv in Hn.
    apply lookup_delete_Some in Hn as [_ Hn].
    destruct (same_data_lookup _ _ _ _ (same_shape_data _ _ Hsh) Hn) as (n0 & Hn0 & Hnd).
    destruct (Hun k n0 Hn0) as [HD0 Hsz]. split; [done|].
    unfold node_data in Hnd. congruence.
  - rewrite erase_absent in Hs' by done. by injection Hs' as <-.
Qed.



Lemma keys_and_layers_same_data (m1 m2 : gmap Z Node) :
  same_data m1 m2 → keys_and_layers m1 → keys_and_layers m2.
Proof.
  intros Hd Hk k n Hn.
  destruct (same_data_lookup _ _ _ _ Hd Hn) as (n0 & Hn0 & Hnd).
  destruct (Hk k n0 Hn0) as [Hkey Hl]. unfold node_data in Hnd.
  split; congruence.
Qed.

Lemma rescan_fold (l : list (Z * Node)) (acc : Z * Z) :
  let r := fold_left
             (λ (acc : Z * Z) (p : Z * Node),
                if acc.2 <? layer p.2 then (obj_key p.2, layer p.2) else acc) l acc in
  acc.2 ≤ r.2
  ∧ (∀ p, p ∈ l → layer p.2 ≤ r.2)
  ∧ (r = acc ∨ ∃ p, p ∈ l ∧ r = (obj_key p.2, layer p.2)).
Proof.
  revert acc. induction l as [|q l IH]; intros acc; simpl.
  { split; [lia|]. split; [by intros p ?%elem_of_nil|by left]. }
  destruct (IH (if acc.2 <? layer q.2 then (obj_key q.2, layer q.2) else acc))
    as (Hle & Hall & Hr).
  destruct (Z.ltb_spec acc.2 (layer q.2)) as [Hlt|Hge]; simpl in *.
  - split; [lia|]. split.
    + intros p [->|Hp]%elem_of_cons; [done|by apply Hall].
    + right. destruct Hr as [->|(p & Hp & ->)]; [exists q|exists p];
        (split; [|done]); [left|by right].
  - split; [done|]. split.
    + intros p [->|Hp]%elem_of_cons; [lia|by apply Hall].
    + destruct Hr as [?|(p & Hp & ->)]; [by left|right]. exists p. split; [by right|done].
Qed.

(** The scan of [erase] finds a node of the greatest layer, when there is
    one. *)
Lemma rescan_entry_point_spec (mv : gmap Z Node) :
  keys_and_layers mv →
  (mv = ∅ ∧ rescan_entry_point mv = (null_key, -1))
  ∨ (∃ n, mv !! (rescan_entry_point mv).1 = Some n
          ∧ layer n = (rescan_entry_point mv).2
          ∧ ∀ k' n', mv !! k' = Some n' → layer n' ≤ (rescan_entry_point mv).2).
Proof.
  intros Hk. unfold rescan_entry_point.
  destruct (rescan_fold (map_to_list mv) (null_key, -1)) as (Hle & Hall & Hr).
  simpl in *.
  destruct (map_to_list mv) as [|q l] eqn:Hl.
  { left. by apply map_to_list_empty_iff in Hl. }
  right. rewrite <- Hl in *.
  assert (Hq : q ∈ map_to_list mv) by (rewrite Hl; left).
  destruct Hr as [Hr|(p & Hp & Hr)].
  { exfalso. destruct q as [qk qn]. pose proof (Hall _ Hq) as Hql.
    apply elem_of_map_to_list in Hq. destruct (Hk _ _ Hq) as [_ H0].
    rewrite Hr in Hql. simpl in *. lia. }
  rewrite Hr. simpl. destruct p as [pk pn].
  apply elem_of_map_to_list in Hp. destruct (Hk _ _ Hp) as [Hkey _]. simpl in *.
  exists pn. split; [by rewrite Hkey|]. split; [done|].
  intros k' n' Hn'. rewrite Hr in Hall. simpl in Hall.
  apply (Hall (k', n')). by apply elem_of_map_to_list.
Qed.

Lemma is_empty_false s k n : m_vectors s !! k = Some n → is_empty s = false.
Proof.
  intros Hn. unfold is_empty. apply Nat.eqb_neq.
  intros H0%map_size_empty_iff. by rewrite H0, lookup_empty in Hn.
Qed.

Lemma is_empty_true s : is_empty s = true → m_vectors s = ∅.
Proof. unfold is_empty. intros H0%Nat.eqb_eq. by apply map_size_empty_iff. Qed.

Lemma erase_keeps_entry key s s' :
  keys_and_layers (m_vectors s) → entry_point_maximal s →
  erase key s = Done tt s' →
  keys_and_layers (m_vectors s') ∧ entry_point_maximal s'.
Proof.
  intros Hkl Hep Hs'. destruct (m_vectors s !! key) as [node|] eqn:Hk.
  2: { rewrite erase_absent in Hs' by done. by injection Hs' as <-. }
  destruct (erase_outcome key s node Hk) as (s'' & mv' & Hs'' & Hsh & Hmv & _ & He).
  rewrite Hs' in Hs''. injection Hs'' as <-.
  pose proof (same_shape_data _ _ Hsh) as Hd.
  assert (Hkl' : keys_and_layers (m_vectors s')).
  { rewrite Hmv. apply map_Forall_delete. by eapply keys_and_layers_same_data. }
  split; [done|].
  unfold entry_point_maximal in *. rewrite (is_empty_false s key node Hk) in Hep.
  destruct Hep as (en & Hen & Hel & Hmax).
  destruct (Z.eqb_spec key (m_entry_point s)) as [Heq|Hne].
  - rewrite Hmv in Hkl'.
    destruct (rescan_entry_point_spec (delete key mv') Hkl')
      as [[Hemp Hr]|(n & Hn & Hl & Hall)].
    + rewrite Hr in He. injection He as -> ->.
      unfold is_empty. by rewrite Hmv, Hemp, map_size_empty.
    + destruct (rescan_entry_point (delete key mv')) as [k l]. injection He as -> ->.
      simpl in *. rewrite <- Hmv in Hn, Hall.
      rewrite (is_empty_false s' _ _ Hn). by exists n.
  - injection He as He1 He2.
    destruct (same_data_lookup_rev _ _ _ _ Hd Hen) as (en' & Hen' & Hnd).
    assert (Hin : m_vectors s' !! m_entry_point s' = Some en').
    { rewrite He1, Hmv, lookup_delete_ne by done. done. }
    rewrite (is_empty_false s' _ _ Hin). exists en'. split; [done|]. split.
    { unfold node_data in Hnd. congruence. }
    intros k' n'. rewrite Hmv. intros [_ Hn']%lookup_delete_Some.
    destruct (same_data_lookup _ _ _ _ Hd Hn') as (n0 & Hn0 & Hnd0).
    pose proof (Hmax _ _ Hn0). unfold node_data in Hnd0. rewrite He2.
    replace (layer n') with (layer n0) by congruence. done.
Qed.

Lemma insert_keeps_entry key (vec : list double) node_layer s s' :
  keys_and_layers (m_vectors s) → entry_point_maximal s →
  m_vectors s !! key = None → 0 ≤ node_layer →
  final_state (insert key vec node_layer s) = Some s' →
  keys_and_layers (m_vectors s') ∧ entry_point_maximal s'.
Proof.
  intros Hkl Hep Hk Hl [->|(Hv & HD & Hs')]%insert_final; [done|].
  destruct (insert_outcome key vec node_layer s Hv HD) as (s'' & Hs'' & Hd & _ & He1 & He2).
  rewrite Hs' in Hs''. injection Hs'' as <-.
  set (new_node := mkNode key vec node_layer (replicate (Z.to_nat (node_layer + 1)) [])) in *.
  split.
  { eapply keys_and_layers_same_data; [exact Hd|].
    apply map_Forall_insert_2; [done|exact Hkl]. }
  destruct (same_data_lookup_rev _ _ key new_node Hd) as (kn & Hkn & Hknd);
    [apply lookup_insert_eq|].
  assert (Hkl' : layer kn = node_layer) by (unfold node_data in Hknd; simpl in Hknd; congruence).
  unfold entry_point_maximal in *. rewrite (is_empty_false s' _ _ Hkn).
  assert (Hold : ∀ k' n', m_vectors s' !! k' = Some n' →
                 k' = key ∧ layer n' = node_layer
                 ∨ ∃ n0, m_vectors s !! k' = Some n0 ∧ layer n0 = layer n').
  { intros k' n' Hn'. destruct (same_data_lookup _ _ _ _ Hd Hn') as (n0 & Hn0 & Hnd0).
    destruct (decide (k' = key)) as [->|Hne].
    - left. split; [done|]. rewrite Hkn in Hn'. congruence.
    - right. rewrite lookup_insert_ne in Hn0 by done. exists n0. split; [done|].
      unfold node_data in Hnd0. congruence. }
  destruct (is_empty s) eqn:Hemp.
  - simpl in He1, He2. rewrite He1, He2. exists kn. split; [done|]. split; [done|].
    intros k' n' Hn'. destruct (Hold _ _ Hn') as [[_ ->]|(n0 & Hn0 & _)]; [lia|].
    apply is_empty_true in Hemp. by rewrite Hemp, lookup_empty in Hn0.
  - simpl in He1, He2. destruct Hep as (en & Hen & Hel & Hmax).
    destruct (Z.ltb_spec (m_entry_point_layer s) node_layer) as [Hlt|Hge].
    + rewrite He1, He2. exists kn. split; [done|]. split; [done|].
      intros k' n' Hn'. destruct (Hold _ _ Hn') as [[_ ->]|(n0 & Hn0 & <-)]; [lia|].
      pose proof (Hmax _ _ Hn0). lia.
    + rewrite He1, He2.
      assert (Hne : m_entry_point s ≠ key) by (intros Heq; by rewrite Heq, Hk in Hen).
      destruct (same_data_lookup_rev _ _ (m_entry_point s) en Hd) as (en' & Hen' & Hnd');
        [by rewrite lookup_insert_ne|].
      exists en'. split; [done|]. split.
      { unfold node_data in Hnd'. congruence. }
      intros k' n' Hn'. destruct (Hold _ _ Hn') as [[_ ->]|(n0 & Hn0 & <-)]; [lia|].
      exact (Hmax _ _ Hn0).
Qed.


(** X17: the first row put into an empty index is found again: a
    [search_knn] for its own vector with [k >= 1] returns exactly that row,
    with the distance of the vector to itself, and [find_first] returns its
    key. *)
Theorem first_insert_is_found
    (s : HNSWIndex) (key : Z) (vec : list double) (node_layer k ef : Z) :
  is_empty s = true →
  key ≠ null_key →
  vsize vec ≠ 0 →
  vector_dimension (m_config s) = 0 ∨ vsize vec = vector_dimension (m_config s) →
  1 ≤ k →
  ∃ s', insert key vec node_layer s = Done tt s'
        ∧ count s' = 1
        ∧ search_knn vec k ef s' = Done [(key, compute_distance (m_config s) vec vec)] s'
        ∧ find_first vec s' = Done key s'.
Proof.
  intros Hemp Hkey Hv HD Hk.
  destruct (insert_outcome key vec node_layer s Hv HD) as (s' & Hs' & Hd & Hcfg & He1 & _).
  rewrite Hemp in He1. simpl in He1. apply is_empty_true in Hemp. rewrite Hemp in Hd.
  set (new_node := mkNode key vec node_layer (replicate (Z.to_nat (node_layer + 1)) [])) in *.
  destruct (same_data_lookup_rev _ _ key new_node Hd) as (kn & Hkn & Hknd);
    [apply lookup_insert_eq|].
  assert (Hkv : vector kn = vec) by (unfold node_data in Hknd; simpl in Hknd; congruence).
  assert (Honly : ∀ k' n', m_vectors s' !! k' = Some n' → k' = key).
  { intros k' n' Hn'. destruct (same_data_lookup _ _ _ _ Hd Hn') as (n0 & Hn0 & _).
    destruct (decide (k' = key)) as [|Hne]; [done|].
    by rewrite lookup_insert_ne, lookup_empty in Hn0. }
  assert (Hcount : count s' = 1).
  { unfold count. rewrite (same_data_size _ _ Hd), map_size_insert_None by done.
    by rewrite map_size_empty. }
  assert (Hdist : ∀ a b, compute_distance (m_config s') a b
                         = compute_distance (m_config s) a b) by (by rewrite Hcfg).
  assert (Hcore : ∀ k0 ef0, 1 ≤ k0 →
            search_knn vec k0 ef0 s'
            = Done [(key, compute_distance (m_config s) vec vec)] s').
  { intros k0 ef0 Hk0. rewrite search_knn_unfold, (is_empty_false s' _ _ Hkn), He1.
    cbn [orb]. destruct (Z.eqb_spec key null_key); [done|].
    destruct (Z.eqb_spec k0 0); [lia|].
    rewrite validate_match by (rewrite Hcfg; simpl; done).
    rewrite He1.
    assert (Hnull : m_vectors s' !! null_key = None).
    { destruct (m_vectors s' !! null_key) as [n'|] eqn:Hn'; [|done].
      by apply Honly in Hn'. }
    destruct (greedy_descend_node (Z.to_nat (m_entry_point_layer s'))
                (m_entry_point_layer s') (m_config s') (m_vectors s') vec key Hnull)
      as (curr & -> & [cn Hcn]); [by eexists|].
    apply Honly in Hcn as Hcurr. subst curr.
    destruct (search_layer_with_distances_nonempty (m_config s') (m_vectors s') vec key
                (effective_ef (m_config s') k0 ef0 (count s')) 0)
      as (p & rest & Hr); [done|by eexists|].
    rewrite Hr. apply search_layer_with_distances_sound in Hr as [Hf Hnd].
    apply Forall_cons in Hf as [(pn & Hpn & Hpd) Hf].
    pose proof (Honly _ _ Hpn) as Hp1. rewrite Hp1, Hkn in Hpn. injection Hpn as <-.
    destruct rest as [|q rest].
    - rewrite Hcount. unfold effective_k.
      replace (Z.to_nat (Z.min k0 1)) with 1%nat by lia. simpl.
      destruct p as [pk pd]. simpl in *. rewrite Hpd, Hp1, Hkv, Hdist. done.
    - exfalso. apply Forall_cons in Hf as [(qn & Hqn & _) _].
      apply Honly in Hqn. simpl in Hnd. apply NoDup_cons in Hnd as [Hnd _].
      apply Hnd. rewrite Hp1, <- Hqn. left. }
  exists s'. split; [done|]. split; [done|]. split; [by apply Hcore|].
  unfold find_first, and_then. by rewrite Hcore.
Qed.

(** X18: [clear] returns and leaves an index without nodes and without an
    entry point, on which every search returns the empty list; it keeps the
    configuration, so a dimension once fixed still rejects vectors of
    another length. *)
Theorem clear_empties_graph (s : HNSWIndex) :
  ∃ s', clear s = Done tt s'
        ∧ count s' = 0
        ∧ m_entry_point s' = null_key
        ∧ m_entry_point_layer s' = -1
        ∧ m_config s' = m_config s
        ∧ (∀ q k ef, search_knn q k ef s' = Done [] s')
        ∧ (∀ q r, search_radius q r s' = Done [] s')
        ∧ (∀ key vec node_layer,
             vector_dimension (m_config s) ≠ 0 → vsize vec ≠ 0 →
             vsize vec ≠ vector_dimension (m_config s) →
             insert key vec node_layer s'
             = Raise (DimensionMismatch (vector_dimension (m_config s)) (vsize vec)) s').
Proof.
  destruct (clear_outcome s) as (s' & Hs' & Hmv & Hcfg & He1 & He2).
  assert (Hemp : is_empty s' = true) by (unfold is_empty; by rewrite Hmv, map_size_empty).
  exists s'. split; [done|]. split; [unfold count; by rewrite Hmv, map_size_empty|].
  split; [done|]. split; [done|]. split; [done|]. split; [|split].
  - intros q k ef. by rewrite search_knn_unfold, Hemp.
  - intros q r. by rewrite search_radius_unfold, Hemp.
  - intros key vec node_layer HD Hv Hne. rewrite <- Hcfg. apply insert_mismatch; by rewrite ?Hcfg.
Qed.

(** X19: a created index has no nodes and no entry point, whatever the
    configuration, and satisfies the invariants of the graph; every search
    on it returns the empty list, and opening the storage it was created
    with gives an empty index again, with the normalised configuration. *)
Theorem created_index_is_empty (alloc : Alloc) (config cfg' : HNSWIndexConfig) :
  let s := HNSWIndex_create alloc config in
  count s = 0
  ∧ entry_point_maximal s
  ∧ keys_and_layers (m_vectors s)
  ∧ uniform_dimension s
  ∧ m_config s = normalize_config config
  ∧ (∀ q k ef, search_knn q k ef s = Done [] s)
  ∧ ∃ t, HNSWIndex_open (m_array s) (m_alloc s) cfg' = Done tt t
         ∧ count t = 0
         ∧ entry_point_maximal t
         ∧ m_config t = normalize_config cfg'.
Proof.
  unfold HNSWIndex_create, alloc_array. simpl.
  split; [done|]. split; [done|]. split; [apply map_Forall_empty|].
  split; [by intros k n ?|]. split; [done|]. split; [done|].
  unfold HNSWIndex_open, and_then, load_from_storage, read_array. simpl.
  rewrite lookup_insert_eq. simpl. by eexists.
Qed.

End InsertErase.

Section Verification.
Context {F : Float64}.

Lemma forallb_elem {A} (f : A → bool) (l : list A) :
  forallb f l = true ↔ ∀ x, x ∈ l → f x = true.
Proof.
  rewrite forallb_forall. split; intros H x Hx; apply H; by apply list_elem_of_In.
Qed.

Lemma verify_layers_elem node lc :
  lc ∈ verify_layers node ↔ 0 ≤ lc ≤ layer node ∧ lc < vsize (connections node).
Proof. unfold verify_layers. rewrite elem_of_seqZ. lia. Qed.

Lemma verify_neighbor_true (mv : gmap Z Node) node lc b :
  verify_neighbor mv node lc b = true
  ↔ ∀ nb, mv !! b = Some nb → lc < vsize (connections nb) → obj_key node ∈ adjacency nb lc.
Proof.
  unfold verify_neighbor. destruct (mv !! b) as [nb|]; [|by split].
  destruct (Z.ltb_spec lc (vsize (connections nb))) as [Hlt|Hge].
  - rewrite bool_decide_eq_true. split.
    + by intros H ? [= <-] _.
    + intros H. by apply H.
  - split; [|done]. intros _ ? [= <-] ?. lia.
Qed.

Lemma verify_node_true cfg (mv : gmap Z Node) node :
  verify_node cfg mv node = true
  ↔ ∀ lc, 0 ≤ lc ≤ layer node → lc < vsize (connections node) →
          (∀ b nb, b ∈ adjacency node lc → mv !! b = Some nb →
                   lc < vsize (connections nb) → obj_key node ∈ adjacency nb lc)
          ∧ vsize (adjacency node lc)
            ≤ to_size_t ((if lc =? 0 then M0 cfg else M cfg) + 2).
Proof.
  unfold verify_node. rewrite andb_true_iff, !forallb_elem. split.
  - intros [H1 H2] lc Hlc Hsz.
    assert (Hin : lc ∈ verify_layers node) by (by apply verify_layers_elem).
    split.
    + intros b nb Hb. specialize (H1 lc Hin). rewrite forallb_elem in H1.
      by apply verify_neighbor_true, H1.
    + by apply Z.leb_le, H2.
  - intros H. split.
    + intros lc [Hlc Hsz]%verify_layers_elem. apply forallb_elem. intros b Hb.
      apply verify_neighbor_true. intros nb Hnb Hlt.
      by apply (proj1 (H lc Hlc Hsz) b nb).
    + intros lc [Hlc Hsz]%verify_layers_elem. apply Z.leb_le. by apply H.
Qed.

(** X20: [verify] passes exactly when, for every node and every layer up
    to its top layer that it has links for, each neighbour that is a node
    with that layer links back and the degree is at most [M + 2] ([M0 + 2]
    on layer 0). A symmetric graph within these degree bounds passes; a
    neighbour that is no node is not looked at. *)
Theorem verify_checks (s : HNSWIndex) :
  (verify s = true ↔ verified s)
  ∧ (keys_and_layers (m_vectors s) →
     symmetric (m_vectors s) →
     (∀ k n lc, m_vectors s !! k = Some n → 0 ≤ lc ≤ layer n →
                vsize (adjacency n lc)
                ≤ to_size_t ((if lc =? 0 then M0 (m_config s) else M (m_config s)) + 2)) →
     verify s = true).
Proof.
  assert (Hiff : verify s = true ↔ verified s).
  { unfold verify, verified. rewrite forallb_elem. split.
    - intros H k node lc Hk. specialize (H (k, node)). simpl in H.
      apply elem_of_map_to_list in Hk. by apply verify_node_true, H.
    - intros H [k node] Hk%elem_of_map_to_list. simpl. apply verify_node_true.
      intros lc. by apply (H k). }
  split; [done|]. intros Hkl Hsym Hdeg. apply Hiff.
  intros k node lc Hk Hlc Hsz. split; [|by eapply Hdeg].
  intros b nb Hb Hnb Hlt. destruct (Hkl k node Hk) as [-> _].
  apply (Hsym _ _ lc b Hk Hlc) in Hb as (nb' & Hnb' & Hin). congruence.
Qed.

End Verification.

Section Degrees.
Context {F : Float64}.

Lemma live_connections_lookup k lc (mv : gmap Z Node) :
  live_connections k lc mv
  = match mv !! k with Some n => adjacency n lc | None => [] end.
Proof. unfold live_connections, adjacency. by destruct (mv !! k). Qed.

Lemma live_connections_alter (f : Node → Node) i k lc (mv : gmap Z Node) :
  live_connections k lc (alter f i mv)
  = match mv !! k with
    | Some n => adjacency (if decide (i = k) then f n else n) lc
    | None => []
    end.
Proof.
  rewrite live_connections_lookup, lookup_alter_cond.
  destruct (mv !! k) as [n|]; [|done]. simpl. by case_decide.
Qed.

Lemma adjacency_out n lc : vsize (connections n) ≤ lc → adjacency n lc = [].
Proof.
  intros Hge. unfold adjacency, conn_at.
  by destruct (Z.ltb_spec lc (vsize (connections n))) as [?|_]; [lia|].
Qed.

Lemma adjacency_grow_connections lc n lc' :
  0 ≤ lc' → adjacency (grow_connections lc n) lc' = adjacency n lc'.
Proof.
  intros H0. unfold adjacency, conn_at, grow_connections, vsize. simpl.
  rewrite length_app, length_replicate.
  destruct (Z.ltb_spec lc' (Z.of_nat (length (connections n)))) as [Hlt|Hge].
  - destruct (Z.ltb_spec lc' (Z.of_nat (length (connections n)
              + Z.to_nat (lc + 1 - Z.of_nat (length (connections n)))))) as [_|?]; [|lia].
    by rewrite lookup_app_l by lia.
  - destruct (Z.ltb_spec lc' (Z.of_nat (length (connections n)
              + Z.to_nat (lc + 1 - Z.of_nat (length (connections n)))))) as [_|?]; [|done].
    rewrite lookup_app_r by lia.
    destruct (replicate _ _ !! _) as [y|] eqn:Hy; [|done].
    by apply lookup_replicate in Hy as [-> _].
Qed.

Lemma adjacency_update_layer_ne lc f n lc' :
  0 ≤ lc → 0 ≤ lc' → lc' ≠ lc →
  adjacency (update_layer lc f n) lc' = adjacency n lc'.
Proof.
  intros H0 H0' Hne. unfold adjacency, conn_at, update_layer, vsize. simpl.
  rewrite length_alter, list_lookup_alter_ne by lia. done.
Qed.

Lemma adjacency_update_layer_any lc f n lc' :
  0 ≤ lc → 0 ≤ lc' →
  adjacency (update_layer lc f n) lc'
  = if decide (lc' = lc ∧ lc < vsize (connections n)) then f (adjacency n lc)
    else adjacency n lc'.
Proof.
  intros H0 H0'. case_decide as Hd.
  - destruct Hd as [-> Hlt]. by apply adjacency_update_layer.
  - destruct (decide (lc' = lc)) as [->|Hne]; [|by apply adjacency_update_layer_ne].
    rewrite !adjacency_out; [done|lia|rewrite update_layer_size; lia].
Qed.

Lemma adjacency_remove_edge_guarded_any lc k n lc' :
  0 ≤ lc → 0 ≤ lc' →
  adjacency (remove_edge_guarded lc k n) lc'
  = if decide (lc' = lc) then remove_edge k (adjacency n lc) else adjacency n lc'.
Proof.
  intros H0 H0'. unfold remove_edge_guarded.
  destruct (Z.ltb_spec lc (vsize (connections n))) as [Hlt|Hge].
  - rewrite adjacency_update_layer_any by done. repeat case_decide; (done || lia || tauto).
  - case_decide as Hd; [|done]. subst. by rewrite adjacency_out.
Qed.

Lemma shrinks_at_refl lc (mv : gmap Z Node) : shrinks_at lc mv mv.
Proof. intros k lc' _. split; [done|lia]. Qed.

Lemma shrinks_at_trans lc (m1 m2 m3 : gmap Z Node) :
  shrinks_at lc m1 m2 → shrinks_at lc m2 m3 → shrinks_at lc m1 m3.
Proof.
  intros H1 H2 k lc' H0. destruct (H1 k lc' H0) as [E1 L1], (H2 k lc' H0) as [E2 L2].
  split; [|lia]. intros Hne. by rewrite E2, E1.
Qed.

Lemma shrinks_at_shrinks lc (m1 m2 : gmap Z Node) : shrinks_at lc m1 m2 → shrinks m1 m2.
Proof. intros H k lc' H0. by apply H. Qed.

Lemma shrinks_trans (m1 m2 m3 : gmap Z Node) : shrinks m1 m2 → shrinks m2 m3 → shrinks m1 m3.
Proof. intros H1 H2 k lc' H0. specialize (H1 k lc' H0). specialize (H2 k lc' H0). lia. Qed.

Lemma alter_shrinks_at (f : Node → Node) i lc (mv : gmap Z Node) :
  (∀ n lc', 0 ≤ lc' →
     (lc' ≠ lc → adjacency (f n) lc' = adjacency n lc')
     ∧ vsize (adjacency (f n) lc') ≤ vsize (adjacency n lc')) →
  shrinks_at lc mv (alter f i mv).
Proof.
  intros Hf k lc' H0. rewrite live_connections_alter, live_connections_lookup.
  destruct (mv !! k) as [n|]; [|split; [done|lia]].
  case_decide; [by apply Hf|]. split; [done|lia].
Qed.

Lemma remove_edge_length k conn : vsize (remove_edge k conn) ≤ vsize conn.
Proof. unfold remove_edge, vsize. pose proof (length_filter (λ x, x ≠ k) conn). lia. Qed.

Lemma remove_edge_guarded_shrinks lc k n lc' :
  0 ≤ lc → 0 ≤ lc' →
  (lc' ≠ lc → adjacency (remove_edge_guarded lc k n) lc' = adjacency n lc')
  ∧ vsize (adjacency (remove_edge_guarded lc k n) lc') ≤ vsize (adjacency n lc').
Proof.
  intros H0 H0'. rewrite adjacency_remove_edge_guarded_any by done.
  case_decide as Hd; [|split; [done|lia]]. subst. split; [done|].
  apply remove_edge_length.
Qed.

Lemma disconnect_nodes_shrinks node1 node2 lc (mv : gmap Z Node) :
  0 ≤ lc → shrinks_at lc mv (disconnect_nodes node1 node2 lc mv).
Proof.
  intros H0. unfold disconnect_nodes.
  destruct (mv !! node1); [|apply shrinks_at_refl].
  destruct (mv !! node2); [|apply shrinks_at_refl].
  eapply shrinks_at_trans; apply alter_shrinks_at; intros x lc' H0';
    by apply remove_edge_guarded_shrinks.
Qed.

Lemma range_for_live_shrinks steps i cells owner lc body (mv : gmap Z Node) :
  (∀ x m, shrinks_at lc m (body x m)) →
  shrinks_at lc mv (range_for_live steps i cells owner lc body mv).
Proof.
  intros Hb. revert i cells mv. induction steps as [|steps IH]; intros i cells mv; simpl.
  { apply shrinks_at_refl. }
  destruct (cells !! i) as [x|]; [|apply shrinks_at_refl].
  eapply shrinks_at_trans; [apply Hb|apply IH].
Qed.

Lemma for_each_connection_shrinks owner lc body (mv : gmap Z Node) :
  (∀ x m, shrinks_at lc m (body x m)) →
  shrinks_at lc mv (for_each_connection owner lc body mv).
Proof. intros Hb. unfold for_each_connection. by apply range_for_live_shrinks. Qed.

Lemma prune_connections_shrinks cfg nb lc (mv : gmap Z Node) :
  0 ≤ lc → 0 ≤ max_connections cfg lc →
  shrinks_at lc mv (prune_connections cfg nb lc mv)
  ∧ vsize (live_connections nb lc (prune_connections cfg nb lc mv))
    ≤ max_connections cfg lc.
Proof.
  intros H0 HB. unfold prune_connections.
  change (if lc =? 0 then M0 cfg else M cfg) with (max_connections cfg lc).
  pose proof (live_connections_lookup nb lc mv) as HL.
  destruct (mv !! nb) as [node|] eqn:Hnode.
  2: { split; [apply shrinks_at_refl|]. by rewrite HL. }
  unfold adjacency in HL.
  destruct (conn_at node lc) as [conns|] eqn:Hconn.
  2: { split; [apply shrinks_at_refl|]. by rewrite HL. }
  simpl in HL.
  destruct (Z.leb_spec (vsize conns) (max_connections cfg lc)) as [Hle|Hgt].
  { split; [apply shrinks_at_refl|]. by rewrite HL. }
  set (new_neighbors := select_neighbors_heuristic _ _ _ _ _ _ _).
  set (mv1 := for_each_connection _ _ _ _).
  assert (Hs1 : shrinks_at lc mv mv1).
  { apply for_each_connection_shrinks. intros x m.
    case_bool_decide; [apply shrinks_at_refl|by apply disconnect_nodes_shrinks]. }
  assert (Hshape1 : same_shape mv mv1).
  { apply for_each_connection_shape. intros x m. case_bool_decide; [apply same_shape_refl|].
    apply disconnect_nodes_shape. }
  assert (Hsz : lc < vsize (connections node)).
  { unfold conn_at in Hconn. by destruct (Z.ltb_spec lc (vsize (connections node))). }
  destruct (mv1 !! nb) as [n1|] eqn:Hn1.
  2: { specialize (Hshape1 nb). by rewrite Hn1, Hnode in Hshape1. }
  assert (Hlen1 : vsize (connections n1) = vsize (connections node)).
  { specialize (Hshape1 nb). rewrite Hn1, Hnode in Hshape1. simpl in Hshape1.
    unfold vsize. congruence. }
  assert (Hnew : vsize new_neighbors ≤ max_connections cfg lc).
  { subst new_neighbors. unfold select_neighbors_heuristic.
    apply select_diverse_bound. unfold vsize. simpl. lia. }
  split.
  - intros k lc' H0'. rewrite live_connections_alter.
    destruct (Hs1 k lc' H0') as [E1 L1].
    rewrite (live_connections_lookup k lc' mv1) in E1, L1.
    destruct (mv1 !! k) as [n|] eqn:Hk; [|done].
    case_decide as Hd; [|done]. subst k. rewrite Hn1 in Hk. injection Hk as <-.
    rewrite adjacency_update_layer_any by done.
    case_decide as Hd; [|done]. destruct Hd as [-> _].
    split; [done|]. rewrite HL. lia.
  - rewrite live_connections_alter, Hn1. rewrite decide_True by done.
    rewrite adjacency_update_layer by lia. done.
Qed.

Lemma adjacency_link lc x n lc' :
  0 ≤ lc → 0 ≤ lc' → lc < vsize (connections n) →
  adjacency (update_layer lc (add_edge x) n) lc'
  = if decide (lc' = lc) then add_edge x (adjacency n lc) else adjacency n lc'.
Proof.
  intros H0 H0' Hsz. rewrite adjacency_update_layer_any by done.
  repeat case_decide; (done || tauto).
Qed.

Lemma add_edge_idem x conn : add_edge x (add_edge x conn) = add_edge x conn.
Proof.
  destruct (decide (x ∈ conn)) as [Hx|Hx].
  - unfold add_edge. by rewrite !(bool_decide_eq_true_2 _ Hx).
  - unfold add_edge. rewrite (bool_decide_eq_false_2 _ Hx).
    rewrite bool_decide_eq_true_2; [done|].
    apply elem_of_app. right. by apply list_elem_of_singleton.
Qed.

(** The links of every node after [connect_nodes] on two nodes. *)
Lemma connect_nodes_live a b lc (mv : gmap Z Node) k lc' :
  0 ≤ lc → 0 ≤ lc' → is_Some (mv !! a) → is_Some (mv !! b) →
  live_connections k lc' (connect_nodes a b lc mv)
  = if decide (lc' = lc)
    then (if decide (k = b) then add_edge a else id)
           ((if decide (k = a) then add_edge b else id) (live_connections k lc mv))
    else live_connections k lc' mv.
Proof.
  intros H0 H0' [na Ha] [nb Hb]. unfold connect_nodes. rewrite Ha, Hb.
  rewrite !live_connections_lookup, !lookup_alter_cond.
  destruct (mv !! k) as [n|] eqn:Hk; simpl.
  2: { destruct (decide (k = a)) as [->|]; [congruence|].
       destruct (decide (k = b)) as [->|]; [congruence|]. by case_decide. }
  pose proof (grow_connections_size lc n) as Hg1.
  pose proof (grow_connections_size lc (grow_connections lc n)) as Hg2.
  destruct (decide (a = k)) as [->|Hak], (decide (b = k)) as [->|Hbk];
    repeat (rewrite decide_True by done); repeat (rewrite decide_False by done); simpl.
  - rewrite !adjacency_link, !adjacency_grow_connections
      by (done || rewrite ?update_layer_size; lia).
    repeat case_decide; subst; rewrite ?adjacency_grow_connections by done;
      (done || lia).
  - rewrite adjacency_link, adjacency_grow_connections by done.
    repeat case_decide; subst; rewrite ?adjacency_grow_connections by done;
      (done || lia).
  - rewrite adjacency_link, adjacency_grow_connections by done.
    repeat case_decide; subst; rewrite ?adjacency_grow_connections by done;
      (done || lia).
  - repeat case_decide; subst; (done || lia).
Qed.

Lemma connect_nodes_absent a b lc (mv : gmap Z Node) :
  mv !! a = None ∨ mv !! b = None → connect_nodes a b lc mv = mv.
Proof.
  unfold connect_nodes. intros [-> | H2]; [done|]. rewrite H2. by destruct (mv !! a).
Qed.

Lemma add_edge_cases x conn :
  (x ∈ conn ∧ add_edge x conn = conn) ∨ ((x ∉ conn) ∧ add_edge x conn = conn ++ [x]).
Proof.
  unfold add_edge. destruct (decide (x ∈ conn)) as [Hx|Hx].
  - left. by rewrite (bool_decide_eq_true_2 _ Hx).
  - right. by rewrite (bool_decide_eq_false_2 _ Hx).
Qed.

Lemma add_edge_length x conn : vsize (add_edge x conn) ≤ vsize conn + 1.
Proof.
  destruct (add_edge_cases x conn) as [[_ ->]|[_ ->]]; unfold vsize;
    rewrite ?length_app; simpl; lia.
Qed.

(** One [connect_nodes(key, nb, lc)] of the linking loop. *)
Lemma connect_step_live key nb lc (mv : gmap Z Node) :
  0 ≤ lc →
  (∀ k lc', 0 ≤ lc' → lc' ≠ lc →
     live_connections k lc' (connect_nodes key nb lc mv) = live_connections k lc' mv)
  ∧ (∀ k, k ≠ key →
       live_connections k lc (connect_nodes key nb lc mv) = live_connections k lc mv
       ∨ (k = nb ∧ (key ∉ live_connections k lc mv)
          ∧ live_connections k lc (connect_nodes key nb lc mv)
            = live_connections k lc mv ++ [key]))
  ∧ vsize (live_connections key lc (connect_nodes key nb lc mv))
    ≤ vsize (live_connections key lc mv) + 1.
Proof.
  intros H0.
  destruct (mv !! key) as [nk|] eqn:Hkey;
    [|rewrite connect_nodes_absent by (by left); split; [done|split; [by left|lia]]].
  destruct (mv !! nb) as [nn|] eqn:Hnb;
    [|rewrite connect_nodes_absent by (by right); split; [done|split; [by left|lia]]].
  assert (Hlive : ∀ k lc', 0 ≤ lc' →
            live_connections k lc' (connect_nodes key nb lc mv)
            = if decide (lc' = lc)
              then (if decide (k = nb) then add_edge key else id)
                     ((if decide (k = key) then add_edge nb else id)
                        (live_connections k lc mv))
              else live_connections k lc' mv).
  { intros k lc' H0'. apply connect_nodes_live; (done || by eexists). }
  split; [|split].
  - intros k lc' H0' Hne. by rewrite Hlive, decide_False.
  - intros k Hk. rewrite Hlive, decide_True, (decide_False (P := k = key)) by done.
    simpl. case_decide as Hd; [|by left]. subst k.
    destruct (add_edge_cases key (live_connections nb lc mv)) as [[_ ->]|[Hn ->]];
      [by left|by right].
  - rewrite Hlive, decide_True, (decide_True (P := key = key)) by done.
    case_decide as Hd.
    + subst nb. rewrite add_edge_idem. apply add_edge_length.
    + simpl. apply add_edge_length.
Qed.

(** The loop "Connect new node to neighbors". *)
Lemma connect_fold_live key lc nbs (mv : gmap Z Node) :
  0 ≤ lc →
  let mv1 := fold_left (λ mv neighbor, connect_nodes key neighbor lc mv) nbs mv in
  (∀ k lc', 0 ≤ lc' → lc' ≠ lc → live_connections k lc' mv1 = live_connections k lc' mv)
  ∧ (∀ k, k ≠ key →
       live_connections k lc mv1 = live_connections k lc mv
       ∨ (k ∈ nbs ∧ (key ∉ live_connections k lc mv)
          ∧ live_connections k lc mv1 = live_connections k lc mv ++ [key]))
  ∧ vsize (live_connections key lc mv1) ≤ vsize (live_connections key lc mv) + vsize nbs.
Proof.
  intros H0. revert mv. induction nbs as [|nb rest IH]; intros mv; simpl.
  { split; [done|]. split; [by left|]. unfold vsize. simpl. lia. }
  destruct (connect_step_live key nb lc mv H0) as (S1 & S2 & S3).
  destruct (IH (connect_nodes key nb lc mv)) as (I1 & I2 & I3).
  split; [|split].
  - intros k lc' H0' Hne. by rewrite I1, S1.
  - intros k Hk. destruct (S2 k Hk) as [E|(Hknb & Hn & E)], (I2 k Hk) as [E'|(Hin & Hn' & E')].
    + left. by rewrite E', E.
    + right. rewrite E in Hn', E'. split; [by right|done].
    + right. split; [subst; by left|]. split; [done|]. by rewrite E', E.
    + exfalso. apply Hn'. rewrite E. apply elem_of_app. right. by apply list_elem_of_singleton.
  - unfold vsize in *. simpl. lia.
Qed.

(** The loop "Prune neighbors' connections if needed". *)
Lemma prune_fold_live cfg lc nbs (mv : gmap Z Node) :
  0 ≤ lc → 0 ≤ max_connections cfg lc →
  let mv2 := fold_left (λ mv neighbor, prune_connections cfg neighbor lc mv) nbs mv in
  shrinks_at lc mv mv2
  ∧ ∀ nb, nb ∈ nbs → vsize (live_connections nb lc mv2) ≤ max_connections cfg lc.
Proof.
  intros H0 HB. revert mv. induction nbs as [|nb rest IH]; intros mv; simpl.
  { split; [apply shrinks_at_refl|]. by intros x ?%elem_of_nil. }
  destruct (prune_connections_shrinks cfg nb lc mv H0 HB) as [P1 P2].
  destruct (IH (prune_connections cfg nb lc mv)) as [I1 I2].
  split; [by eapply shrinks_at_trans|].
  intros x [->|Hx]%elem_of_cons; [|by apply I2].
  destruct (I1 nb lc H0) as [_ Hle]. lia.
Qed.

(** One round of the linking loop of [insert] keeps the degree bound of
    its layer and leaves the other layers alone. *)
Lemma link_step_degree cfg key lc nbs (mv : gmap Z Node) :
  0 ≤ lc → vsize nbs ≤ max_connections cfg lc →
  (∀ k, vsize (live_connections k lc mv) ≤ max_connections cfg lc) →
  live_connections key lc mv = [] →
  let mv2 := fold_left (λ mv neighbor, prune_connections cfg neighbor lc mv) nbs
               (fold_left (λ mv neighbor, connect_nodes key neighbor lc mv) nbs mv) in
  (∀ k, vsize (live_connections k lc mv2) ≤ max_connections cfg lc)
  ∧ (∀ k lc', 0 ≤ lc' → lc' ≠ lc → live_connections k lc' mv2 = live_connections k lc' mv).
Proof.
  intros H0 Hn Hb Hkey.
  assert (HB : 0 ≤ max_connections cfg lc) by (unfold vsize in Hn; lia).
  destruct (connect_fold_live key lc nbs mv H0) as (C1 & C2 & C3).
  set (mv1 := fold_left (λ mv neighbor, connect_nodes key neighbor lc mv) nbs mv) in *.
  destruct (prune_fold_live cfg lc nbs mv1 H0 HB) as (P1 & P2).
  simpl. set (mv2 := fold_left _ nbs mv1) in *.
  split.
  - intros k. destruct (P1 k lc H0) as [_ Hle].
    destruct (decide (k = key)) as [->|Hk].
    + rewrite Hkey in C3. unfold vsize in *. simpl in C3. lia.
    + destruct (C2 k Hk) as [E|(Hin & _)]; [|by apply P2].
      rewrite E in Hle. specialize (Hb k). lia.
  - intros k lc' H0' Hne. destruct (P1 k lc' H0') as [E _]. by rewrite E, C1.
Qed.

Lemma select_neighbors_simple_length (cands : list (Z * double)) Mx :
  0 ≤ Mx → vsize (select_neighbors_simple cands Mx) ≤ Mx.
Proof.
  intros HM. unfold select_neighbors_simple, vsize. rewrite length_take. lia.
Qed.

(** The linking loop of [insert] keeps the degree bound, when it starts
    from a new node without links. *)
Lemma link_layers_degree n lc cfg key vec curr (mv mv' : gmap Z Node) :
  Z.of_nat n ≤ lc + 1 → 0 ≤ M cfg → 0 ≤ M0 cfg →
  degree_bounded cfg mv →
  (∀ lc', 0 ≤ lc' ≤ lc → live_connections key lc' mv = []) →
  link_layers n lc cfg key vec curr mv = Some mv' →
  degree_bounded cfg mv'.
Proof.
  intros Hn HM HM0. revert lc curr mv Hn.
  induction n as [|n IH]; intros lc curr mv Hn Hdeg Hkey; simpl.
  { by intros [= <-]. }
  destruct (search_layer_with_distances cfg mv vec curr (ef_construction cfg) lc)
    as [cands|]; [|done]. simpl.
  change (if lc =? 0 then M0 cfg else M cfg) with (max_connections cfg lc).
  set (neighbors := if lc =? 0 then _ else _).
  assert (H0 : 0 ≤ lc) by lia.
  assert (HB : 0 ≤ max_connections cfg lc).
  { unfold max_connections. by destruct (lc =? 0). }
  assert (Hnb : vsize neighbors ≤ max_connections cfg lc).
  { subst neighbors. destruct (lc =? 0); [by apply select_neighbors_simple_length|].
    unfold select_neighbors_heuristic. apply select_diverse_bound.
    unfold vsize. simpl. lia. }
  destruct (link_step_degree cfg key lc neighbors mv H0 Hnb) as [S1 S2].
  { intros k. by apply Hdeg. }
  { apply Hkey. lia. }
  apply IH; [lia| |].
  - intros k lc' H0'. destruct (decide (lc' = lc)) as [->|Hne]; [apply S1|].
    rewrite S2 by done. by apply Hdeg.
  - intros lc' Hlc'. rewrite S2 by lia. apply Hkey. lia.
Qed.

Lemma degree_bounded_config cfg cfg' (mv : gmap Z Node) :
  M cfg' = M cfg → M0 cfg' = M0 cfg →
  degree_bounded cfg mv → degree_bounded cfg' mv.
Proof.
  intros HM HM0 Hd k lc H0. specialize (Hd k lc H0).
  unfold max_connections in *. by rewrite HM, HM0.
Qed.

Lemma live_connections_insert key (new_node : Node) k lc (mv : gmap Z Node) :
  live_connections k lc (<[key := new_node]> mv)
  = if decide (k = key) then adjacency new_node lc else live_connections k lc mv.
Proof.
  rewrite !live_connections_lookup. case_decide as Hd.
  - subst. by rewrite lookup_insert_eq.
  - by rewrite lookup_insert_ne.
Qed.

Lemma live_connections_delete key k lc (mv : gmap Z Node) :
  live_connections k lc (delete key mv)
  = if decide (k = key) then [] else live_connections k lc mv.
Proof.
  rewrite !live_connections_lookup. case_decide as Hd.
  - subst. by rewrite lookup_delete_eq.
  - by rewrite lookup_delete_ne.
Qed.

(** A new node has no links. *)
Lemma adjacency_new_node key (vec : list double) node_layer lc :
  adjacency (mkNode key vec node_layer (replicate (Z.to_nat (node_layer + 1)) [])) lc = [].
Proof.
  unfold adjacency, conn_at. simpl.
  destruct (_ <? _); [|done].
  destruct (replicate _ _ !! _) as [y|] eqn:Hy; [|done].
  by apply lookup_replicate in Hy as [-> _].
Qed.

(** The graph a successful [insert] leaves: the new node alone, or what
    the linking loop makes of the old graph with the new node. *)
Lemma insert_outcome_graph key (vec : list double) node_layer s s' :
  insert key vec node_layer s = Done tt s' →
  vsize vec ≠ 0 →
  M (m_config s') = M (m_config s) ∧ M0 (m_config s') = M0 (m_config s)
  ∧ (m_vectors s'
     = <[key := mkNode key vec node_layer (replicate (Z.to_nat (node_layer + 1)) [])]>
         (m_vectors s)
     ∨ ∃ curr,
         link_layers (Z.to_nat (node_layer + 1)) node_layer (m_config s') key vec curr
           (<[key := mkNode key vec node_layer (replicate (Z.to_nat (node_layer + 1)) [])]>
              (m_vectors s))
         = Some (m_vectors s')).
Proof.
  unfold insert. destruct (Z.eqb_spec (vsize vec) 0); [done|].
  unfold and_then at 1.
  destruct (validate_vector_dimension vec s) as [[] s1|e s1|] eqn:Hs1; [|done..].
  assert (Hcfg : M (m_config s1) = M (m_config s) ∧ M0 (m_config s1) = M0 (m_config s)).
  { by destruct (validate_done _ _ _ Hs1) as [(_ & _ & ->)|(_ & ->)]. }
  apply validate_done_distance in Hs1 as (Hmv & _).
  destruct (is_empty s1).
  - intros [= <-] _. rewrite save_to_storage_vectors, save_to_storage_config. simpl.
    rewrite Hmv. split; [apply Hcfg|]. split; [apply Hcfg|]. by left.
  - unfold and_then, pure_step.
    destruct (greedy_descend _ _ _ _ _ _) as [curr|]; [|done].
    destruct (link_layers _ _ _ _ _ _ _) as [mv'|] eqn:Hl; [|done].
    intros [= <-] _. rewrite save_to_storage_vectors, save_to_storage_config.
    assert (Hv : ∀ t, m_vectors (if m_entry_point_layer (with_vectors mv' s1) <? node_layer
                                 then with_entry key node_layer t else t) = m_vectors t)
      by (intros t; by destruct (_ <? _)).
    assert (Hc : ∀ t, m_config (if m_entry_point_layer (with_vectors mv' s1) <? node_layer
                                then with_entry key node_layer t else t) = m_config t)
      by (intros t; by destruct (_ <? _)).
    rewrite Hv, Hc. simpl. split; [apply Hcfg|]. split; [apply Hcfg|].
    right. exists curr. by rewrite <- Hmv.
Qed.

Lemma insert_keeps_degree key (vec : list double) node_layer s s' :
  0 ≤ M (m_config s) → 0 ≤ M0 (m_config s) →
  degree_bounded (m_config s) (m_vectors s) →
  final_state (insert key vec node_layer s) = Some s' →
  degree_bounded (m_config s') (m_vectors s').
Proof.
  intros HM HM0 Hdeg [->|(Hv & _ & Hs')]%insert_final; [done|].
  destruct (insert_outcome_graph _ _ _ _ _ Hs' Hv) as (HM' & HM0' & Hg).
  set (new_node := mkNode key vec node_layer (replicate (Z.to_nat (node_layer + 1)) [])) in *.
  assert (Hnew : degree_bounded (m_config s') (<[key := new_node]> (m_vectors s))).
  { apply (degree_bounded_config (m_config s)); [done..|].
    intros k lc H0. rewrite live_connections_insert. case_decide; [|by apply Hdeg].
    unfold new_node. rewrite adjacency_new_node.
    unfold max_connections, vsize. simpl. destruct (lc =? 0); lia. }
  destruct Hg as [->|[curr Hl]]; [done|].
  destruct (decide (0 ≤ node_layer + 1)) as [Hpos|Hneg].
  2: { replace (Z.to_nat (node_layer + 1)) with 0%nat in Hl by lia.
       simpl in Hl. injection Hl as <-. exact Hnew. }
  eapply (link_layers_degree _ _ _ _ _ _ _ _ _ _ _ Hnew _ Hl).
  Unshelve.
  - lia.
  - by rewrite HM'.
  - by rewrite HM0'.
  - intros lc' _. rewrite live_connections_insert, decide_True by done.
    apply adjacency_new_node.
Qed.

Lemma erase_layer_shrinks key (mv : gmap Z Node) lc :
  0 ≤ lc → shrinks_at lc mv (erase_layer key mv lc).
Proof.
  intros H0. unfold erase_layer. destruct (mv !! key) as [node|]; [|apply shrinks_at_refl].
  destruct (lc <? vsize (connections node)); [|apply shrinks_at_refl].
  apply for_each_connection_shrinks. intros x m. by apply disconnect_nodes_shrinks.
Qed.

Lemma erase_layers_shrink key lcs (mv : gmap Z Node) :
  Forall (λ lc, 0 ≤ lc) lcs → shrinks mv (fold_left (erase_layer key) lcs mv).
Proof.
  intros Hl. revert mv. induction Hl as [|lc lcs H0 _ IH]; intros mv; simpl.
  { intros k lc' _. lia. }
  eapply shrinks_trans; [|apply IH].
  by eapply shrinks_at_shrinks, erase_layer_shrinks.
Qed.

Lemma erase_keeps_degree key s s' :
  0 ≤ M (m_config s) → 0 ≤ M0 (m_config s) →
  degree_bounded (m_config s) (m_vectors s) →
  erase key s = Done tt s' →
  degree_bounded (m_config s') (m_vectors s') ∧ m_config s' = m_config s.
Proof.
  intros HM HM0 Hdeg. unfold erase.
  destruct (m_vectors s !! key) as [node|]; [|by intros [= <-]].
  intros [= <-]. rewrite save_to_storage_vectors, save_to_storage_config. simpl.
  set (mv' := fold_left (erase_layer key) (layers_upto (layer node)) (m_vectors s)).
  assert (Hres : degree_bounded (m_config s) (delete key mv')).
  { assert (Hsh : shrinks (m_vectors s) mv').
    { apply erase_layers_shrink. apply Forall_forall. intros lc.
      unfold layers_upto. rewrite elem_of_seqZ. lia. }
    intros k lc H0. rewrite live_connections_delete. case_decide.
    - unfold max_connections, vsize. simpl. destruct (lc =? 0); lia.
    - specialize (Hsh k lc H0). specialize (Hdeg k lc H0). lia. }
  destruct (key =? m_entry_point s); [|done].
  by destruct (rescan_entry_point (delete key mv')) as [k l].
Qed.


End Degrees.

Section SymmetryKept.
Context {F : Float64}.

(** The links of every node after [disconnect_nodes] on two nodes. *)
Lemma disconnect_nodes_live a b lc (mv : gmap Z Node) k lc' :
  0 ≤ lc → 0 ≤ lc' → is_Some (mv !! a) → is_Some (mv !! b) →
  live_connections k lc' (disconnect_nodes a b lc mv)
  = if decide (lc' = lc)
    then (if decide (k = b) then remove_edge a else id)
           ((if decide (k = a) then remove_edge b else id) (live_connections k lc mv))
    else live_connections k lc' mv.
Proof.
  intros H0 H0' [na Ha] [nb Hb]. unfold disconnect_nodes. rewrite Ha, Hb.
  rewrite !live_connections_lookup, !lookup_alter_cond.
  destruct (mv !! k) as [n|] eqn:Hk; simpl.
  2: { destruct (decide (k = a)) as [->|]; [congruence|].
       destruct (decide (k = b)) as [->|]; [congruence|]. by case_decide. }
  destruct (decide (a = k)) as [->|Hak], (decide (b = k)) as [->|Hbk];
    repeat (rewrite decide_True by done); repeat (rewrite decide_False by done); simpl;
    rewrite ?adjacency_remove_edge_guarded_any by done;
    repeat case_decide; subst; (done || lia || congruence).
Qed.

Lemma disconnect_nodes_absent a b lc (mv : gmap Z Node) :
  mv !! a = None ∨ mv !! b = None → disconnect_nodes a b lc mv = mv.
Proof.
  unfold disconnect_nodes. intros [-> | H2]; [done|]. rewrite H2. by destruct (mv !! a).
Qed.

Lemma symmetric_live (mv : gmap Z Node) :
  symmetric mv
  ↔ ∀ k n lc b, mv !! k = Some n → 0 ≤ lc ≤ layer n →
                (b ∈ live_connections k lc mv ↔ k ∈ live_connections b lc mv).
Proof.
  assert (Hb : ∀ k b lc, (∃ nb, mv !! b = Some nb ∧ k ∈ adjacency nb lc)
                         ↔ k ∈ live_connections b lc mv).
  { intros k b lc. rewrite live_connections_lookup. split.
    - by intros (nb & -> & ?).
    - destruct (mv !! b) as [nb|]; [by exists nb|by intros ?%elem_of_nil]. }
  split; intros H k n lc b Hk Hlc.
  - rewrite <- (Hb k b lc), (live_connections_lookup k), Hk. by apply H.
  - rewrite (Hb k b lc). specialize (H k n lc b Hk Hlc).
    by rewrite (live_connections_lookup k), Hk in H.
Qed.

Lemma elem_of_cond_add (c : Prop) `{!Decision c} a x (l : list Z) :
  x ∈ (if decide c then add_edge a else id) l ↔ (c ∧ x = a) ∨ x ∈ l.
Proof. case_decide; [rewrite elem_of_add_edge|simpl]; tauto. Qed.

Lemma elem_of_cond_remove (c : Prop) `{!Decision c} a x (l : list Z) :
  x ∈ (if decide c then remove_edge a else id) l ↔ ¬ (c ∧ x = a) ∧ x ∈ l.
Proof. case_decide; [rewrite elem_of_remove_edge|simpl]; tauto. Qed.


End SymmetryKept.

Section WellFormedKept.
Context {F : Float64}.

Lemma same_or_more_layers_refl (mv : gmap Z Node) : same_or_more_layers mv mv.
Proof. intros k. by destruct (mv !! k). Qed.

Lemma same_or_more_layers_trans (m1 m2 m3 : gmap Z Node) :
  same_or_more_layers m1 m2 → same_or_more_layers m2 m3 → same_or_more_layers m1 m3.
Proof.
  intros H1 H2 k. specialize (H1 k). specialize (H2 k).
  destruct (m1 !! k), (m2 !! k), (m3 !! k); try done.
  destruct H1 as [E1 L1], H2 as [E2 L2]. split; [congruence|lia].
Qed.

Lemma same_shape_more_layers (m1 m2 : gmap Z Node) :
  same_shape m1 m2 → same_or_more_layers m1 m2.
Proof.
  intros H k. specialize (H k). destruct (m1 !! k), (m2 !! k); try done.
  simpl in H. injection H as H1 H2 H3 H4. unfold node_data.
  split; [congruence|lia].
Qed.

Lemma alter_more_layers (f : Node → Node) i (mv : gmap Z Node) :
  (∀ n, node_data (f n) = node_data n
        ∧ (length (connections n) ≤ length (connections (f n)))%nat) →
  same_or_more_layers mv (alter f i mv).
Proof.
  intros Hf k. rewrite lookup_alter_cond. destruct (mv !! k) as [n|]; [|done]. simpl.
  case_decide; [apply Hf|done].
Qed.

Lemma connect_nodes_more_layers a b lc (mv : gmap Z Node) :
  same_or_more_layers mv (connect_nodes a b lc mv).
Proof.
  unfold connect_nodes.
  destruct (mv !! a); [|apply same_or_more_layers_refl].
  destruct (mv !! b); [|apply same_or_more_layers_refl].
  assert (Hg : ∀ l (n : Node), node_data (grow_connections l n) = node_data n
             ∧ (length (connections n) ≤ length (connections (grow_connections l n)))%nat).
  { intros l x. split; [done|]. simpl. rewrite length_app. lia. }
  assert (Hu : ∀ l f (n : Node), node_data (update_layer l f n) = node_data n
             ∧ (length (connections n) ≤ length (connections (update_layer l f n)))%nat).
  { intros l f x. split; [done|]. simpl. by rewrite length_alter. }
  do 3 (eapply same_or_more_layers_trans; [|by apply alter_more_layers]).
  by apply alter_more_layers.
Qed.

Lemma fold_left_more_layers {A} (f : gmap Z Node → A → gmap Z Node) l mv :
  (∀ m x, same_or_more_layers m (f m x)) → same_or_more_layers mv (fold_left f l mv).
Proof.
  intros Hf. revert mv. induction l as [|x l IH]; intros mv; simpl.
  - apply same_or_more_layers_refl.
  - eapply same_or_more_layers_trans; [apply Hf|apply IH].
Qed.

Lemma link_layers_more_layers n lc cfg key vec curr (mv mv' : gmap Z Node) :
  link_layers n lc cfg key vec curr mv = Some mv' → same_or_more_layers mv mv'.
Proof.
  revert lc curr mv. induction n as [|n IH]; intros lc curr mv; simpl.
  { intros [= <-]. apply same_or_more_layers_refl. }
  destruct (search_layer_with_distances cfg mv vec curr (ef_construction cfg) lc)
    as [cands|]; [|done]. simpl.
  intros Hl. apply IH in Hl.
  eapply same_or_more_layers_trans; [|exact Hl].
  eapply same_or_more_layers_trans.
  - apply (fold_left_more_layers (λ mv neighbor, connect_nodes key neighbor lc mv)).
    intros m x. apply connect_nodes_more_layers.
  - apply (fold_left_more_layers (λ mv neighbor, prune_connections cfg neighbor lc mv)).
    intros m x. apply same_shape_more_layers, prune_connections_shape.
Qed.

Lemma more_layers_well_formed (m1 m2 : gmap Z Node) :
  same_or_more_layers m1 m2 →
  map_Forall node_well_formed m1 → map_Forall node_well_formed m2.
Proof.
  intros H Hwf k n' Hn'. specialize (H k). rewrite Hn' in H.
  destruct (m1 !! k) as [n|] eqn:Hn; [|done]. destruct H as [Hd Hl].
  destruct (Hwf k n Hn) as (Hk & Hlay & Hsz). unfold node_data in Hd.
  unfold node_well_formed, vsize in *.
  replace (obj_key n') with (obj_key n) by congruence.
  replace (layer n') with (layer n) by congruence. split; [done|]. split; [done|lia].
Qed.

Lemma save_connections_next node lcs a :
  a_next a ≤ a_next (save_connections node lcs a).2.
Proof.
  revert a. induction lcs as [|lc lcs IH]; intros a; cbn [save_connections]; [done|].
  destruct (alloc_array _ a) as [r a1] eqn:Ha.
  specialize (IH a1). destruct (save_connections node lcs a1) as [rs a2].
  apply alloc_array_spec in Ha as (_ & Hn & _). simpl in *. lia.
Qed.

Lemma save_nodes_next nodes a : a_next a ≤ a_next (save_nodes nodes a).2.
Proof.
  revert a. induction nodes as [|p nodes IH]; intros a; cbn [save_nodes]; [done|].
  unfold save_node.
  destruct (alloc_array _ a) as [r1 a1] eqn:H1.
  destruct (alloc_array _ a1) as [r2 a2] eqn:H2.
  pose proof (save_connections_next p.2 (layers_upto (layer p.2)) a2) as H3.
  destruct (save_connections _ _ a2) as [rs a3].
  destruct (alloc_array _ a3) as [r4 a4] eqn:H4.
  specialize (IH a4). destruct (save_nodes nodes a4) as [rs' a5].
  apply alloc_array_spec in H1 as (_ & Hn1 & _).
  apply alloc_array_spec in H2 as (_ & Hn2 & _).
  apply alloc_array_spec in H4 as (_ & Hn4 & _). simpl in *. lia.
Qed.

(** [save_to_storage] leaves the new root below the next free ref. *)
Lemma save_to_storage_storage t :
  0 < a_next (m_alloc t) →
  0 < a_next (m_alloc (save_to_storage t))
  ∧ m_array (save_to_storage t) < a_next (m_alloc (save_to_storage t)).
Proof.
  intros Hpos. unfold save_to_storage.
  destruct (alloc_array _ _) as [r1 a1] eqn:H1.
  destruct (save_nodes _ a1) as [rs a2] eqn:H2.
  destruct (alloc_array _ a2) as [r3 a3] eqn:H3.
  apply alloc_array_spec in H1 as (_ & Hn1 & _ & _).
  pose proof (save_nodes_next (map_to_list (m_vectors t)) a1) as He2. rewrite H2 in He2.
  apply alloc_array_spec in H3 as (-> & Hn3 & _ & _).
  simpl in *. lia.
Qed.

Lemma insert_storage key (vec : list double) node_layer s s' :
  insert key vec node_layer s = Done tt s' → vsize vec ≠ 0 →
  ∃ t, s' = save_to_storage t ∧ m_alloc t = m_alloc s.
Proof.
  unfold insert. destruct (Z.eqb_spec (vsize vec) 0); [done|].
  unfold and_then at 1.
  destruct (validate_vector_dimension vec s) as [[] s1|e s1|] eqn:Hs1; [|done..].
  assert (Ha : m_alloc s1 = m_alloc s).
  { by destruct (validate_done _ _ _ Hs1) as [(_ & _ & ->)|(_ & ->)]. }
  destruct (is_empty s1).
  - intros [= <-] _. eexists. split; [done|]. by simpl.
  - unfold and_then, pure_step.
    destruct (greedy_descend _ _ _ _ _ _) as [curr|]; [|done].
    destruct (link_layers _ _ _ _ _ _ _) as [mv'|] eqn:Hl; [|done].
    intros [= <-] _. eexists. split; [done|]. by destruct (_ <? _).
Qed.

Lemma insert_keeps_well_formed key (vec : list double) node_layer s s' :
  well_formed s → 0 ≤ node_layer < 2 ^ 31 → vsize vec < 2 ^ 64 →
  final_state (insert key vec node_layer s) = Some s' →
  well_formed s'.
Proof.
  intros Hwf Hl Hvs [->|(Hv & HD & Hs')]%insert_final; [done|].
  destruct (insert_outcome key vec node_layer s Hv HD) as (s'' & Hs'' & _ & Hcfg & _ & He2).
  rewrite Hs' in Hs''. injection Hs'' as <-.
  destruct (insert_outcome_graph _ _ _ _ _ Hs' Hv) as (_ & _ & Hg).
  destruct (insert_storage _ _ _ _ _ Hs' Hv) as (t & Ht & Ha).
  destruct Hwf as [Hnodes Hel Hdim Hnext Hroot].
  set (new_node := mkNode key vec node_layer (replicate (Z.to_nat (node_layer + 1)) [])) in *.
  assert (Hnew : map_Forall node_well_formed (<[key := new_node]> (m_vectors s))).
  { apply map_Forall_insert_2; [|done]. unfold node_well_formed, vsize. simpl.
    rewrite length_replicate. lia. }
  destruct (save_to_storage_storage t) as [Hn' Hr']; [by rewrite Ha|].
  rewrite <- Ht in Hn', Hr'.
  constructor; [| | |done|done].
  - destruct Hg as [->|[curr Hlink]]; [done|].
    eapply more_layers_well_formed; [|exact Hnew]. by eapply link_layers_more_layers.
  - rewrite He2. destruct (_ || _); lia.
  - rewrite Hcfg. simpl. unfold vsize in *. lia.
Qed.

Lemma erase_storage key s s' :
  erase key s = Done tt s' →
  s' = s ∨ ∃ t, s' = save_to_storage t ∧ m_alloc t = m_alloc s.
Proof.
  unfold erase. destruct (m_vectors s !! key) as [node|]; [|intros [= <-]; by left].
  intros [= <-]. right. eexists. split; [done|].
  destruct (_ =? _); [|done]. by destruct (rescan_entry_point _).
Qed.

Lemma erase_keeps_well_formed key s s' :
  well_formed s → erase key s = Done tt s' → well_formed s'.
Proof.
  intros Hwf Hs'. destruct (m_vectors s !! key) as [node|] eqn:Hk.
  2: { rewrite erase_absent in Hs' by done. by injection Hs' as <-. }
  destruct (erase_outcome key s node Hk) as (s'' & mv' & Hs'' & Hsh & Hmv & Hcfg & He).
  rewrite Hs' in Hs''. injection Hs'' as <-.
  destruct (erase_storage _ _ _ Hs') as [->|(t & Ht & Ha)]; [done|].
  destruct Hwf as [Hnodes Hel Hdim Hnext Hroot].
  destruct (save_to_storage_storage t) as [Hn' Hr']; [by rewrite Ha|].
  rewrite <- Ht in Hn', Hr'.
  assert (Hnodes' : map_Forall node_well_formed (delete key mv')).
  { apply map_Forall_delete. eapply more_layers_well_formed; [|exact Hnodes].
    by apply same_shape_more_layers. }
  constructor; [by rewrite Hmv| |by rewrite Hcfg|done|done].
  destruct (key =? m_entry_point s); [|injection He as _ He2; by rewrite He2].
  assert (Hkl : keys_and_layers (delete key mv')).
  { intros k n Hn. destruct (Hnodes' k n Hn) as (? & ? & _). split; [done|lia]. }
  destruct (rescan_entry_point_spec (delete key mv') Hkl) as [[_ Hr]|(n & Hn & Hl & _)].
  - rewrite Hr in He. injection He as _ He2. rewrite He2. lia.
  - destruct (rescan_entry_point (delete key mv')) as [k l]. injection He as _ He2.
    rewrite He2. simpl in *. destruct (Hnodes' k n Hn) as (_ & ? & _). lia.
Qed.

(** X23: the mutating operations keep the index well-formed (nodes stored
    under their own key with all their layers of links, numbers within
    their C++ types, the root below the next free ref), whether they return
    or throw: what the persistence round trip asks of an index holds again
    after each of them. *)
Theorem well_formed_kept
    (s s' : HNSWIndex) (key : Z) (vec : list double) (node_layer : Z) :
  well_formed s →
  0 ≤ node_layer < 2 ^ 31 →
  vsize vec < 2 ^ 64 →
  final_state (insert key vec node_layer s) = Some s'
  ∨ final_state (erase key s) = Some s'
  ∨ final_state (set key vec node_layer s) = Some s'
  ∨ final_state (clear s) = Some s' →
  well_formed s'.
Proof.
  intros Hwf Hl Hv [H|[H|[H|H]]].
  - by eapply insert_keeps_well_formed.
  - destruct (erase_returns key s) as (s1 & Hs1 & _). rewrite Hs1 in H.
    injection H as <-. by eapply erase_keeps_well_formed.
  - apply set_final in H as (s1 & Hs1 & H).
    eapply insert_keeps_well_formed; [|done|done|exact H].
    by eapply erase_keeps_well_formed.
  - unfold clear in H. simpl in H. injection H as <-.
    destruct Hwf as [Hnodes Hel Hdim Hnext Hroot].
    destruct (save_to_storage_storage (with_entry null_key (-1) (with_vectors ∅ s)))
      as [Hn' Hr']; [done|].
    constructor; [| | |done|done].
    + rewrite save_to_storage_vectors. apply map_Forall_empty.
    + destruct (save_to_storage_entry (with_entry null_key (-1) (with_vectors ∅ s)))
        as [_ ->]. simpl. lia.
    + by rewrite save_to_storage_config.
Qed.

(** X24: an index created on an arena whose next ref is positive, with
    a dimension within [size_t] and [M], [M0] not negative, is well-formed
    and within the degree bounds: the invariants that the mutating
    operations keep hold from the start. *)
Theorem created_index_well_formed (alloc : Alloc) (config : HNSWIndexConfig) :
  0 < a_next alloc →
  0 ≤ vector_dimension config < 2 ^ 64 →
  0 ≤ M config →
  0 ≤ M0 config →
  well_formed (HNSWIndex_create alloc config)
  ∧ degree_bounded (m_config (HNSWIndex_create alloc config))
                   (m_vectors (HNSWIndex_create alloc config))
  ∧ 0 ≤ M (m_config (HNSWIndex_create alloc config))
  ∧ 0 ≤ M0 (m_config (HNSWIndex_create alloc config)).
Proof.
  intros Hpos HD HM HM0. unfold HNSWIndex_create, alloc_array. simpl.
  assert (H0 : 0 ≤ (if M0 config =? 0 then to_size_t (M config * 2) else M0 config)).
  { destruct (M0 config =? 0); [|done]. unfold to_size_t. apply Z.mod_pos_bound. lia. }
  split; [|split; [|split; [done|done]]].
  - constructor; simpl; [apply map_Forall_empty|lia|done|lia|lia].
  - intros k lc Hlc. rewrite live_connections_lookup, lookup_empty.
    unfold max_connections, vsize. simpl. destruct (lc =? 0); lia.
Qed.

End WellFormedKept.

Section Exceptions.
Context {F : Float64}.

Lemma validate_raise (v : list double) s e s' :
  validate_vector_dimension v s = Raise e s'
  ↔ vector_dimension (m_config s) ≠ 0
    ∧ vsize v ≠ vector_dimension (m_config s)
    ∧ e = DimensionMismatch (vector_dimension (m_config s)) (vsize v)
    ∧ s' = s.
Proof.
  unfold validate_vector_dimension.
  destruct (Z.eqb_spec (vector_dimension (m_config s)) 0) as [H0|H0].
  { split; [done|]. by intros (? & _). }
  destruct (Z.eqb_spec (vsize v) (vector_dimension (m_config s))) as [Heq|Hne]; simpl.
  - split; [done|]. by intros (_ & ? & _).
  - split.
    + by intros [= <- <-].
    + by intros (_ & _ & -> & ->).
Qed.

Lemma insert_raise key (vec : list double) node_layer s e s' :
  insert key vec node_layer s = Raise e s'
  ↔ vsize vec ≠ 0
    ∧ vector_dimension (m_config s) ≠ 0
    ∧ vsize vec ≠ vector_dimension (m_config s)
    ∧ e = DimensionMismatch (vector_dimension (m_config s)) (vsize vec)
    ∧ s' = s.
Proof.
  split.
  - intros Hr. destruct (Z.eqb_spec (vsize vec) 0) as [H0|H0].
    { unfold insert in Hr. by rewrite (proj2 (Z.eqb_eq _ _) H0) in Hr. }
    split; [done|].
    destruct (validate_vector_dimension vec s) as [[] s1|e1 s1|] eqn:Hv.
    + apply validate_done in Hv as Hacc.
      destruct (insert_outcome key vec node_layer s H0) as (s2 & Hs2 & _).
      { destruct Hacc as [(_ & ? & _)|(? & _)]; [by right|by left]. }
      by rewrite Hs2 in Hr.
    + apply validate_raise in Hv as (HD & Hne & -> & ->).
      rewrite insert_mismatch in Hr by done. by injection Hr as <- <-.
    + exfalso. revert Hv. unfold validate_vector_dimension.
      destruct (_ =? 0); [done|]. by destruct (negb _).
  - intros (H0 & HD & Hne & -> & ->). by apply insert_mismatch.
Qed.

Lemma insert_not_stuck key (vec : list double) node_layer s :
  insert key vec node_layer s ≠ Stuck.
Proof.
  intros Hs. assert (Hf : final_state (insert key vec node_layer s) = None) by (by rewrite Hs).
  destruct (Z.eqb_spec (vsize vec) 0) as [H0|H0].
  { unfold insert in Hs. by rewrite (proj2 (Z.eqb_eq _ _) H0) in Hs. }
  destruct (Z.eqb_spec (vector_dimension (m_config s)) 0) as [HD|HD].
  { destruct (insert_outcome key vec node_layer s H0 (or_introl HD)) as (s2 & Hs2 & _).
    by rewrite Hs2 in Hs. }
  destruct (Z.eqb_spec (vsize vec) (vector_dimension (m_config s))) as [Heq|Hne].
  { destruct (insert_outcome key vec node_layer s H0 (or_intror Heq)) as (s2 & Hs2 & _).
    by rewrite Hs2 in Hs. }
  by rewrite insert_mismatch in Hs.
Qed.

Lemma search_knn_raise (q : list double) k ef s e s' :
  search_knn q k ef s = Raise e s'
  ↔ is_empty s = false ∧ m_entry_point s ≠ null_key ∧ k ≠ 0
    ∧ vector_dimension (m_config s) ≠ 0
    ∧ vsize q ≠ vector_dimension (m_config s)
    ∧ e = DimensionMismatch (vector_dimension (m_config s)) (vsize q)
    ∧ s' = s.
Proof.
  split.
  - destruct (search_knn_outcome q k ef s)
      as [->|[[e1 He1]|(s1 & curr & r & _ & _ & _ & _ & _ & _ & ->)]]; [done| |done].
    rewrite He1. intros [= <- <-]. revert He1. rewrite search_knn_unfold.
    destruct (is_empty s); [done|]. cbn [orb].
    destruct (Z.eqb_spec (m_entry_point s) null_key); [done|].
    destruct (Z.eqb_spec k 0); [done|].
    destruct (validate_vector_dimension q s) as [[] s1|e2 s1|] eqn:Hv.
    + destruct (greedy_descend _ _ _ _ _ _); [|done].
      by destruct (search_layer_with_distances _ _ _ _ _ _).
    + intros [= -> _]. by apply validate_raise in Hv as (? & ? & ? & _).
    + done.
  - intros (He & Hep & Hk & HD & Hne & -> & ->).
    rewrite search_knn_unfold, He. cbn [orb].
    destruct (Z.eqb_spec (m_entry_point s) null_key); [done|].
    destruct (Z.eqb_spec k 0); [done|]. by rewrite validate_mismatch.
Qed.

Lemma search_knn_not_stuck (q : list double) k ef s : search_knn q k ef s ≠ Stuck.
Proof.
  by destruct (search_knn_outcome q k ef s)
    as [->|[[e1 ->]|(s1 & curr & r & _ & _ & _ & _ & _ & _ & ->)]].
Qed.


End Exceptions.

Section EraseEdges.
Context {F : Float64}.

Lemma remove_edge_idem k (conn : list Z) :
  remove_edge k (remove_edge k conn) = remove_edge k conn.
Proof.
  unfold remove_edge. induction conn as [|x conn IH]; [done|].
  destruct (decide (x ≠ k)) as [Hx|Hx].
  - rewrite (filter_cons_True _ x conn Hx), filter_cons_True by done. by rewrite IH.
  - by rewrite (filter_cons_False _ x conn Hx).
Qed.

Lemma only_unlinks_refl key (mv : gmap Z Node) : only_unlinks key mv mv.
Proof. intros k lc _ _. by left. Qed.

Lemma only_unlinks_trans key (m1 m2 m3 : gmap Z Node) :
  only_unlinks key m1 m2 → only_unlinks key m2 m3 → only_unlinks key m1 m3.
Proof.
  intros H1 H2 k lc Hk H0.
  destruct (H1 k lc Hk H0) as [E1|E1], (H2 k lc Hk H0) as [E2|E2]; rewrite E2, E1;
    [by left|by right|by right|right; apply remove_edge_idem].
Qed.

Lemma disconnect_nodes_only_unlinks key x lc (mv : gmap Z Node) :
  0 ≤ lc → only_unlinks key mv (disconnect_nodes key x lc mv).
Proof.
  intros H0 k lc' Hk H0'.
  destruct (mv !! key) as [nk|] eqn:Hkey;
    [|rewrite disconnect_nodes_absent by (by left); by left].
  destruct (mv !! x) as [nx|] eqn:Hx;
    [|rewrite disconnect_nodes_absent by (by right); by left].
  rewrite disconnect_nodes_live by (done || by eexists).
  case_decide; [|by left]. subst lc'.
  rewrite (decide_False (P := k = key)) by done. simpl.
  case_decide; [by right|by left].
Qed.

Lemma range_for_live_only_unlinks key steps i cells owner lc body (mv : gmap Z Node) :
  (∀ x m, only_unlinks key m (body x m)) →
  only_unlinks key mv (range_for_live steps i cells owner lc body mv).
Proof.
  intros Hb. revert i cells mv. induction steps as [|steps IH]; intros i cells mv; simpl.
  { apply only_unlinks_refl. }
  destruct (cells !! i) as [x|]; [|apply only_unlinks_refl].
  eapply only_unlinks_trans; [apply Hb|apply IH].
Qed.

Lemma erase_layer_only_unlinks key (mv : gmap Z Node) lc :
  0 ≤ lc → only_unlinks key mv (erase_layer key mv lc).
Proof.
  intros H0. unfold erase_layer. destruct (mv !! key) as [node|]; [|apply only_unlinks_refl].
  destruct (lc <? vsize (connections node)); [|apply only_unlinks_refl].
  unfold for_each_connection. apply range_for_live_only_unlinks.
  intros x m. by apply disconnect_nodes_only_unlinks.
Qed.

Lemma erase_layers_only_unlinks key lcs (mv : gmap Z Node) :
  Forall (λ lc, 0 ≤ lc) lcs → only_unlinks key mv (fold_left (erase_layer key) lcs mv).
Proof.
  intros Hl. revert mv. induction Hl as [|lc lcs H0 _ IH]; intros mv; simpl.
  { apply only_unlinks_refl. }
  eapply only_unlinks_trans; [by apply erase_layer_only_unlinks|apply IH].
Qed.

(** The layers that the loop of [erase] does not visit keep their links. *)
Lemma erase_layers_other_layers key lcs (mv : gmap Z Node) k lc' :
  Forall (λ lc, 0 ≤ lc) lcs → 0 ≤ lc' → lc' ∉ lcs →
  live_connections k lc' (fold_left (erase_layer key) lcs mv) = live_connections k lc' mv.
Proof.
  intros Hl H0' Hnin. revert mv. induction Hl as [|lc lcs H0 _ IH]; intros mv; simpl; [done|].
  rewrite IH.
  - destruct (erase_layer_shrinks key mv lc H0 k lc' H0') as [E _]. apply E.
    intros ->. apply Hnin. left.
  - intros Hin. apply Hnin. by right.
Qed.

(** X26: [erase] edits no edge between two remaining nodes: the adjacency
    of a remaining node on a layer is what it was, or that without the
    erased key; on the layers above the erased node's top layer it is what
    it was. *)
Theorem erase_touches_only_its_edges (s : HNSWIndex) (key : Z) :
  ∃ s', erase key s = Done tt s'
        ∧ (∀ k lc, k ≠ key → 0 ≤ lc →
             live_connections k lc (m_vectors s') = live_connections k lc (m_vectors s)
             ∨ live_connections k lc (m_vectors s')
               = remove_edge key (live_connections k lc (m_vectors s)))
        ∧ (∀ node k lc, m_vectors s !! key = Some node → k ≠ key →
             0 ≤ lc → layer node < lc →
             live_connections k lc (m_vectors s') = live_connections k lc (m_vectors s)).
Proof.
  destruct (m_vectors s !! key) as [node|] eqn:Hk.
  2: { exists s. rewrite erase_absent by done. split; [done|]. split; [by left|done]. }
  assert (Hl : Forall (λ lc, 0 ≤ lc) (layers_upto (layer node))).
  { apply Forall_forall. intros lc. unfold layers_upto. rewrite elem_of_seqZ. lia. }
  set (mv' := fold_left (erase_layer key) (layers_upto (layer node)) (m_vectors s)).
  assert (Hs' : ∃ s', erase key s = Done tt s' ∧ m_vectors s' = delete key mv').
  { unfold erase. rewrite Hk. eexists. split; [reflexivity|].
    rewrite save_to_storage_vectors. fold mv'. simpl.
    destruct (key =? m_entry_point s); [|done].
    by destruct (rescan_entry_point (delete key mv')). }
  destruct Hs' as (s' & Hs' & Hmv). exists s'. split; [done|]. split.
  - intros k lc Hne H0. rewrite Hmv, live_connections_delete, decide_False by done.
    by apply erase_layers_only_unlinks.
  - intros node' k lc [= <-] Hne H0 Hlt.
    rewrite Hmv, live_connections_delete, decide_False by done.
    apply erase_layers_other_layers; [done|done|].
    unfold layers_upto. rewrite elem_of_seqZ. lia.
Qed.

End EraseEdges.

Section ExhaustiveSearch.
Context {F : Float64}.

Lemma keys_within (l : list Z) (mv : gmap Z Node) :
  NoDup l → (∀ k, k ∈ l → is_Some (mv !! k)) →
  (length l ≤ size mv)%nat
  ∧ ((size mv ≤ length l)%nat → ∀ k, is_Some (mv !! k) → k ∈ l).
Proof.
  intros Hnd Hin.
  assert (Hsub : (list_to_set l : gset Z) ⊆ dom mv).
  { intros k Hk%elem_of_list_to_set. by apply elem_of_dom, Hin. }
  pose proof (subseteq_size _ _ Hsub) as Hsz.
  rewrite size_list_to_set, size_dom in Hsz by done.
  split; [done|]. intros Hge k Hk.
  assert (Heq : (list_to_set l : gset Z) = dom mv).
  { apply set_subseteq_size_eq; [done|]. rewrite size_list_to_set, size_dom by done. lia. }
  apply (elem_of_list_to_set (C := gset Z)). rewrite Heq. by apply elem_of_dom.
Qed.

Lemma frontier_keys_nodes cfg mv (q : list double) fr :
  frontier_sound cfg mv q fr → ∀ k, k ∈ cand_key <$> w_set fr → is_Some (mv !! k).
Proof.
  intros (_ & Hw & _) k (c & -> & Hc)%list_elem_of_fmap.
  rewrite Forall_forall in Hw. destruct (Hw c Hc) as (n & Hn & _). by exists n.
Qed.

Lemma frontier_complete_visited mv lc cur cs w vis k :
  mv !! k = None →
  frontier_complete mv lc cur (mkFrontier cs w vis) →
  frontier_complete mv lc cur (mkFrontier cs w ({[k]} ∪ vis)).
Proof.
  intros Hk [H1 H2]. split; simpl in *.
  - intros x [->%elem_of_singleton|Hx]%elem_of_union Hs; [|by apply H1].
    rewrite Hk in Hs. by destruct Hs.
  - intros x Hx. destruct (H2 x Hx) as [?|[?|He]]; [by left|by right; left|].
    right; right. intros b Hb. apply elem_of_union. right. by apply He.
Qed.

(** With room for every node in [w], the neighbour loop puts every
    neighbour that is a node into [w] and marks them all visited. *)
Lemma visit_neighbors_complete cfg mv (q : list double) ef lc cur nbs fr fr' :
  Z.of_nat (size mv) ≤ ef →
  frontier_sound cfg mv q fr →
  frontier_complete mv lc cur fr →
  visit_neighbors cfg mv q ef nbs fr = Some fr' →
  frontier_complete mv lc cur fr'
  ∧ (∀ k, k ∈ visited fr → k ∈ visited fr')
  ∧ (∀ b, b ∈ nbs → b ∈ visited fr').
Proof.
  intros Hef. revert fr. induction nbs as [|nb nbs IH]; intros fr Hs Hc; simpl.
  { intros [= <-]. split; [done|]. split; [done|]. by intros b ?%elem_of_nil. }
  case_bool_decide as Hnb.
  { intros Hv. destruct (IH fr Hs Hc Hv) as (Hc' & Hmono & Hall).
    split; [done|]. split; [done|].
    intros b [->|Hb]%elem_of_cons; [by apply Hmono|by apply Hall]. }
  destruct fr as [cs w vis]. simpl in *.
  assert (Hstep : ∀ fr1, frontier_sound cfg mv q fr1 → frontier_complete mv lc cur fr1 →
            (∀ k, k ∈ ({[nb]} ∪ vis : gset Z) → k ∈ visited fr1) →
            visit_neighbors cfg mv q ef nbs fr1 = Some fr' →
            frontier_complete mv lc cur fr'
            ∧ (∀ k, k ∈ vis → k ∈ visited fr')
            ∧ (∀ b, b ∈ nb :: nbs → b ∈ visited fr')).
  { intros fr1 Hs1 Hc1 Hvis1 Hv. destruct (IH fr1 Hs1 Hc1 Hv) as (Hc' & Hmono & Hall).
    split; [done|]. split.
    - intros k Hk. apply Hmono, Hvis1, elem_of_union. by right.
    - intros b [->|Hb]%elem_of_cons; [|by apply Hall].
      apply Hmono, Hvis1, elem_of_union. left. by apply elem_of_singleton. }
  destruct (mv !! nb) as [nn|] eqn:Hnn.
  2: { apply Hstep; [by apply frontier_sound_visited|by apply frontier_complete_visited|done]. }
  destruct (pq_top cand_less w) as [wt|]; [|done].
  pose proof (frontier_keys_nodes _ _ _ _ Hs) as Hnodes. simpl in Hnodes.
  destruct Hs as (Hcs & Hw & Hnd & Hvis). simpl in *.
  assert (Hfresh : nb ∉ cand_key <$> w).
  { intros (x & -> & Hx)%list_elem_of_fmap. by apply Hnb, Hvis. }
  assert (Hlen : (S (length w) ≤ size mv)%nat).
  { destruct (keys_within (nb :: (cand_key <$> w)) mv) as [Hle _].
    - by constructor.
    - intros k [->|Hk]%elem_of_cons; [by eexists|by apply Hnodes].
    - simpl in Hle. by rewrite length_fmap in Hle. }
  replace (vsize w <? ef) with true
    by (symmetry; apply Z.ltb_lt; unfold vsize; lia).
  rewrite orb_true_r. unfold pq_push.
  replace (ef <? vsize (mkCand nb (compute_distance cfg q (vector nn)) :: w)) with false
    by (symmetry; apply Z.ltb_ge; unfold vsize; simpl; lia).
  set (c := mkCand nb _).
  apply Hstep; [| |done].
  - split; [constructor; [by exists nn|done]|]. simpl.
    split; [constructor; [by exists nn|done]|].
    split; [simpl; by constructor|].
    intros x [->|Hx]%elem_of_cons; apply elem_of_union;
      [left; by apply elem_of_singleton|right; by apply Hvis].
  - destruct Hc as [H1 H2]. split; simpl in *.
    + intros k [->%elem_of_singleton|Hk]%elem_of_union Hsome; [left|right; by apply H1].
    + intros k [->|Hk]%elem_of_cons; [right; left; left|].
      destruct (H2 k Hk) as [?|[?|He]]; [by left|right; left; by right|].
      right; right. intros b Hb. apply elem_of_union. right. by apply He.
Qed.

(** With room for every node in [w], the result of the search loop holds
    the visited nodes and is closed under the links of the layer. *)
Lemma search_loop_complete fuel cfg mv (q : list double) ef lc fr w :
  Z.of_nat (size mv) ≤ ef →
  frontier_sound cfg mv q fr →
  frontier_complete mv lc None fr →
  search_loop fuel cfg mv q ef lc fr = Some w →
  (∀ k, k ∈ visited fr → is_Some (mv !! k) → k ∈ cand_key <$> w)
  ∧ (∀ k b, k ∈ cand_key <$> w → links_to mv lc k b → b ∈ cand_key <$> w).
Proof.
  intros Hef. revert fr. induction fuel as [|fuel IH]; intros fr Hs Hc; simpl; [done|].
  destruct (pq_extract cand_greater (candidates fr)) as [[current rest]|] eqn:He.
  2: { intros [= <-]. apply pq_extract_none in He. destruct Hc as [H1 H2].
       split; [done|]. intros k b Hk Hb.
       destruct (H2 k Hk) as [?|[Hin|Hex]]; [done|by rewrite He in Hin; apply elem_of_nil in Hin|].
       apply H1; [by apply Hex|apply Hb]. }
  destruct (pq_top cand_less (w_set fr)) as [wt|]; [|done].
  destruct (d_lt _ _ && _) eqn:Hbreak.
  { intros [= <-]. apply andb_true_iff in Hbreak as [_ Hfull%Z.leb_le].
    destruct Hc as [H1 _]. split; [done|]. intros k b _ [_ Hb].
    pose proof (frontier_keys_nodes _ _ _ _ Hs) as Hnodes.
    destruct Hs as (_ & _ & Hnd & _).
    destruct (keys_within (cand_key <$> w_set fr) mv Hnd) as [_ Hall].
    - exact Hnodes.
    - apply Hall; [|done]. rewrite length_fmap. unfold vsize in Hfull. lia. }
  apply pq_extract_perm in He.
  assert (Hs0 : frontier_sound cfg mv q (mkFrontier rest (w_set fr) (visited fr))).
  { destruct Hs as (Hcs & ? & ? & ?). split; [|done].
    rewrite He in Hcs. by apply Forall_cons in Hcs as [_ ?]. }
  assert (Hcur : candidate_of_node cfg mv q current).
  { destruct Hs as (Hcs & _). rewrite He in Hcs. by apply Forall_cons in Hcs as [? _]. }
  assert (Hc0 : frontier_complete mv lc (Some (cand_key current))
                  (mkFrontier rest (w_set fr) (visited fr))).
  { destruct Hc as [H1 H2]. split; [done|]. simpl. intros k Hk.
    destruct (H2 k Hk) as [?|[Hin|Hex]]; [done| |by right; right].
    rewrite He in Hin. simpl in Hin.
    apply elem_of_cons in Hin as [->|Hin]; [by left|by right; left]. }
  assert (Hclose : ∀ fr1,
            frontier_complete mv lc (Some (cand_key current)) fr1 →
            (∀ b, links_to mv lc (cand_key current) b → b ∈ visited fr1) →
            frontier_complete mv lc None fr1).
  { intros fr1 [H1 H2] Hex. split; [done|]. intros k Hk.
    destruct (H2 k Hk) as [[= <-]|[?|?]]; [by right; right|by right; left|by right; right]. }
  destruct Hcur as (node & Hnode & _). simpl in Hnode. rewrite Hnode.
  destruct (conn_at node lc) as [nbs|] eqn:Hconn.
  2: { intros Hl. apply (IH _ Hs0) in Hl; [done|].
       apply Hclose; [done|]. intros b [Hb _].
       rewrite live_connections_lookup, Hnode in Hb. unfold adjacency in Hb.
       rewrite Hconn in Hb. by apply elem_of_nil in Hb. }
  destruct (visit_neighbors _ _ _ _ _ _) as [fr''|] eqn:Hv; [|done].
  destruct (visit_neighbors_complete _ _ _ _ _ _ _ _ _ Hef Hs0 Hc0 Hv) as (Hc'' & Hmono & Hall).
  intros Hl. apply IH in Hl as [R1 R2].
  - split; [|done]. intros k Hk. by apply R1, Hmono.
  - by eapply visit_neighbors_sound.
  - apply Hclose; [done|]. intros b [Hb _]. apply Hall.
    rewrite live_connections_lookup, Hnode in Hb. unfold adjacency in Hb.
    by rewrite Hconn in Hb.
Qed.

(** A layer search whose candidate set can hold every node returns every
    node that can be reached from the entry point by links of the layer. *)
Lemma search_layer_with_distances_complete cfg mv (q : list double) entry ef lc r b :
  Z.of_nat (size mv) ≤ ef →
  entry ≠ null_key → is_Some (mv !! entry) →
  search_layer_with_distances cfg mv q entry ef lc = Some r →
  rtc (links_to mv lc) entry b → b ∈ r.*1.
Proof.
  intros Hef Hne [en Hen]. unfold search_layer_with_distances.
  destruct (Z.eqb_spec entry null_key) as [|_]; [done|].
  destruct (Nat.eqb_spec (size mv) 0) as [H0|_].
  { apply map_size_empty_iff in H0. subst. by rewrite lookup_empty in Hen. }
  cbn [orb]. rewrite Hen.
  set (c := mkCand entry _).
  destruct (search_loop _ _ _ _ _ _ _) as [w|] eqn:Hw; [|done]. simpl. intros [= <-].
  apply search_loop_complete in Hw as [R1 R2]; [|done| |].
  2: { assert (Hc : candidate_of_node cfg mv q c) by (by exists en).
       split; [by repeat constructor|]. split; [by repeat constructor|]. simpl.
       split; [apply NoDup_singleton|].
       intros x ->%list_elem_of_singleton. simpl. by apply elem_of_singleton. }
  2: { split; simpl.
       - intros k ->%elem_of_singleton _. left.
       - intros k Hk. right. by left. }
  assert (Hkeys : ∀ k, k ∈ (reverse (drain (length w) w)).*1 ↔ k ∈ cand_key <$> w).
  { intros k. rewrite fmap_reverse, elem_of_reverse, drain_perm, <- list_fmap_compose. done. }
  intros Hrtc. apply Hkeys. revert b Hrtc.
  apply (rtc_ind_r (λ b, b ∈ cand_key <$> w) entry).
  - apply R1; [by apply elem_of_singleton|by eexists].
  - intros y z _ Hyz Hy. by apply (R2 y z).
Qed.

Lemma keys_cover (l : list Z) (mv : gmap Z Node) :
  NoDup l → (∀ k, is_Some (mv !! k) → k ∈ l) → (size mv ≤ length l)%nat.
Proof.
  intros Hnd Hall.
  assert (Hsub : dom mv ⊆ (list_to_set l : gset Z)).
  { intros k Hk%elem_of_dom. by apply elem_of_list_to_set, Hall. }
  pose proof (subseteq_size _ _ Hsub) as Hsz.
  by rewrite size_list_to_set, size_dom in Hsz.
Qed.

(** A [search_knn] that asks for every node with room for every node
    searches layer 0 with a candidate set of [count()], and returns all of
    what that search finds. *)
Lemma search_knn_exhaustive_run (s s1 : HNSWIndex) (q : list double) (k ef : Z) :
  m_vectors s !! null_key = None →
  is_Some (m_vectors s !! m_entry_point s) →
  count s ≤ k →
  ef = 0 ∨ count s ≤ ef →
  validate_vector_dimension q s = Done tt s1 →
  ∃ curr r,
    is_Some (m_vectors s !! curr)
    ∧ search_knn q k ef s = Done r s1
    ∧ Forall (result_of_node (m_config s) (m_vectors s) q) r
    ∧ NoDup r.*1
    ∧ ∀ b, rtc (links_to (m_vectors s) 0) curr b → b ∈ r.*1.
Proof.
  intros Hnull [en Hen] Hk Hef Hv.
  assert (Hep : m_entry_point s ≠ null_key) by (intros Heq; by rewrite Heq, Hnull in Hen).
  assert (Hsz : size (m_vectors s) ≠ 0%nat).
  { intros H0%map_size_empty_iff. by rewrite H0, lookup_empty in Hen. }
  rewrite search_knn_unfold. unfold is_empty.
  destruct (Nat.eqb_spec (size (m_vectors s)) 0); [done|]. cbn [orb].
  destruct (Z.eqb_spec (m_entry_point s) null_key); [done|].
  destruct (Z.eqb_spec k 0); [unfold count in Hk; lia|].
  rewrite Hv.
  apply validate_done_distance in Hv as (Hmv & Hep1 & Hl1 & Hd).
  assert (Hc1 : count s1 = count s) by (unfold count; by rewrite Hmv).
  destruct (greedy_descend_node (Z.to_nat (m_entry_point_layer s1))
              (m_entry_point_layer s1) (m_config s1) (m_vectors s1) q (m_entry_point s1))
    as (curr & -> & Hcurr); [by rewrite Hmv|rewrite Hmv, Hep1; by eexists|].
  assert (Heff : effective_ef (m_config s1) k ef (count s1) = count s).
  { unfold effective_ef. rewrite Hc1. destruct (Z.eqb_spec ef 0); lia. }
  rewrite Heff.
  destruct (search_layer_with_distances_total (m_config s1) (m_vectors s1) q curr (count s) 0)
    as (r & Hr & _).
  rewrite Hr.
  pose proof (search_layer_with_distances_sound _ _ _ _ _ _ _ Hr) as [Hf Hnd].
  assert (Hnodes : ∀ x, x ∈ r.*1 → is_Some (m_vectors s1 !! x)).
  { intros x (p & -> & Hp)%list_elem_of_fmap. rewrite Forall_forall in Hf.
    destruct (Hf p Hp) as (pn & Hpn & _). by exists pn. }
  destruct (keys_within (r.*1) (m_vectors s1) Hnd Hnodes) as [Hle _].
  rewrite length_fmap in Hle.
  assert (Htake : take (Z.to_nat (effective_k k (count s1))) r = r).
  { apply take_ge. unfold effective_k, count in *. rewrite Hmv in *. lia. }
  rewrite Htake.
  assert (Hcne : curr ≠ null_key).
  { intros ->. rewrite Hmv, Hnull in Hcurr. by destruct Hcurr. }
  exists curr, r. rewrite <- Hmv. split; [done|]. split; [done|]. split; [|split; [done|]].
  - eapply Forall_impl; [exact Hf|]. intros p. by apply result_of_node_config.
  - intros b Hb.
    eapply search_layer_with_distances_complete; [| | |exact Hr|exact Hb];
      [unfold count; by rewrite Hmv|done|done].
Qed.

(** X27: when [k] is at least [count()] and the candidate-set size is not
    cut below [count()] (no [ef_search] supplied, or one of at least
    [count()]), [search_knn] returns every node that can be reached on
    layer 0 from the node where the descent through the upper layers ends;
    on a graph whose layer 0 connects all nodes it returns all nodes. *)
Theorem search_knn_exhaustive
    (s : HNSWIndex) (q : list double) (k ef : Z) (l : list (Z * double)) (s' : HNSWIndex) :
  m_vectors s !! null_key = None →
  is_Some (m_vectors s !! m_entry_point s) →
  count s ≤ k →
  ef = 0 ∨ count s ≤ ef →
  search_knn q k ef s = Done l s' →
  (∃ curr, is_Some (m_vectors s !! curr)
           ∧ ∀ b, rtc (links_to (m_vectors s) 0) curr b → b ∈ l.*1)
  ∧ ((∀ a b, is_Some (m_vectors s !! a) → is_Some (m_vectors s !! b) →
             rtc (links_to (m_vectors s) 0) a b) →
     vsize l = count s ∧ ∀ b, b ∈ l.*1 ↔ is_Some (m_vectors s !! b)).
Proof.
  intros Hnull Hen Hk Hef Hs.
  destruct (validate_vector_dimension q s) as [[] s1|e1 s1|] eqn:Hv.
  2: { exfalso. apply validate_raise in Hv as (HD & Hne & -> & ->).
       destruct Hen as [en Hen].
       pose proof (is_empty_false s _ _ Hen) as He.
       assert (Hr : search_knn q k ef s
                    = Raise (DimensionMismatch (vector_dimension (m_config s)) (vsize q)) s).
       { apply search_knn_raise. split; [done|].
         split; [intros Heq; by rewrite Heq, Hnull in Hen|].
         split; [|done]. unfold is_empty in He. apply Nat.eqb_neq in He.
         unfold count in Hk. lia. }
       by rewrite Hr in Hs. }
  2: { exfalso. revert Hv. unfold validate_vector_dimension.
       destruct (_ =? 0); [done|]. by destruct (negb _). }
  destruct (search_knn_exhaustive_run s s1 q k ef Hnull Hen Hk Hef Hv)
    as (curr & r & Hcurr & Hrun & Hf & Hnd & Hall).
  rewrite Hrun in Hs. injection Hs as <- <-.
  split; [by exists curr|]. intros Hconn.
  assert (Hnodes : ∀ x, x ∈ r.*1 → is_Some (m_vectors s !! x)).
  { intros x (p & -> & Hp)%list_elem_of_fmap. rewrite Forall_forall in Hf.
    destruct (Hf p Hp) as (pn & Hpn & _). by exists pn. }
  assert (Hcover : ∀ b, is_Some (m_vectors s !! b) → b ∈ r.*1).
  { intros b Hb. by apply Hall, Hconn. }
  split; [|intros b; split; [apply Hnodes|apply Hcover]].
  destruct (keys_within (r.*1) (m_vectors s) Hnd Hnodes) as [Hle _].
  pose proof (keys_cover _ _ Hnd Hcover) as Hge. rewrite length_fmap in Hle, Hge.
  unfold vsize, count. lia.
Qed.

End ExhaustiveSearch.

Section ExhaustiveRadius.
Context {F : Float64} {L : Float64Order F}.


End ExhaustiveRadius.

Section ReopenedConfiguration.
Context {F : Float64} {B : Float64Bits F}.

(** X29: of the configuration, the storage holds the dimension, [M],
    [ef_construction] and [ef_search]: an index opened from what a
    well-formed index saved has these again (a saved [ef_search] of 0 is
    normalised). The metric and [M0] are not stored: the opened index has
    those of the configuration given to the constructor. *)
Theorem reopened_configuration (s : HNSWIndex) (config : HNSWIndexConfig) :
  well_formed s →
  0 ≤ M (m_config s) < 2 ^ 64 →
  0 ≤ ef_construction (m_config s) < 2 ^ 64 →
  0 ≤ ef_search (m_config s) < 2 ^ 64 →
  ∃ t, HNSWIndex_open (m_array (save_to_storage s)) (m_alloc (save_to_storage s)) config
       = Done tt t
       ∧ vector_dimension (m_config t) = vector_dimension (m_config s)
       ∧ M (m_config t) = M (m_config s)
       ∧ ef_construction (m_config t) = ef_construction (m_config s)
       ∧ ef_search (m_config t)
         = (if ef_search (m_config s) =? 0 then Z.max 64 (to_size_t (M (m_config s) * 8))
            else ef_search (m_config s))
       ∧ metric (m_config t) = metric config
       ∧ M0 (m_config t)
         = (if M0 config =? 0 then to_size_t (M (m_config s) * 2) else M0 config).
Proof.
  intros [Hwf Hel Hdim Hnext Hroot] HM Hefc Hefs.
  unfold save_to_storage.
  destruct (alloc_array (metadata_of s) (m_alloc s)) as [mref a1] eqn:H1.
  destruct (save_nodes (map_to_list (m_vectors s)) a1) as [refs a2] eqn:H2.
  destruct (alloc_array (mref :: refs) a2) as [root a3] eqn:H3.
  apply alloc_array_spec in H1 as (-> & Hn1 & Hr1 & He1).
  apply save_nodes_spec in H2 as [He2 _]; [|lia].
  apply alloc_array_spec in H3 as (-> & Hn3 & Hr3 & He3).
  pose proof He2 as [Hle2 _].
  set (af := free_array (m_array s) a3).
  assert (Hk : keeps a3 af (a_next (m_alloc s))).
  { intros r Hr. unfold af, free_array. simpl. apply lookup_delete_ne. lia. }
  assert (Hread_root : read_array (a_next a2) af = a_next (m_alloc s) :: refs).
  { eapply keeps_read; [exact Hk|lia|done]. }
  assert (Hread_meta : read_array (a_next (m_alloc s)) af = metadata_of s).
  { eapply keeps_read; [exact Hk|lia|].
    eapply extends_lookup; [eapply extends_trans; [exact He2|exact He3]|lia|done]. }
  unfold HNSWIndex_open, and_then, load_from_storage. simpl.
  fold af. rewrite Hread_root.
  change (slot (a_next (m_alloc s) :: refs) 0) with (a_next (m_alloc s)).
  destruct (Z.eqb_spec (vsize (a_next (m_alloc s) :: refs)) 0) as [Hz|_].
  { unfold vsize in Hz. simpl in Hz. lia. }
  destruct (Z.eqb_spec (a_next (m_alloc s)) 0); [lia|].
  rewrite Hread_meta.
  change (7 <=? vsize (metadata_of s)) with true.
  change (negb (to_size_t (slot (metadata_of s) 0) =? k_format_version)) with false.
  cbv iota.
  change (slot (metadata_of s) 3) with (to_int64 (vector_dimension (m_config s))).
  change (slot (metadata_of s) 4) with (to_int64 (M (m_config s))).
  change (slot (metadata_of s) 5) with (to_int64 (ef_construction (m_config s))).
  change (slot (metadata_of s) 6) with (to_int64 (ef_search (m_config s))).
  rewrite !to_size_t_to_int64 by done.
  eexists. split; [reflexivity|]. simpl. done.
Qed.

End ReopenedConfiguration.

Module MoreChecks.
Import Runs.

#[local] Existing Instance ZFloat.

Lemma idx0_uniform_dimension : uniform_dimension idx0.
Proof.
  intros k n Hn. change (m_vectors idx0) with (∅ : gmap Z Node) in Hn.
  by rewrite lookup_empty in Hn.
Qed.

Lemma two_rows_keys_and_layers : keys_and_layers (m_vectors two_rows).
Proof. apply (bool_decide_unpack _). vm_compute. exact I. Qed.

Lemma two_rows_entry_point_maximal : entry_point_maximal two_rows.
Proof.
  unfold entry_point_maximal.
  replace (is_empty two_rows) with false by (vm_compute; reflexivity).
  destruct (m_vectors two_rows !! m_entry_point two_rows) as [n|] eqn:Hn;
    [|by vm_compute in Hn].
  exists n. split; [done|].
  assert (Hl : layer n = m_entry_point_layer two_rows).
  { vm_compute in Hn. injection Hn as <-. vm_compute. reflexivity. }
  split; [done|].
  change (map_Forall (λ _ n', layer n' ≤ m_entry_point_layer two_rows) (m_vectors two_rows)).
  apply (bool_decide_unpack _). vm_compute. exact I.
Qed.

(** [verify] passes on the graph that [erase] left with a reference to the
    erased row: the neighbour 1 of node 2 is no node, so it is not looked
    at. *)
Lemma verify_passes_with_dangling_reference :
  verify after_erase = true ∧ symmetricb (m_vectors after_erase) = false.
Proof. split; vm_compute; reflexivity. Qed.

Lemma connect_nodes_links_both_witness :
  ∃ n1 n2, connect_nodes 1 2 3 (m_vectors two_rows) !! 1 = Some n1
           ∧ connect_nodes 1 2 3 (m_vectors two_rows) !! 2 = Some n2
           ∧ 2 ∈ adjacency n1 3 ∧ 1 ∈ adjacency n2 3.
Proof.
  destruct (connect_nodes_links_both 1 2 3 (m_vectors two_rows)) as [_ H]; [lia|].
  destruct (H (@mkNode ZFloat 1 [1; 0] 0 [[2]; [2]; [2]])
              (@mkNode ZFloat 2 [2; 1] 2 [[1]; [1]; [1]]))
    as (n1 & n2 & H1 & H2 & H3 & H4 & _); [vm_compute; reflexivity..|].
  exists n1, n2. split; [exact H1|]. split; [exact H2|]. split; [exact H3|exact H4].
Defined.


Lemma select_neighbors_heuristic_bounded_witness :
  vsize (select_neighbors_heuristic (m_config four_rows) (m_vectors four_rows)
           [1; 1] [(2, -3); (3, -3)] 1 0 true) ≤ 1.
Proof.
  apply (select_neighbors_heuristic_bounded (m_config four_rows) (m_vectors four_rows)
           [1; 1] [(2, -3); (3, -3)] 1 0 true). lia.
Defined.


Lemma search_knn_results_are_nodes_witness :
  (∀ p, p ∈ [(4, -4); (2, -3); (3, -3); (1, -1)] →
        ∃ n, m_vectors four_rows !! p.1 = Some n
             ∧ p.2 = compute_distance (m_config four_rows) [1; 1] (vector n))
  ∧ NoDup [(4, -4); (2, -3); (3, -3); (1, -1)].*1
  ∧ vsize [(4, -4); (2, -3); (3, -3); (1, -1)] ≤ Z.min 4 (count four_rows).
Proof.
  apply (search_knn_results_are_nodes four_rows [1; 1] 4 0 _ four_rows);
    [lia|vm_compute; reflexivity].
Defined.

Lemma search_knn_at_least_as_close_witness :
  ∃ p l s', search_knn [1; 1] 1 0 four_rows = Done (p :: l) s'.
Proof.
  destruct (m_vectors four_rows !! m_entry_point four_rows) as [en|] eqn:Hen;
    [|by vm_compute in Hen].
  destruct (@search_knn_at_least_as_close ZFloat Checks.ZFloat_order four_rows [1; 1] 1 0 en)
    as (p & l & s' & Hs & _);
    [vm_compute; reflexivity|exact Hen|lia|right; vm_compute; reflexivity|].
  by exists p, l, s'.
Defined.


Lemma searches_read_only_witness :
  (four_rows = four_rows
   ∨ (vector_dimension (m_config four_rows) = 0 ∧ is_empty four_rows = false
      ∧ four_rows
        = with_config (set_vector_dimension (vsize [1; 1]) (m_config four_rows)) four_rows))
  ∧ (uniform_dimension four_rows → four_rows = four_rows).
Proof.
  apply (searches_read_only four_rows [1; 1] 3 0 0 four_rows).
  left. vm_compute. reflexivity.
Defined.

Lemma find_all_distinct_nodes_witness :
  NoDup [4; 2; 3; 1]
  ∧ (∀ k, k ∈ [4; 2; 3; 1] → is_Some (m_vectors four_rows !! k))
  ∧ vsize [4; 2; 3; 1] ≤ Z.min 10 (count four_rows).
Proof.
  apply (find_all_distinct_nodes four_rows [1; 1] [4; 2; 3; 1] four_rows).
  vm_compute. reflexivity.
Defined.





Lemma first_insert_is_found_witness :
  ∃ s', insert 1 [1; 0] 0 idx0 = Done tt s'
        ∧ count s' = 1
        ∧ search_knn [1; 0] 3 0 s'
          = Done [(1, compute_distance (m_config idx0) [1; 0] [1; 0])] s'
        ∧ find_first [1; 0] s' = Done 1 s'.
Proof.
  apply (first_insert_is_found idx0 1 [1; 0] 0 3 0);
    [vm_compute; reflexivity|by vm_compute|by vm_compute|left; vm_compute; reflexivity|lia].
Defined.

Lemma idx0_degree_bounded : degree_bounded (m_config idx0) (m_vectors idx0).
Proof.
  intros k lc H0. change (m_vectors idx0) with (∅ : gmap Z Node).
  rewrite live_connections_lookup, lookup_empty.
  change (max_connections (m_config idx0) lc) with (if lc =? 0 then 32 else 16).
  unfold vsize. simpl. destruct (lc =? 0); lia.
Qed.



Lemma well_formed_kept_witness : well_formed after_erase.
Proof.
  apply (well_formed_kept two_rows after_erase 1 [] 0 Checks.two_rows_well_formed);
    [lia|by vm_compute|].
  right. left. vm_compute. reflexivity.
Defined.

Lemma created_index_well_formed_witness :
  well_formed idx0
  ∧ degree_bounded (m_config idx0) (m_vectors idx0)
  ∧ 0 ≤ M (m_config idx0)
  ∧ 0 ≤ M0 (m_config idx0).
Proof.
  apply (created_index_well_formed arena0 (HNSWIndexConfig_new DotProduct));
    [by vm_compute|by vm_compute|by vm_compute|by vm_compute].
Defined.

Lemma search_knn_exhaustive_witness :
  ∃ curr, is_Some (m_vectors four_rows !! curr)
          ∧ ∀ b, rtc (links_to (m_vectors four_rows) 0) curr b →
                 b ∈ [(4, -4); (2, -3); (3, -3); (1, -1)].*1.
Proof.
  apply (search_knn_exhaustive four_rows [1; 1] 4 0
           [(4, -4); (2, -3); (3, -3); (1, -1)] four_rows);
    [vm_compute; reflexivity|vm_compute; by eexists|by vm_compute|by left
    |vm_compute; reflexivity].
Defined.

Lemma one_row_only_key a : is_Some (m_vectors one_row !! a) → a = 1.
Proof.
  intros Ha%elem_of_dom.
  replace (dom (m_vectors one_row)) with ({[1]} : gset Z) in Ha by (vm_compute; reflexivity).
  by apply elem_of_singleton in Ha.
Qed.


Lemma reopened_configuration_witness :
  ∃ t, HNSWIndex_open (m_array (save_to_storage two_rows))
         (m_alloc (save_to_storage two_rows)) (HNSWIndexConfig_new Euclidean)
       = Done tt t
       ∧ vector_dimension (m_config t) = vector_dimension (m_config two_rows)
       ∧ M (m_config t) = M (m_config two_rows)
       ∧ ef_construction (m_config t) = ef_construction (m_config two_rows)
       ∧ ef_search (m_config t)
         = (if ef_search (m_config two_rows) =? 0
            then Z.max 64 (to_size_t (M (m_config two_rows) * 8))
            else ef_search (m_config two_rows))
       ∧ metric (m_config t) = metric (HNSWIndexConfig_new Euclidean)
       ∧ M0 (m_config t)
         = (if M0 (HNSWIndexConfig_new Euclidean) =? 0
            then to_size_t (M (m_config two_rows) * 2)
            else M0 (HNSWIndexConfig_new Euclidean)).
Proof.
  apply (@reopened_configuration ZFloat Checks.ZFloat_bits two_rows
           (HNSWIndexConfig_new Euclidean) Checks.two_rows_well_formed);
    by vm_compute.
Defined.

End MoreChecks.
